(** * VoiceTrace: the capture pipeline and its collaborators

    A shallow embedding of the Python sources (anonymization.py, llm.py,
    transcription.py, process_audio.py, metrics_report.py, config.py,
    manual.py, watch.py) together with the properties stated about them.

    Modelling conventions.
    - A Python [str] is a [string]; a character is a code point below 256,
      so [lower], [isspace] and case-insensitive matching are the Latin-1
      restrictions of the Unicode ones.
    - A [dict] whose key order is observable (JSON output, iteration) is an
      association list with in-place update and append of new keys.
    - Exceptions are values of [exn]; [str(exc)] is [exn_msg].
    - Everything outside the program (HTTP backend, recognition engine,
      filesystem failures, clocks) is an explicit oracle.
    - Console output and the pauses between retries are not part of the
      state; a float is kept as the decimal it prints as. *)

From Stdlib Require Import String Ascii List Bool Arith ZArith QArith Lia.
Import ListNotations.
Open Scope string_scope.
Open Scope nat_scope.

(* ================================================================== *)
(** * Python strings *)
(* ================================================================== *)

Module Str.

Definition nl : string := String (ascii_of_nat 10) "".

Definition code (c : ascii) : nat := nat_of_ascii c.

Definition is_upper (c : ascii) : bool :=
  let n := code c in
  ((65 <=? n) && (n <=? 90))
  || ((192 <=? n) && (n <=? 222) && negb (n =? 215)).

(** [str.lower] on one code point. *)
Definition lower_char (c : ascii) : ascii :=
  if is_upper c then ascii_of_nat (code c + 32) else c.

Fixpoint lower (s : string) : string :=
  match s with
  | "" => ""
  | String c s' => String (lower_char c) (lower s')
  end.

(** [str.isspace] on one code point. *)
Definition isspace (c : ascii) : bool :=
  let n := code c in
  ((9 <=? n) && (n <=? 13)) || ((28 <=? n) && (n <=? 32))
  || (n =? 133) || (n =? 160).

Fixpoint rev (s : string) : string :=
  match s with
  | "" => ""
  | String c s' => rev s' ++ String c ""
  end.

Fixpoint lstrip_by (f : ascii -> bool) (s : string) : string :=
  match s with
  | "" => ""
  | String c s' => if f c then lstrip_by f s' else s
  end.

Definition rstrip_by (f : ascii -> bool) (s : string) : string :=
  rev (lstrip_by f (rev s)).

Definition strip_by (f : ascii -> bool) (s : string) : string :=
  rstrip_by f (lstrip_by f s).

(** [s.strip()] *)
Definition strip (s : string) : string := strip_by isspace s.

(** [s.strip(chars)] *)
Fixpoint mem_char (c : ascii) (chars : string) : bool :=
  match chars with
  | "" => false
  | String d r => Ascii.eqb c d || mem_char c r
  end.

Definition strip_chars (chars s : string) : string :=
  strip_by (fun c => mem_char c chars) s.

(** [s.split()]: the maximal runs of non-whitespace characters. *)
Fixpoint split_go (word : string) (s : string) : list string :=
  match s with
  | "" => match word with "" => [] | _ => [word] end
  | String c s' =>
      if isspace c
      then match word with
           | "" => split_go "" s'
           | _ => word :: split_go "" s'
           end
      else split_go (word ++ String c "") s'
  end.

Definition split (s : string) : list string := split_go "" s.

(** [p] matches at the start of [s], characters compared by [eqc]. *)
Fixpoint prefix_by (eqc : ascii -> ascii -> bool) (p s : string) : bool :=
  match p with
  | "" => true
  | String a p' =>
      match s with
      | "" => false
      | String b s' => eqc a b && prefix_by eqc p' s'
      end
  end.

(** [s.startswith(p)] *)
Definition startswith (p s : string) : bool := prefix_by Ascii.eqb p s.

(** The suffixes of [s], longest first, the empty one last. *)
Fixpoint tails (s : string) : list string :=
  s :: match s with
       | "" => []
       | String _ s' => tails s'
       end.

(** [p in s] *)
Definition contains (p s : string) : bool :=
  existsb (startswith p) (tails s).

(** [sep.join(parts)] *)
Definition join (sep : string) (parts : list string) : string :=
  String.concat sep parts.

(** Leftmost non-overlapping replacement of a non-empty pattern [p] by
    [r]; [skip] counts the characters of a match still to be dropped. *)
Fixpoint replace_go (eqc : ascii -> ascii -> bool) (p r : string)
  (skip : nat) (s : string) : string :=
  match s with
  | "" => ""
  | String c s' =>
      match skip with
      | S k => replace_go eqc p r k s'
      | O =>
          if prefix_by eqc p s
          then r ++ replace_go eqc p r (String.length p - 1) s'
          else String c (replace_go eqc p r 0 s')
      end
  end.

Fixpoint intersperse (r s : string) : string :=
  match s with
  | "" => ""
  | String c s' => String c (r ++ intersperse r s')
  end.

(** [s.replace(old, new)]; an empty [old] matches between all characters. *)
Definition replace (old new s : string) : string :=
  match old with
  | "" => new ++ intersperse new s
  | _ => replace_go Ascii.eqb old new 0 s
  end.

(** Decimal rendering of a natural number, [str(n)]. *)
Definition digit (n : nat) : ascii := ascii_of_nat (48 + n mod 10).

Fixpoint dec_go (fuel n : nat) (acc : string) : string :=
  match fuel with
  | O => acc
  | S f =>
      let acc' := String (digit n) acc in
      if n <? 10 then acc' else dec_go f (n / 10) acc'
  end.

Definition of_nat (n : nat) : string := dec_go (S n) n "".

(** Zero-padded rendering, [f"{n:0{w}d}"]. *)
Fixpoint zeros (k : nat) : string :=
  match k with O => "" | S k' => String "0" (zeros k') end.

Definition pad (w n : nat) : string :=
  let d := of_nat n in zeros (w - String.length d) ++ d.

End Str.

(* ================================================================== *)
(** * Insertion-ordered dictionaries with string keys *)
(* ================================================================== *)

Module Dict.

Definition dict (V : Type) : Type := list (string * V).

(** [d[k] = v]: an existing key keeps its position, a new key goes last. *)
Fixpoint set {V : Type} (d : dict V) (k : string) (v : V) : dict V :=
  match d with
  | [] => [(k, v)]
  | (k', v') :: d' =>
      if String.eqb k' k then (k, v) :: d' else (k', v') :: set d' k v
  end.

(** [d.get(k)] *)
Fixpoint get {V : Type} (d : dict V) (k : string) : option V :=
  match d with
  | [] => None
  | (k', v') :: d' => if String.eqb k' k then Some v' else get d' k
  end.

(** [k in d] *)
Definition mem {V : Type} (d : dict V) (k : string) : bool :=
  match get d k with Some _ => true | None => false end.

Definition keys {V : Type} (d : dict V) : list string := map fst d.

End Dict.

(* ================================================================== *)
(** * anonymization.py *)
(* ================================================================== *)

Module Anonymization.
Import Str.
Import Dict.

(** Character comparison under [re.IGNORECASE]. *)
Definition ci_eq (a b : ascii) : bool :=
  Ascii.eqb (lower_char a) (lower_char b).

(** [re.compile(re.escape(original), re.IGNORECASE)] matching at the
    start of [s]. *)
Definition match_ci (original s : string) : bool := prefix_by ci_eq original s.

(** [pattern.search(s)] as a truth value. *)
Definition search_ci (original s : string) : bool :=
  existsb (match_ci original) (tails s).

(** [pattern.sub(placeholder, s)] for a non-empty literal pattern and a
    replacement without backslashes. *)
Definition sub_ci (original placeholder s : string) : string :=
  replace_go ci_eq original placeholder 0 s.

Definition ANONYMIZATION_MAP : list (string * string) :=
  [ ("Anthropic", "[COMPANY_A]");
    ("Google", "[COMPANY_B]");
    ("OpenAI", "[COMPANY_C]");
    ("Obsidian", "[TOOL_A]");
    ("Ollama", "[TOOL_B]") ].

Fixpoint anonymize_loop (items : list (string * string))
  (anonymized : string) (reverse_map : dict string)
  : string * dict string :=
  match items with
  | [] => (anonymized, reverse_map)
  | (original, placeholder) :: rest =>
      if search_ci original anonymized
      then anonymize_loop rest (sub_ci original placeholder anonymized)
             (Dict.set reverse_map placeholder original)
      else anonymize_loop rest anonymized reverse_map
  end.

Definition anonymize (text : string) : string * dict string :=
  anonymize_loop ANONYMIZATION_MAP text [].

Fixpoint deanonymize (text : string) (reverse_map : dict string) : string :=
  match reverse_map with
  | [] => text
  | (placeholder, original) :: rest =>
      deanonymize (replace placeholder original text) rest
  end.

End Anonymization.

(* ================================================================== *)
(** * Exceptions and results *)
(* ================================================================== *)

(** The exception classes the program raises or lets through; all of them
    derive from [Exception].  [OtherError] stands for the exceptions of the
    recognition engine and of the remote API client. *)
Inductive exn : Type :=
| ValueError (msg : string)
| RuntimeError (msg : string)
| RequestException (msg : string)
| IndexError (msg : string)
| KeyError (msg : string)
| OSError (msg : string)
| ZeroDivisionError (msg : string)
| TypeError (msg : string)
| AttributeError (msg : string)
| OtherError (msg : string).

(** [str(exc)] *)
Definition exn_msg (e : exn) : string :=
  match e with
  | ValueError m | RuntimeError m | RequestException m | IndexError m
  | KeyError m | OSError m | ZeroDivisionError m | TypeError m
  | AttributeError m | OtherError m => m
  end.

Inductive result (A : Type) : Type :=
| Ok (a : A)
| Raise (e : exn).
Arguments Ok {A} a.
Arguments Raise {A} e.

(** Pure paths: the list of components, [p / x] appends one. *)
Module Path.
Import Str.

Definition t : Type := list string.

Definition div (p : t) (x : string) : t := (p ++ [x])%list.

(** [p.name] *)
Definition name (p : t) : string := last p "".

(** [str(p)] *)
Definition to_str (p : t) : string := join "/" p.

(** The text around the last dot of [s], if it has one. *)
Fixpoint rsplit_dot (s : string) : option (string * string) :=
  match s with
  | "" => None
  | String c s' =>
      match rsplit_dot s' with
      | Some (b, a) => Some (String c b, a)
      | None => if Ascii.eqb c "." then Some ("", s') else None
      end
  end.

(** [p.stem]: the name without its last suffix; a dot that starts or ends
    the name does not open a suffix. *)
Definition stem (p : t) : string :=
  match rsplit_dot (name p) with
  | Some (String c b, String d a) => String c b
  | _ => name p
  end.

(** [p.suffix] *)
Definition suffix (p : t) : string :=
  match rsplit_dot (name p) with
  | Some (String _ _, String d a) => String "." (String d a)
  | _ => ""
  end.

Definition eqb (p q : t) : bool :=
  if list_eq_dec string_dec p q then true else false.

End Path.

(* ================================================================== *)
(** * config.py *)
(* ================================================================== *)

Record Config : Type := {
  vault_path : Path.t;
  ANTHROPIC_API_KEY : option string;
  LOCAL_LLM_RETRIES : Z;
  USE_CLAUDE_FOR_COMPLEX : bool;
  ANONYMIZE_FOR_CLAUDE : bool
}.

Module Cfg.
Definition audio_dir (c : Config) : Path.t := Path.div (vault_path c) "audio".
Definition processed_dir (c : Config) : Path.t := Path.div (audio_dir c) "processed".
Definition capture_file (c : Config) : Path.t := Path.div (vault_path c) "capture.md".
Definition logs_dir (c : Config) : Path.t := Path.div (vault_path c) "logs".
Definition raw_dir (c : Config) : Path.t := Path.div (vault_path c) "raw".
Definition sessions_dir (c : Config) : Path.t := Path.div (vault_path c) "sessions".
Definition metrics_file (c : Config) : Path.t := Path.div (logs_dir c) "metrics.jsonl".
End Cfg.

(** Truth value of an optional string: [None] and the empty string are
    false. *)
Definition truthy (o : option string) : bool :=
  match o with
  | Some (String _ _) => true
  | _ => false
  end.

(* ================================================================== *)
(** * llm.py *)
(* ================================================================== *)

Module Llm.
Import Str.

(** A key of a JSON object: absent, present with [null], or present
    with a value of the expected kind. *)
Inductive field (A : Type) : Type :=
| Absent
| Null
| Present (a : A).
Arguments Absent {A}.
Arguments Null {A}.
Arguments Present {A} a.

(** The JSON body of a chat completion, as far as the client reads it:
    the keys [choices], [message] and [content]. *)
Record Message : Type := { content : field string }.
Record Choice : Type := { message : field Message }.
Record Payload : Type := { choices : field (list Choice) }.

(** What one POST to [/chat/completions] does: [requests.post],
    [raise_for_status] or [response.json] raises a [RequestException], or a
    JSON body arrives. *)
Inductive post_outcome : Type :=
| PostRaises (msg : string)
| PostJson (p : Payload).

(** The backends, as oracles indexed by the number of earlier requests of
    the same kind. *)
Record Backend : Type := {
  probe : nat -> option string;          (* GET /models: [Some msg] raises *)
  completion : nat -> post_outcome;      (* POST /chat/completions *)
  remote : nat -> exn + list (option string)  (* messages.create: blocks' [text] *)
}.

(** The processor object, with the log of the requests it has sent. *)
Record LLMProcessor : Type := {
  anthropic_client : option string;
  _local_llm_checked : bool;
  probes_sent : nat;
  posts_sent : list string;      (* prompts, oldest first *)
  remote_sent : list string
}.

Definition init (cfg : Config) : LLMProcessor :=
  {| anthropic_client :=
       if truthy (ANTHROPIC_API_KEY cfg) then ANTHROPIC_API_KEY cfg else None;
     _local_llm_checked := false;
     probes_sent := 0;
     posts_sent := [];
     remote_sent := [] |}.

Definition _check_local_llm (be : Backend) (self : LLMProcessor)
  : result unit * LLMProcessor :=
  if _local_llm_checked self then (Ok tt, self)
  else
    let sent :=
      {| anthropic_client := anthropic_client self;
         _local_llm_checked := false;
         probes_sent := S (probes_sent self);
         posts_sent := posts_sent self;
         remote_sent := remote_sent self |} in
    match probe be (probes_sent self) with
    | Some msg => (Raise (RequestException msg), sent)
    | None =>
        (Ok tt,
         {| anthropic_client := anthropic_client self;
            _local_llm_checked := true;
            probes_sent := S (probes_sent self);
            posts_sent := posts_sent self;
            remote_sent := remote_sent self |})
    end.

Definition log_post (prompt : string) (self : LLMProcessor) : LLMProcessor :=
  {| anthropic_client := anthropic_client self;
     _local_llm_checked := _local_llm_checked self;
     probes_sent := probes_sent self;
     posts_sent := (posts_sent self ++ [prompt])%list;
     remote_sent := remote_sent self |}.

Definition log_remote (prompt : string) (self : LLMProcessor) : LLMProcessor :=
  {| anthropic_client := anthropic_client self;
     _local_llm_checked := _local_llm_checked self;
     probes_sent := probes_sent self;
     posts_sent := posts_sent self;
     remote_sent := (remote_sent self ++ [prompt])%list |}.

(** [payload.get("choices", [{}])[0]]: the default is a list holding one
    empty object. *)
Definition first_choice (p : Payload) : result Choice :=
  match choices p with
  | Absent => Ok {| message := Absent |}
  | Null => Raise (TypeError "'NoneType' object is not subscriptable")
  | Present [] => Raise (IndexError "list index out of range")
  | Present (ch :: _) => Ok ch
  end.

(** [choice.get("message", {})] read with [.get("content", "")]. *)
Definition content_of (ch : Choice) : result (field string) :=
  match message ch with
  | Absent => Ok Absent
  | Null => Raise (AttributeError "'NoneType' object has no attribute 'get'")
  | Present m => Ok (content m)
  end.

(** [payload.get("choices", [{}])[0].get("message", {}).get("content", "").strip()] *)
Definition extract_content (p : Payload) : result string :=
  match first_choice p with
  | Raise e => Raise e
  | Ok ch =>
      match content_of ch with
      | Raise e => Raise e
      | Ok Absent => Ok (strip "")
      | Ok Null =>
          Raise (AttributeError "'NoneType' object has no attribute 'strip'")
      | Ok (Present c) => Ok (strip c)
      end
  end.

(** The body of the [try] of one attempt. *)
Definition attempt_once (o : post_outcome) : result string :=
  match o with
  | PostRaises msg => Raise (RequestException msg)
  | PostJson p =>
      match extract_content p with
      | Raise e => Raise e
      | Ok "" => Raise (ValueError "Local LLM returned empty content")
      | Ok c => Ok c
      end
  end.

(** [except (requests.RequestException, ValueError)] *)
Definition retryable (e : exn) : bool :=
  match e with
  | RequestException _ | ValueError _ => true
  | _ => false
  end.

(** How the [for] loop over the attempts ends. *)
Inductive loop_exit : Type :=
| Returned (content : string)
| Propagated (e : exn)
| Exhausted (last_error : option exn).

(** [for attempt in range(1, attempts + 1)], with [todo] iterations left. *)
Fixpoint attempt_loop (be : Backend) (prompt : string)
  (todo attempt attempts : nat) (last_error : option exn)
  (self : LLMProcessor) : loop_exit * LLMProcessor :=
  match todo with
  | O => (Exhausted last_error, self)
  | S todo' =>
      let sent := log_post prompt self in
      match attempt_once (completion be (List.length (posts_sent self))) with
      | Ok c => (Returned c, sent)
      | Raise exc =>
          if retryable exc
          then if attempts <=? attempt
               then (Exhausted (Some exc), sent)
               else attempt_loop be prompt todo' (S attempt) attempts
                      (Some exc) sent
          else (Propagated exc, sent)
      end
  end.

(** [str(last_error)] in the terminal message. *)
Definition str_last_error (last_error : option exn) : string :=
  match last_error with
  | None => "None"
  | Some e => exn_msg e
  end.

Definition terminal_message (operation : string) (attempts : nat)
  (last_error : option exn) : string :=
  "Local LLM " ++ operation ++ " failed after " ++ of_nat attempts
  ++ " attempts: " ++ str_last_error last_error.

(** [max(1, Config.LOCAL_LLM_RETRIES + 1)] *)
Definition attempts_of (cfg : Config) : nat :=
  Z.to_nat (Z.max 1 (LOCAL_LLM_RETRIES cfg + 1)).

Definition _local_chat_completion (cfg : Config) (be : Backend)
  (prompt temperature operation : string) (self : LLMProcessor)
  : result string * LLMProcessor :=
  match _check_local_llm be self with
  | (Raise e, self1) => (Raise e, self1)
  | (Ok _, self1) =>
      let attempts := attempts_of cfg in
      match attempt_loop be prompt attempts 1 attempts None self1 with
      | (Returned c, self2) => (Ok c, self2)
      | (Propagated e, self2) => (Raise e, self2)
      | (Exhausted last_error, self2) =>
          (Raise (RuntimeError (terminal_message operation attempts last_error)),
           self2)
      end
  end.

Definition cleanup_prompt (raw_text : string) : string :=
  "Clean up this voice transcription. Preserve meaning." ++ nl ++ nl
  ++ "Raw transcription:" ++ nl
  ++ raw_text ++ nl ++ nl
  ++ "Instructions:" ++ nl
  ++ "- Remove filler words and obvious speech artifacts." ++ nl
  ++ "- Fix repeated words and punctuation." ++ nl
  ++ "- Keep original intent and facts." ++ nl ++ nl
  ++ "Return only cleaned text.".

Definition cleanup_transcription (cfg : Config) (be : Backend)
  (raw_text : string) (self : LLMProcessor) : result string * LLMProcessor :=
  _local_chat_completion cfg be (cleanup_prompt raw_text) "0.2" "cleanup" self.

Definition phrases : list string :=
  [ "break down";
    "step by step";
    "what should i do";
    "what's the best way";
    "plan";
    "depends on";
    "blocked by";
    "sequence" ].

Definition should_use_claude (cfg : Config) (self : LLMProcessor)
  (text : string) : bool :=
  if negb (USE_CLAUDE_FOR_COMPLEX cfg)
     || negb (match anthropic_client self with Some _ => true | None => false end)
  then false
  else
    let lowered := lower text in
    (60 <? List.length (split text))
    || existsb (fun p => contains p lowered) phrases.

Definition local_breakdown_prompt (clean_text : string) : string :=
  "Convert this note into actionable tasks." ++ nl ++ nl
  ++ "Text:" ++ nl
  ++ clean_text ++ nl ++ nl
  ++ "Output markdown checklist only." ++ nl
  ++ "Format each line as:" ++ nl
  ++ "- [ ] Action (~time) #tags" ++ nl ++ nl
  ++ "Tags allowed: #work #personal #research #quick #deep-work".

Definition breakdown_with_local_llm (cfg : Config) (be : Backend)
  (clean_text : string) (self : LLMProcessor) : result string * LLMProcessor :=
  _local_chat_completion cfg be (local_breakdown_prompt clean_text) "0.2"
    "task breakdown" self.

Definition remote_breakdown_prompt (input_text : string) : string :=
  "Break this into specific next actions." ++ nl ++ nl
  ++ "Task:" ++ nl
  ++ input_text ++ nl ++ nl
  ++ "Output markdown checklist only." ++ nl
  ++ "Format:" ++ nl
  ++ "- [ ] Action (~time) #tags" ++ nl ++ nl
  ++ "Include dependencies and execution order if relevant.".

(** [if text: parts.append(text)] over the blocks of the reply. *)
Fixpoint text_parts (blocks : list (option string)) : list string :=
  match blocks with
  | [] => []
  | Some (String c s) :: rest => String c s :: text_parts rest
  | _ :: rest => text_parts rest
  end.

Definition breakdown_with_claude (cfg : Config) (be : Backend)
  (clean_text : string) (self : LLMProcessor) : result string * LLMProcessor :=
  match anthropic_client self with
  | None => (Raise (ValueError "ANTHROPIC_API_KEY is not configured"), self)
  | Some _ =>
      let '(input_text, reverse_map) :=
        if ANONYMIZE_FOR_CLAUDE cfg
        then Anonymization.anonymize clean_text
        else (clean_text, []) in
      let sent := log_remote (remote_breakdown_prompt input_text) self in
      match remote be (List.length (remote_sent self)) with
      | inl e => (Raise e, sent)
      | inr blocks =>
          let result := strip (join nl (text_parts blocks)) in
          let result :=
            match reverse_map with
            | [] => result
            | _ => Anonymization.deanonymize result reverse_map
            end in
          match result with
          | "" => (Raise (ValueError "Claude breakdown returned empty text"), sent)
          | _ => (Ok result, sent)
          end
      end
  end.

Definition breakdown_tasks (cfg : Config) (be : Backend)
  (clean_text : string) (self : LLMProcessor)
  : result (string * string) * LLMProcessor :=
  if should_use_claude cfg self clean_text
  then match breakdown_with_claude cfg be clean_text self with
       | (Ok r, self') => (Ok (r, "claude"), self')
       | (Raise e, self') => (Raise e, self')
       end
  else match breakdown_with_local_llm cfg be clean_text self with
       | (Ok r, self') => (Ok (r, "local_llm"), self')
       | (Raise e, self') => (Raise e, self')
       end.

End Llm.

(* ================================================================== *)
(** * transcription.py *)
(* ================================================================== *)

Module Transcription.
Import Str.

(** The recognition engine: constructing the model may raise, and so may
    a run, which otherwise yields the texts of the segments. *)
Record Engine : Type := {
  load : option string;
  run : nat -> string + list string
}.

Record Transcriber : Type := {
  _model : bool;            (* the model has been loaded *)
  runs : nat                (* transcriptions started so far *)
}.

Definition init : Transcriber := {| _model := false; runs := 0 |}.

Definition _load_model (eng : Engine) (self : Transcriber)
  : result unit * Transcriber :=
  if _model self then (Ok tt, self)
  else match load eng with
       | Some msg => (Raise (OtherError msg), self)
       | None => (Ok tt, {| _model := true; runs := runs self |})
       end.

Definition transcribe (eng : Engine) (audio_path : Path.t) (self : Transcriber)
  : result (string * string) * Transcriber :=
  match _load_model eng self with
  | (Raise e, self1) => (Raise e, self1)
  | (Ok _, self1) =>
      let started := {| _model := _model self1; runs := S (runs self1) |} in
      match run eng (runs self1) with
      | inl msg => (Raise (OtherError msg), started)
      | inr segments =>
          let pieces := map strip segments in
          let text := strip (join " " pieces) in
          match text with
          | "" => (Raise (ValueError "Transcription returned empty text"), started)
          | _ => (Ok (text, "whisper_local"), started)
          end
      end
  end.

End Transcription.

(* ================================================================== *)
(** * Floating point, as far as the pipeline uses it *)
(* ================================================================== *)

Module Float.
Local Open Scope Z_scope.

(** Nearest integer to [num / den], ties to even ([0 < den]). *)
Definition round_half_even (num den : Z) : Z :=
  let q := num / den in
  let r := num mod den in
  if 2 * r <? den then q
  else if den <? 2 * r then q + 1
  else if Z.even q then q else q + 1.

(** Numerator and denominator of [(a / b) / 2^e]. *)
Definition scaled (a b e : Z) : Z * Z :=
  if 0 <=? e then (a, b * 2 ^ e) else (a * 2 ^ (- e), b).

(** [a / b] on two integers [0 <= a], [0 < b]: the correctly rounded
    binary64 quotient, as a 53-bit mantissa [m] and an exponent [e] with
    value [m * 2^e]. *)
Definition truediv (a b : Z) : Z * Z :=
  if a =? 0 then (0, 0)
  else
    let e0 := Z.log2 a - Z.log2 b - 52 in
    let '(n0, d0) := scaled a b e0 in
    let e := if n0 / d0 <? 2 ^ 52 then e0 - 1 else e0 in
    let '(n, d) := scaled a b e in
    (round_half_even n d, e).

(** [round(x, 4)]: the float nearest to the decimal with four places that
    is nearest to [x] (ties to even on the exact value of [x]); the
    result is given by that decimal, as a number of ten-thousandths. *)
Definition round4 (x : Z * Z) : Z :=
  let '(m, e) := x in
  if 0 <=? e then 10000 * m * 2 ^ e
  else round_half_even (10000 * m) (2 ^ (- e)).

End Float.

(* ================================================================== *)
(** * process_audio.py *)
(* ================================================================== *)

Module Pipeline.
Import Str.

#[local] Set Warnings "-register-all".

(** JSON values of the run record.  A duration is a number of seconds
    with three decimals, kept as thousandths; a ratio has four decimals,
    kept as ten-thousandths. *)
Inductive value : Type :=
| VNull
| VBool (b : bool)
| VStr (s : string)
| VInt (n : nat)
| VSeconds (thousandths : Z)
| VRatio (tenthousandths : Z)
| VDict (d : list (string * value)).

Definition record : Type := Dict.dict value.

Record datetime : Type := {
  year : nat; month : nat; day : nat;
  hour : nat; minute : nat; second : nat;
  microsecond : nat
}.

(** [strftime("%Y%m%d-%H%M%S")] *)
Definition stamp_seconds (t : datetime) : string :=
  pad 4 (year t) ++ pad 2 (month t) ++ pad 2 (day t) ++ "-"
  ++ pad 2 (hour t) ++ pad 2 (minute t) ++ pad 2 (second t).

(** [strftime("%Y-%m-%d %H:%M")] *)
Definition stamp_minutes (t : datetime) : string :=
  pad 4 (year t) ++ "-" ++ pad 2 (month t) ++ "-" ++ pad 2 (day t) ++ " "
  ++ pad 2 (hour t) ++ ":" ++ pad 2 (minute t).

(** [strftime("%Y-%m")] *)
Definition stamp_month (t : datetime) : string :=
  pad 4 (year t) ++ "-" ++ pad 2 (month t).

(** [isoformat()] *)
Definition isoformat (t : datetime) : string :=
  pad 4 (year t) ++ "-" ++ pad 2 (month t) ++ "-" ++ pad 2 (day t) ++ "T"
  ++ pad 2 (hour t) ++ ":" ++ pad 2 (minute t) ++ ":" ++ pad 2 (second t)
  ++ match microsecond t with
     | O => ""
     | us => "." ++ pad 6 us
     end.

(** ** The files the pipeline touches *)

Inductive file_content : Type :=
| FileText (s : string)
| FileJson (d : record).

Record World : Type := {
  dirs : list Path.t;                       (* directories made so far *)
  files : list (Path.t * file_content);     (* files written with mode "w" *)
  capture_log : list string;                (* blocks appended to capture.md *)
  metrics_log : list record;                (* lines of metrics.jsonl *)
  event_log : list (Path.t * record);       (* lines of the monthly logs *)
  audio_store : list Path.t                 (* audio files on disk *)
}.

Fixpoint path_eqb (p q : Path.t) : bool :=
  match p, q with
  | [], [] => true
  | x :: p', y :: q' => String.eqb x y && path_eqb p' q'
  | _, _ => false
  end.

Definition path_mem (p : Path.t) (l : list Path.t) : bool :=
  existsb (path_eqb p) l.

Definition mkdir (d : Path.t) (w : World) : World :=
  {| dirs := if path_mem d (dirs w) then dirs w else (dirs w ++ [d])%list;
     files := files w; capture_log := capture_log w;
     metrics_log := metrics_log w; event_log := event_log w;
     audio_store := audio_store w |}.

Definition write_file (p : Path.t) (c : file_content) (w : World) : World :=
  let w := mkdir (removelast p) w in
  {| dirs := dirs w;
     files := (p, c) :: filter (fun f => negb (path_eqb p (fst f))) (files w);
     capture_log := capture_log w;
     metrics_log := metrics_log w; event_log := event_log w;
     audio_store := audio_store w |}.

Definition append_capture (entry : string) (w : World) : World :=
  {| dirs := dirs w; files := files w;
     capture_log := (capture_log w ++ [entry])%list;
     metrics_log := metrics_log w; event_log := event_log w;
     audio_store := audio_store w |}.

Definition append_metrics (line : record) (w : World) : World :=
  {| dirs := dirs w; files := files w; capture_log := capture_log w;
     metrics_log := (metrics_log w ++ [line])%list;
     event_log := event_log w; audio_store := audio_store w |}.

Definition append_event (log_file : Path.t) (line : record) (w : World) : World :=
  {| dirs := dirs w; files := files w; capture_log := capture_log w;
     metrics_log := metrics_log w;
     event_log := (event_log w ++ [(log_file, line)])%list;
     audio_store := audio_store w |}.

Definition move_file (src dst : Path.t) (w : World) : World :=
  {| dirs := dirs w; files := files w; capture_log := capture_log w;
     metrics_log := metrics_log w; event_log := event_log w;
     audio_store :=
       (filter (fun f => negb (path_eqb src f || path_eqb dst f)) (audio_store w)
        ++ [dst])%list |}.

(** ** The environment of one invocation *)

(** The places of [process] and its helpers that touch the filesystem;
    each runs at most once per invocation. *)
Inductive io_site : Type :=
| MkdirSession | WriteRawStore | WriteRawSession | WriteClean | WriteTasks
| AppendCapture | MoveAudio | WriteMeta | AppendMetrics | AppendEvent
| WriteMetaOnFailure | AppendMetricsOnFailure.

Inductive now_site : Type :=
| NowStart | NowRawSave | NowCapture | NowArchive | NowEventFile | NowEventStamp.

Inductive perf_site : Type :=
| PcStart | PcTranscribed | PcRawOnlyTotal | PcCleanupStart | PcCleanupEnd
| PcBreakdownStart | PcBreakdownEnd | PcCaptureStart | PcCaptureEnd
| PcTotal | PcFailed.

Record Env : Type := {
  cfg : Config;
  backend : Llm.Backend;
  engine : Transcription.Engine;
  now : now_site -> datetime;            (* datetime.now() *)
  perf_counter : perf_site -> Z;         (* time.perf_counter(), in thousandths *)
  io_error : io_site -> option string    (* [Some msg]: the call raises OSError *)
}.

Record AudioProcessor : Type := {
  transcriber : Transcription.Transcriber;
  llm : Llm.LLMProcessor
}.

Definition init (c : Config) : AudioProcessor :=
  {| transcriber := Transcription.init; llm := Llm.init c |}.

(** The state one invocation works on: the files, the processor object and
    the [metrics] dict under construction. *)
Record Frame : Type := {
  world : World;
  self : AudioProcessor;
  metrics : record
}.

(** ** Computations that may raise *)

Definition M (A : Type) : Type := Frame -> result A * Frame.

Definition ret {A : Type} (a : A) : M A := fun f => (Ok a, f).

Definition raise {A : Type} (e : exn) : M A := fun f => (Raise e, f).

Definition bind {A B : Type} (m : M A) (k : A -> M B) : M B :=
  fun f =>
    match m f with
    | (Ok a, f') => k a f'
    | (Raise e, f') => (Raise e, f')
    end.

(** [try: body except Exception as exc: handler] *)
Definition try_except {A : Type} (body : M A) (handler : exn -> M A) : M A :=
  fun f =>
    match body f with
    | (Ok a, f') => (Ok a, f')
    | (Raise exc, f') => handler exc f'
    end.

Notation "x <- m ;; k" := (bind m (fun x => k))
  (at level 61, m at next level, right associativity).
Notation "m ;; k" := (bind m (fun _ => k))
  (at level 61, right associativity).

Definition get_world : M World := fun f => (Ok (world f), f).

Definition get_metrics : M record := fun f => (Ok (metrics f), f).

Definition put_metrics (m : record) : M unit :=
  fun f => (Ok tt, {| world := world f; self := self f; metrics := m |}).

(** [metrics[k] = v] *)
Definition metrics_set (k : string) (v : value) : M unit :=
  fun f =>
    (Ok tt,
     {| world := world f; self := self f;
        metrics := Dict.set (metrics f) k v |}).

(** [metrics["durations_sec"][k] = v] *)
Definition durations_set (k : string) (v : value) : M unit :=
  fun f =>
    match Dict.get (metrics f) "durations_sec" with
    | Some (VDict d) =>
        (Ok tt,
         {| world := world f; self := self f;
            metrics := Dict.set (metrics f) "durations_sec"
                         (VDict (Dict.set d k v)) |})
    | Some _ =>
        (Raise (TypeError "object does not support item assignment"), f)
    | None => (Raise (KeyError "'durations_sec'"), f)
    end.

(** One filesystem call: it raises where the environment says so, and
    otherwise has its effect. *)
Definition io (env : Env) (site : io_site) (effect : World -> World) : M unit :=
  fun f =>
    match io_error env site with
    | Some msg => (Raise (OSError msg), f)
    | None =>
        (Ok tt,
         {| world := effect (world f); self := self f; metrics := metrics f |})
    end.

Definition lift_transcriber {A : Type}
  (op : Transcription.Transcriber -> result A * Transcription.Transcriber)
  : M A :=
  fun f =>
    let '(r, t) := op (transcriber (self f)) in
    (r, {| world := world f;
           self := {| transcriber := t; llm := llm (self f) |};
           metrics := metrics f |}).

Definition lift_llm {A : Type}
  (op : Llm.LLMProcessor -> result A * Llm.LLMProcessor) : M A :=
  fun f =>
    let '(r, l) := op (llm (self f)) in
    (r, {| world := world f;
           self := {| transcriber := transcriber (self f); llm := l |};
           metrics := metrics f |}).

(** ** The helpers of [AudioProcessor] *)

Inductive doc : Type :=
| DocText (s : string)            (* a string *)
| DocJson (d : record).           (* [json.dumps(d, indent=2)] *)

(** [content.strip() + "\n"]; a JSON dump has no surrounding whitespace. *)
Definition stored (content : doc) : file_content :=
  match content with
  | DocText s => FileText (strip s ++ nl)
  | DocJson d => FileJson d
  end.

Definition _write_text (env : Env) (site : io_site) (path : Path.t)
  (content : doc) : M Path.t :=
  io env site (write_file path (stored content)) ;;
  ret path.

(** [re.sub(r"[^a-zA-Z0-9._-]+", "-", s)]; [in_run] says that the previous
    character was part of the match being replaced. *)
Definition allowed (c : ascii) : bool :=
  let n := code c in
  ((97 <=? n) && (n <=? 122)) || ((65 <=? n) && (n <=? 90))
  || ((48 <=? n) && (n <=? 57)) || mem_char c "._-".

Fixpoint sub_disallowed (in_run : bool) (s : string) : string :=
  match s with
  | "" => ""
  | String c s' =>
      if allowed c then String c (sub_disallowed false s')
      else if in_run then sub_disallowed true s'
      else String "-" (sub_disallowed true s')
  end.

Definition _make_session_id (audio_path : Path.t) (now : datetime) : string :=
  let base :=
    match lower (strip_chars "-" (sub_disallowed false (Path.stem audio_path))) with
    | "" => "audio"
    | b => b
    end in
  stamp_seconds now ++ "-" ++ base.

Definition capture_entry (timestamp name transcription_method breakdown_model
  raw_text clean_text breakdown : string) : string :=
  nl ++ "## " ++ timestamp ++ nl
  ++ "**Audio:** [[" ++ name ++ "]]" ++ nl
  ++ "**Transcription:** " ++ transcription_method
  ++ " | **Breakdown:** " ++ breakdown_model ++ nl ++ nl
  ++ "**Raw Transcription:**" ++ nl
  ++ "> " ++ raw_text ++ nl ++ nl
  ++ "**Cleaned:**" ++ nl
  ++ clean_text ++ nl ++ nl
  ++ "**Tasks:**" ++ nl
  ++ breakdown ++ nl ++ nl
  ++ "---" ++ nl.

Definition _append_capture (env : Env) (audio_path : Path.t)
  (raw_text clean_text breakdown transcription_method breakdown_model : string)
  : M unit :=
  let timestamp := stamp_minutes (now env NowCapture) in
  let entry :=
    capture_entry timestamp (Path.name audio_path) transcription_method
      breakdown_model raw_text clean_text breakdown in
  io env AppendCapture (append_capture entry).

Definition _save_raw_transcript (env : Env) (audio_path : Path.t)
  (raw_text : string) (session_dir : Path.t) : M Path.t :=
  let timestamp := stamp_seconds (now env NowRawSave) in
  let raw_output :=
    Path.div (Cfg.raw_dir (cfg env))
      (timestamp ++ "-" ++ Path.stem audio_path ++ ".txt") in
  _write_text env WriteRawStore raw_output (DocText raw_text) ;;
  let session_output := Path.div session_dir "raw_transcript.txt" in
  _write_text env WriteRawSession session_output (DocText raw_text) ;;
  ret session_output.

(** [shutil.move] needs its source. *)
Definition move (env : Env) (src dst : Path.t) : M unit :=
  w <- get_world ;;
  if path_mem src (audio_store w)
  then io env MoveAudio (move_file src dst)
  else raise (OSError "No such file or directory").

Definition _archive_audio (env : Env) (audio_path : Path.t) : M Path.t :=
  w <- get_world ;;
  let destination := Path.div (Cfg.processed_dir (cfg env)) (Path.name audio_path) in
  let destination :=
    if path_mem destination (audio_store w)
    then
      let suffix := stamp_seconds (now env NowArchive) in
      Path.div (Cfg.processed_dir (cfg env))
        (Path.stem audio_path ++ "-" ++ suffix ++ Path.suffix audio_path)
    else destination in
  move env audio_path destination ;;
  ret destination.

Definition _log_event (env : Env) (audio_path : Path.t)
  (transcription_method model_used : string) : M unit :=
  let log_file :=
    Path.div (Cfg.logs_dir (cfg env))
      (stamp_month (now env NowEventFile) ++ "-processing.jsonl") in
  let payload : record :=
    [ ("timestamp", VStr (isoformat (now env NowEventStamp)));
      ("audio_file", VStr (Path.name audio_path));
      ("transcription_method", VStr transcription_method);
      ("breakdown_model", VStr model_used) ] in
  io env AppendEvent (append_event log_file payload).

Definition _append_metrics (env : Env) (site : io_site) : M unit :=
  m <- get_metrics ;;
  io env site (append_metrics m).

Definition _write_session_metadata (env : Env) (site : io_site)
  (session_dir : Path.t) : M unit :=
  m <- get_metrics ;;
  _write_text env site (Path.div session_dir "session_meta.json") (DocJson m) ;;
  ret tt.

(** [round(len(clean_text) / max(1, len(raw_text)), 4)] *)
Definition compression_ratio (clean_chars raw_chars : nat) : Z :=
  Float.round4
    (Float.truediv (Z.of_nat clean_chars) (Z.of_nat (Nat.max 1 raw_chars))).

(** [round(time.perf_counter() - t, 3)]; the clock is read in thousandths. *)
Definition elapsed (env : Env) (site : perf_site) (t : Z) : value :=
  VSeconds (perf_counter env site - t)%Z.

Definition skipped_breakdown : string := "_Skipped due to --clean-only mode._".

(** ** [AudioProcessor.process] *)

Definition process (env : Env) (audio_path : Path.t)
  (raw_only clean_only : bool) : M bool :=
  if raw_only && clean_only
  then raise (ValueError "raw_only and clean_only cannot both be true")
  else
    let started_at := now env NowStart in
    let session_id := _make_session_id audio_path started_at in
    let session_dir := Path.div (Cfg.sessions_dir (cfg env)) session_id in
    io env MkdirSession (mkdir session_dir) ;;
    put_metrics
      [ ("session_id", VStr session_id);
        ("timestamp", VStr (isoformat started_at));
        ("audio_file", VStr (Path.name audio_path));
        ("audio_path", VStr (Path.to_str audio_path));
        ("raw_only", VBool raw_only);
        ("clean_only", VBool clean_only);
        ("status", VStr "started");
        ("durations_sec", VDict []);
        ("transcription_method", VNull);
        ("breakdown_model", VNull);
        ("capture_file", VStr (Path.to_str (Cfg.capture_file (cfg env))));
        ("session_dir", VStr (Path.to_str session_dir)) ] ;;
    (* [t0 = time.perf_counter()] opens the [try]; it cannot raise *)
    let t0 := perf_counter env PcStart in
    try_except
      ( r <- lift_transcriber (Transcription.transcribe (engine env) audio_path) ;;
        let '(raw_text, transcription_method) := r in
        durations_set "transcription" (elapsed env PcTranscribed t0) ;;
        metrics_set "transcription_method" (VStr transcription_method) ;;
        raw_path <- _save_raw_transcript env audio_path raw_text session_dir ;;
        metrics_set "raw_transcript_path" (VStr (Path.to_str raw_path)) ;;
        metrics_set "raw_chars" (VInt (String.length raw_text)) ;;
        metrics_set "raw_words" (VInt (List.length (split raw_text))) ;;
        if raw_only
        then
          archived_path <- _archive_audio env audio_path ;;
          metrics_set "archived_audio_path" (VStr (Path.to_str archived_path)) ;;
          metrics_set "breakdown_model" (VStr "raw_only") ;;
          metrics_set "status" (VStr "success") ;;
          durations_set "total" (elapsed env PcRawOnlyTotal t0) ;;
          _write_session_metadata env WriteMeta session_dir ;;
          _append_metrics env AppendMetrics ;;
          _log_event env audio_path transcription_method "raw_only" ;;
          ret true
        else
          let t_cleanup := perf_counter env PcCleanupStart in
          clean_text <-
            lift_llm (Llm.cleanup_transcription (cfg env) (backend env) raw_text) ;;
          durations_set "cleanup" (elapsed env PcCleanupEnd t_cleanup) ;;
          metrics_set "clean_chars" (VInt (String.length clean_text)) ;;
          metrics_set "clean_words" (VInt (List.length (split clean_text))) ;;
          metrics_set "compression_ratio"
            (VRatio (compression_ratio (String.length clean_text)
                       (String.length raw_text))) ;;
          clean_path <-
            _write_text env WriteClean
              (Path.div session_dir "cleaned_transcript.txt") (DocText clean_text) ;;
          metrics_set "clean_transcript_path" (VStr (Path.to_str clean_path)) ;;
          b <-
            (if clean_only
             then
               let model_used := "skipped_clean_only" in
               let breakdown := skipped_breakdown in
               metrics_set "breakdown_model" (VStr model_used) ;;
               ret (breakdown, model_used)
             else
               let t_breakdown := perf_counter env PcBreakdownStart in
               bm <-
                 lift_llm (Llm.breakdown_tasks (cfg env) (backend env) clean_text) ;;
               let '(breakdown, model_used) := bm in
               durations_set "breakdown" (elapsed env PcBreakdownEnd t_breakdown) ;;
               metrics_set "breakdown_model" (VStr model_used) ;;
               breakdown_path <-
                 _write_text env WriteTasks
                   (Path.div session_dir "tasks_breakdown.md") (DocText breakdown) ;;
               metrics_set "tasks_path" (VStr (Path.to_str breakdown_path)) ;;
               ret (breakdown, model_used)) ;;
          let '(breakdown, model_used) := b in
          let t_capture := perf_counter env PcCaptureStart in
          _append_capture env audio_path raw_text clean_text breakdown
            transcription_method model_used ;;
          durations_set "capture_write" (elapsed env PcCaptureEnd t_capture) ;;
          archived_path <- _archive_audio env audio_path ;;
          metrics_set "archived_audio_path" (VStr (Path.to_str archived_path)) ;;
          metrics_set "status" (VStr "success") ;;
          durations_set "total" (elapsed env PcTotal t0) ;;
          _write_session_metadata env WriteMeta session_dir ;;
          _append_metrics env AppendMetrics ;;
          _log_event env audio_path transcription_method model_used ;;
          ret true )
      (fun exc =>
         metrics_set "status" (VStr "failed") ;;
         metrics_set "error" (VStr (exn_msg exc)) ;;
         durations_set "total" (elapsed env PcFailed t0) ;;
         _write_session_metadata env WriteMetaOnFailure session_dir ;;
         _append_metrics env AppendMetricsOnFailure ;;
         ret false).

(** One call [processor.process(audio_path, raw_only, clean_only)] on the
    files [w]: what it returns or raises, and the processor and files
    afterwards.  The [metrics] dict is local to the call. *)
Definition run_process (env : Env) (p : AudioProcessor) (w : World)
  (audio_path : Path.t) (raw_only clean_only : bool)
  : result bool * AudioProcessor * World :=
  let '(r, f) :=
    process env audio_path raw_only clean_only
      {| world := w; self := p; metrics := [] |} in
  (r, self f, world f).

End Pipeline.

(* ================================================================== *)
(** * metrics_report.py *)
(* ================================================================== *)

Module MetricsReport.
Import Pipeline.

Section Report.

(** [float(s)] on a string: Python's parser of float literals, [None]
    where it raises [ValueError]. *)
Variable parse_float : string -> option Q.

(** [float(v)]; floats are taken as the rationals they denote. *)
Definition to_float (v : value) : result Q :=
  match v with
  | VSeconds t => Ok (t # 1000)
  | VRatio k => Ok (k # 10000)
  | VInt n => Ok (inject_Z (Z.of_nat n))
  | VBool b => Ok (if b then 1 else 0)%Q
  | VStr s =>
      match parse_float s with
      | Some q => Ok q
      | None => Raise (ValueError "could not convert string to float")
      end
  | VNull | VDict _ =>
      Raise (TypeError "float() argument must be a string or a real number")
  end.

(** [x / n] on a float and an integer. *)
Definition float_div (x : Q) (n : nat) : result Q :=
  match n with
  | O => Raise (ZeroDivisionError "float division by zero")
  | S _ => Ok (x / inject_Z (Z.of_nat n))%Q
  end.

Definition sum (values : list Q) : Q := fold_left Qplus values 0%Q.

(** [sum(values) / len(values) if values else 0.0] *)
Definition _avg (values : list Q) : result Q :=
  match values with
  | [] => Ok 0%Q
  | _ => float_div (sum values) (List.length values)
  end.

(** [r.get("durations_sec", {})], ready for its own [.get]. *)
Definition durations_of (r : record) : result record :=
  match Dict.get r "durations_sec" with
  | None => Ok []
  | Some (VDict d) => Ok d
  | Some _ => Raise (AttributeError "object has no attribute 'get'")
  end.

(** [float(r.get("durations_sec", {}).get(k, 0.0))] *)
Definition duration (k : string) (r : record) : result Q :=
  match durations_of r with
  | Raise e => Raise e
  | Ok d =>
      match Dict.get d k with
      | None => Ok 0%Q
      | Some v => to_float v
      end
  end.

(** [k in r.get("durations_sec", {})]: a key test on a dict, a substring
    test on a string, a [TypeError] on the other values. *)
Definition has_duration (k : string) (r : record) : result bool :=
  match Dict.get r "durations_sec" with
  | None => Ok false
  | Some (VDict d) => Ok (Dict.mem d k)
  | Some (VStr s) => Ok (Str.contains k s)
  | Some _ => Raise (TypeError "argument is not iterable")
  end.

Definition has_status (s : string) (r : record) : bool :=
  match Dict.get r "status" with
  | Some (VStr s') => String.eqb s' s
  | _ => false
  end.

(** [[f(r) for r in rows if keep(r)]], left to right, stopping at the
    first exception. *)
Fixpoint comprehension (keep : record -> result bool) (f : record -> result Q)
  (rows : list record) : result (list Q) :=
  match rows with
  | [] => Ok []
  | r :: rest =>
      match keep r with
      | Raise e => Raise e
      | Ok false => comprehension keep f rest
      | Ok true =>
          match f r with
          | Raise e => Raise e
          | Ok x =>
              match comprehension keep f rest with
              | Raise e => Raise e
              | Ok xs => Ok (x :: xs)
              end
          end
      end
  end.

Record Summary : Type := {
  total_runs : nat;
  successful_runs : nat;
  failed_runs : nat;
  raw_only_runs : nat;
  avg_total : Q;
  avg_cleanup : option Q;
  avg_breakdown : option Q;
  avg_compression : option Q
}.

(** [_avg(values)] printed only [if values]. *)
Definition avg_if_any (values : list Q) : result (option Q) :=
  match values with
  | [] => Ok None
  | _ => match _avg values with
         | Ok q => Ok (Some q)
         | Raise e => Raise e
         end
  end.

(** [main] on the rows of the metrics file; [None] is the
    "No metrics found" exit. *)
Definition main (rows : list record) : result (option Summary) :=
  match rows with
  | [] => Ok None
  | _ =>
      let total := List.length rows in
      let success := filter (has_status "success") rows in
      let failed := filter (has_status "failed") rows in
      let raw_only :=
        filter (fun r =>
                  match Dict.get r "raw_only" with
                  | Some (VBool true) => has_status "success" r
                  | _ => false
                  end) rows in
      match comprehension (fun _ => Ok true) (duration "total") success with
      | Raise e => Raise e
      | Ok totals =>
      match comprehension (has_duration "cleanup") (duration "cleanup") success with
      | Raise e => Raise e
      | Ok cleanup =>
      match comprehension (has_duration "breakdown") (duration "breakdown") success with
      | Raise e => Raise e
      | Ok breakdown =>
      match comprehension (fun r => Ok (Dict.mem r "compression_ratio"))
              (fun r => match Dict.get r "compression_ratio" with
                        | Some v => to_float v
                        | None => Ok 0%Q
                        end) success with
      | Raise e => Raise e
      | Ok compression =>
      match _avg totals with
      | Raise e => Raise e
      | Ok a_total =>
      match avg_if_any cleanup with
      | Raise e => Raise e
      | Ok a_cleanup =>
      match avg_if_any breakdown with
      | Raise e => Raise e
      | Ok a_breakdown =>
      match avg_if_any compression with
      | Raise e => Raise e
      | Ok a_compression =>
          Ok (Some {| total_runs := total;
                      successful_runs := List.length success;
                      failed_runs := List.length failed;
                      raw_only_runs := List.length raw_only;
                      avg_total := a_total;
                      avg_cleanup := a_cleanup;
                      avg_breakdown := a_breakdown;
                      avg_compression := a_compression |})
      end end end end end end end end
  end.

End Report.

End MetricsReport.

(* ================================================================== *)
(** * config.py: the watcher's settings and the start-up check *)
(* ================================================================== *)

Module ConfigOps.
Import Str.

Definition WATCH_EXTENSIONS : list string :=
  [".webm"; ".m4a"; ".mp3"; ".wav"; ".ogg"; ".flac"].

(** [path.suffix.lower() in Config.WATCH_EXTENSIONS] *)
Definition watched (path : Path.t) : bool :=
  existsb (String.eqb (lower (Path.suffix path))) WATCH_EXTENSIONS.

(** [Config.validate]; [vault_exists] is [cls.vault_path().exists()].
    The warning about a missing API key is console output. *)
Definition validate (c : Config) (vault_exists : bool) : result unit :=
  if negb vault_exists
  then Raise (ValueError ("Vault path does not exist: "
                          ++ Path.to_str (vault_path c)))
  else Ok tt.

End ConfigOps.

(* ================================================================== *)
(** * manual.py *)
(* ================================================================== *)

Module Manual.
Import Str Pipeline ConfigOps.

(** How a function that may call [sys.exit] ends.  [SystemExit] is not an
    [Exception]: no handler of the program catches it. *)
Inductive outcome (A : Type) : Type :=
| Done (a : A)
| Exit (code : nat)
| Raised (e : exn).
Arguments Done {A} a.
Arguments Exit {A} code.
Arguments Raised {A} e.

(** [arg in {"--raw-only", "--clean-only"}] *)
Definition is_flag (arg : string) : bool :=
  String.eqb arg "--raw-only" || String.eqb arg "--clean-only".

Definition _parse_args (argv : list string) : outcome (string * bool * bool) :=
  let raw_only := existsb (String.eqb "--raw-only") argv in
  let clean_only := existsb (String.eqb "--clean-only") argv in
  let args := filter (fun arg => negb (is_flag arg)) argv in
  if raw_only && clean_only then Exit 1
  else
    match args with
    | _ :: target :: _ => Done (target, raw_only, clean_only)
    | _ => Exit 1
    end.

(** The order of paths: component by component, strings by code point. *)
Fixpoint path_ltb (p q : Path.t) : bool :=
  match p, q with
  | _, [] => false
  | [], _ :: _ => true
  | x :: p', y :: q' =>
      match String.compare x y with
      | Lt => true
      | Eq => path_ltb p' q'
      | Gt => false
      end
  end.

(** [sorted]: a stable insertion sort. *)
Fixpoint insert (p : Path.t) (l : list Path.t) : list Path.t :=
  match l with
  | [] => [p]
  | q :: l' => if path_ltb q p then q :: insert p l' else p :: l
  end.

Definition sorted (l : list Path.t) : list Path.t := fold_right insert [] l.

(** [Config.audio_dir().iterdir()] restricted to the files: the audio
    files that lie in the audio folder itself. *)
Definition iterdir_files (c : Config) (w : World) : list Path.t :=
  filter (fun f => match f with
                   | [] => false
                   | _ => path_eqb (removelast f) (Cfg.audio_dir c)
                   end)
    (audio_store w).

Definition _iter_audio_files (c : Config) (w : World) : list Path.t :=
  sorted (filter watched (iterdir_files c w)).

(** One run of the program: the configuration and the backends are
    fixed, the clocks and the filesystem failures are those of the [i]-th
    call of [process]. *)
Record Host : Type := {
  config : Config;
  llm_backend : Llm.Backend;
  recognizer : Transcription.Engine;
  clock : nat -> now_site -> datetime;
  timer : nat -> perf_site -> Z;
  disk : nat -> io_site -> option string
}.

Definition env_at (h : Host) (i : nat) : Env :=
  {| cfg := config h;
     backend := llm_backend h;
     engine := recognizer h;
     now := clock h i;
     perf_counter := timer h i;
     io_error := disk h i |}.

(** [for item in files: processor.process(item, ...)]: the value
    [process] returns is dropped, an exception ends the loop. *)
Fixpoint process_each (h : Host) (raw_only clean_only : bool) (i : nat)
  (files : list Path.t) (processor : AudioProcessor) (w : World)
  : outcome unit * AudioProcessor * World :=
  match files with
  | [] => (Done tt, processor, w)
  | item :: rest =>
      match run_process (env_at h i) processor w item raw_only clean_only with
      | (Ok _, processor', w') =>
          process_each h raw_only clean_only (S i) rest processor' w'
      | (Raise e, processor', w') => (Raised e, processor', w')
      end
  end.

Section Main.

(** [Path.exists] and [Path(target).expanduser()]. *)
Variable path_exists : World -> Path.t -> bool.
Variable expanduser : string -> Path.t.

Definition main (h : Host) (argv : list string) (w : World)
  : outcome unit * World :=
  match validate (config h) (path_exists w (vault_path (config h))) with
  | Raise e => (Raised e, w)
  | Ok _ =>
      let processor := Pipeline.init (config h) in
      match _parse_args argv with
      | Exit code => (Exit code, w)
      | Raised e => (Raised e, w)
      | Done (target, raw_only, clean_only) =>
          if String.eqb target "--all"
          then
            match _iter_audio_files (config h) w with
            | [] => (Done tt, w)
            | listed =>
                let '(r, _, w') :=
                  process_each h raw_only clean_only 0 listed processor w in
                (r, w')
            end
          else
            let audio_path := expanduser target in
            if negb (path_exists w audio_path)
            then (Exit 1, w)
            else
              match run_process (env_at h 0) processor w audio_path
                      raw_only clean_only with
              | (Ok _, _, w') => (Done tt, w')
              | (Raise e, _, w') => (Raised e, w')
              end
      end
  end.

End Main.

End Manual.

(* ================================================================== *)
(** * watch.py *)
(* ================================================================== *)

Module Watch.
Import Str Pipeline ConfigOps.

(** A filesystem event, with [Path(event.src_path)] for its path. *)
Record FileSystemEvent : Type := {
  is_directory : bool;
  src_path : Path.t
}.

(** The handler object; [processing] is a set of paths, kept as a list
    without repetitions. *)
Record AudioFileHandler : Type := {
  processor : AudioProcessor;
  processing : list Path.t
}.

Definition init (c : Config) : AudioFileHandler :=
  {| processor := Pipeline.init c; processing := [] |}.

(** [s.add(p)] *)
Definition add (p : Path.t) (s : list Path.t) : list Path.t :=
  if path_mem p s then s else (s ++ [p])%list.

(** [s.discard(p)] *)
Definition discard (p : Path.t) (s : list Path.t) : list Path.t :=
  filter (fun q => negb (path_eqb p q)) s.

(** [on_created]; the pause before processing is not part of the state. *)
Definition on_created (env : Env) (event : FileSystemEvent)
  (self : AudioFileHandler) (w : World)
  : result unit * AudioFileHandler * World :=
  if is_directory event then (Ok tt, self, w)
  else
    let path := src_path event in
    if negb (watched path) then (Ok tt, self, w)
    else if path_mem path (processing self) then (Ok tt, self, w)
    else
      let marked := add path (processing self) in
      match run_process env (processor self) w path false false with
      | (Ok _, p', w') =>
          (Ok tt, {| processor := p'; processing := discard path marked |}, w')
      | (Raise e, p', w') =>
          (Raise e, {| processor := p'; processing := marked |}, w')
      end.

End Watch.

(* ================================================================== *)
(** * Vocabulary of the properties *)
(* ================================================================== *)
(** ** Vocabulary of the redaction round trip *)

Module Redaction.
Import Str Anonymization.

(** A text cut into plain characters and occurrences of table entries. *)
Inductive token : Type :=
| Chr (c : ascii)
| Term (original placeholder : string).

(** [p] is one of the placeholders in force. *)
Definition active (K : list string) (p : string) : bool :=
  existsb (String.eqb p) K.

(** The text of a token list when the entries with a placeholder in [K]
    are redacted and the others are not. *)
Fixpoint render (K : list string) (toks : list token) : string :=
  match toks with
  | [] => ""
  | Chr c :: rest => String c (render K rest)
  | Term o p :: rest => (if active K p then p else o) ++ render K rest
  end.

(** [q] and [x] agree as far as both go. *)
Fixpoint agree (eqc : ascii -> ascii -> bool) (q x : string) : bool :=
  match q, x with
  | String a q', String b x' => eqc a b && agree eqc q' x'
  | _, _ => true
  end.

Definition nonempty (s : string) : bool :=
  match s with "" => false | _ => true end.

(** [q] can match at no position of [w], whatever follows [w]. *)
Definition no_start_in (eqc : ascii -> ascii -> bool) (q w : string) : bool :=
  forallb (fun x => negb (nonempty x && agree eqc q x)) (tails w).

(** The same for the positions after the first. *)
Definition no_start_inside (eqc : ascii -> ascii -> bool) (q w : string) : bool :=
  match w with
  | "" => true
  | String _ w' => no_start_in eqc q w'
  end.

(** No character of [q] matches [h]. *)
Fixpoint avoids (eqc : ascii -> ascii -> bool) (q : string) (h : ascii) : bool :=
  match q with
  | "" => true
  | String a q' => negb (eqc a h) && avoids eqc q' h
  end.

Definition head_avoided (eqc : ascii -> ascii -> bool) (q p : string) : bool :=
  match p with
  | "" => true
  | String h _ => avoids eqc q h
  end.

Definition tail (s : string) : string :=
  match s with "" => "" | String _ s' => s' end.

Fixpoint distinct (l : list string) : bool :=
  match l with
  | [] => true
  | x :: r => negb (existsb (String.eqb x) r) && distinct r
  end.

(** What the round trip needs of a redaction table: terms and
    placeholders are non-empty, placeholders are pairwise distinct, no
    term can match across or inside a placeholder or overlap another
    term, and no placeholder can match across a term or another
    placeholder. *)
Definition separated (e e' : string * string) : bool :=
  let '(o, p) := e in
  let '(o', p') := e' in
  no_start_in ci_eq o p'
  && head_avoided ci_eq o p'
  && head_avoided Ascii.eqb (tail p) p'
  && no_start_in Ascii.eqb p o'
  && (String.eqb p p'
      || (no_start_inside Ascii.eqb o o'
          && negb (agree ci_eq o o')
          && no_start_in Ascii.eqb p p')).

Definition table_ok (tbl : list (string * string)) : bool :=
  forallb (fun e => nonempty (fst e) && nonempty (snd e)) tbl
  && distinct (map snd tbl)
  && forallb (fun e => forallb (separated e) tbl) tbl.

(** Every case-insensitive occurrence of a term of the table in [text]
    is spelled as in the table. *)
Definition canonical_case (tbl : list (string * string)) (text : string) : bool :=
  forallb (fun suf =>
             forallb (fun e => implb (match_ci (fst e) suf) (startswith (fst e) suf))
               tbl)
    (tails text).

(** No placeholder of the table occurs in [text]. *)
Definition placeholder_free (tbl : list (string * string)) (text : string) : bool :=
  forallb (fun e => negb (contains (snd e) text)) tbl.

(** The token lists that cut a text at the occurrences of the terms of
    [tbl]: a plain character never starts a term. *)
Fixpoint valid (tbl : list (string * string)) (toks : list token) : Prop :=
  match toks with
  | [] => True
  | Chr c :: rest =>
      (forall o p, In (o, p) tbl ->
                   startswith o (String c (render [] rest)) = false)
      /\ valid tbl rest
  | Term o p :: rest => In (o, p) tbl /\ valid tbl rest
  end.

Definition Exact (tbl : list (string * string)) (s : string) : Prop :=
  forall x1 x2 o p, s = x1 ++ x2 -> In (o, p) tbl ->
    match_ci o x2 = true -> startswith o x2 = true.

Definition NoPlaceholder (tbl : list (string * string)) (s : string) : Prop :=
  forall x1 x2 o p, s = x1 ++ x2 -> In (o, p) tbl -> startswith p x2 = false.

(** A reverse map with distinct placeholders, all taken from [tbl]. *)
Definition good (tbl : list (string * string)) (rmap : Dict.dict string) : Prop :=
  NoDup (Dict.keys rmap) /\ forall p o, In (p, o) rmap -> In (o, p) tbl.

End Redaction.

(** ** Vocabulary of the retry and routing properties *)

Module LlmSpec.
Import Str Llm.

(** The backend fails on a request: a network or HTTP error, or a body
    whose content is empty once trimmed. *)
Definition backend_fails (o : post_outcome) : bool :=
  match o with
  | PostRaises _ => true
  | PostJson p =>
      match extract_content p with
      | Ok "" => true
      | _ => false
      end
  end.

(** The backend answers a request with the non-empty trimmed content [c]. *)
Definition backend_returns (o : post_outcome) (c : string) : Prop :=
  exists p, o = PostJson p /\ extract_content p = Ok c /\ c <> "".

(** The phrase set, in the order of the specification. *)
Definition spec_phrases : list string :=
  [ "break down"; "step by step"; "depends on"; "blocked by"; "sequence";
    "plan"; "what should i do"; "what's the best way" ].

(** [p] occurs in [s]. *)
Definition occurs_in (p s : string) : Prop :=
  exists a b, s = a ++ p ++ b.

(** The number of maximal runs of non-whitespace characters; [in_word]
    says that the previous character belongs to a word. *)
Fixpoint word_count_from (in_word : bool) (s : string) : nat :=
  match s with
  | "" => 0
  | String c s' =>
      if isspace c then word_count_from false s'
      else (if in_word then 0 else 1) + word_count_from true s'
  end.

Definition word_count (s : string) : nat := word_count_from false s.

Definition has_credential (self : LLMProcessor) : bool :=
  match anthropic_client self with Some _ => true | None => false end.

End LlmSpec.

(** ** Vocabulary of the session id *)

Module SessionSpec.
Import Str Pipeline.

(** The maximal runs of [s], each tagged with whether its characters are
    in [[a-zA-Z0-9._-]]. *)
Fixpoint runs (s : string) : list (bool * string) :=
  match s with
  | "" => []
  | String c s' =>
      match runs s' with
      | (ok, r) :: rest =>
          if Bool.eqb ok (allowed c) then (ok, String c r) :: rest
          else (allowed c, String c "") :: (ok, r) :: rest
      | [] => [(allowed c, String c "")]
      end
  end.

Fixpoint flat (l : list string) : string :=
  match l with
  | [] => ""
  | x :: rest => x ++ flat rest
  end.

(** The text of a list of runs, each run of other characters painted as
    a single dash. *)
Definition paint (rs : list (bool * string)) : string :=
  flat (map (fun run : bool * string => if fst run then snd run else "-") rs).

(** Every run of other characters becomes a single dash. *)
Definition collapse (s : string) : string := paint (runs s).

(** The runs still to paint when a run of other characters is open. *)
Definition drop_leading_bad (rs : list (bool * string)) : list (bool * string) :=
  match rs with
  | (false, _) :: rest => rest
  | _ => rs
  end.

(** The sanitized stem: collapsed, stripped of leading and trailing
    dashes, lowercased, and ["audio"] when nothing is left. *)
Definition session_token (stem : string) : string :=
  match lower (strip_chars "-" (collapse stem)) with
  | "" => "audio"
  | t => t
  end.

Definition token_char (c : ascii) : bool :=
  let n := code c in
  ((97 <=? n) && (n <=? 122)) || ((48 <=? n) && (n <=? 57)) || mem_char c "._-".

Fixpoint all_chars (f : ascii -> bool) (s : string) : bool :=
  match s with
  | "" => true
  | String c s' => f c && all_chars f s'
  end.

Definition first_char (s : string) : option ascii :=
  match s with "" => None | String c _ => Some c end.

Definition last_char (s : string) : option ascii := first_char (rev s).

(** Two readings of the clock within the same second. *)
Definition same_second (t t' : datetime) : Prop :=
  year t = year t' /\ month t = month t' /\ day t = day t'
  /\ hour t = hour t' /\ minute t = minute t' /\ second t = second t'.

End SessionSpec.

(** ** Vocabulary of the pipeline properties *)

Module PipelineSpec.
Import Str Pipeline.

(** The part of a capture block before its Tasks section. *)
Definition capture_head (timestamp name transcription_method breakdown_model
  raw_text clean_text : string) : string :=
  nl ++ "## " ++ timestamp ++ nl
  ++ "**Audio:** [[" ++ name ++ "]]" ++ nl
  ++ "**Transcription:** " ++ transcription_method
  ++ " | **Breakdown:** " ++ breakdown_model ++ nl ++ nl
  ++ "**Raw Transcription:**" ++ nl
  ++ "> " ++ raw_text ++ nl ++ nl
  ++ "**Cleaned:**" ++ nl
  ++ clean_text ++ nl ++ nl.

(** The Tasks section that ends a capture block. *)
Definition tasks_section (breakdown : string) : string :=
  "**Tasks:**" ++ nl ++ breakdown ++ nl ++ nl ++ "---" ++ nl.

(** [k in r["durations_sec"]] *)
Definition records_duration (r : record) (k : string) : bool :=
  match Dict.get r "durations_sec" with
  | Some (VDict d) => Dict.mem d k
  | _ => false
  end.

End PipelineSpec.

(** ** Vocabulary of the report properties *)

Module ReportSpec.

(** [r] is not a division by zero. *)
Definition no_zero_division {A : Type} (r : result A) : Prop :=
  forall msg, r <> Raise (ZeroDivisionError msg).

End ReportSpec.

(** ** Vocabulary of the privacy properties *)

Module Privacy.
Import Str Anonymization.

(** No term of the table occurs in [s], in any casing. *)
Definition term_free (tbl : list (string * string)) (s : string) : bool :=
  forallb (fun e => negb (search_ci (fst e) s)) tbl.

(** [s] has no whitespace at either end: [s.strip() == s]. *)
Definition trimmed (s : string) : Prop := strip s = s.

(** [s] consists of whitespace only (or is empty). *)
Definition blank (s : string) : bool := SessionSpec.all_chars isspace s.

End Privacy.

(** ** Vocabulary of the log properties *)

Module LogSpec.
Import Pipeline.

(** Every value of a durations dict is a number of seconds. *)
Definition seconds_only (d : record) : bool :=
  forallb (fun kv => match snd kv with VSeconds _ => true | _ => false end) d.

(** A record the report can read: its durations are a dict of numbers and
    its compression ratio, if it has one, is a number. *)
Definition readable (r : record) : bool :=
  match Dict.get r "durations_sec" with
  | Some (VDict d) => seconds_only d
  | _ => false
  end
  && match Dict.get r "compression_ratio" with
     | None | Some (VRatio _) => true
     | Some _ => false
     end.

(** The content of a file the pipeline has written, if there is one. *)
Definition read_file (w : World) (p : Path.t) : option file_content :=
  match find (fun f => path_eqb p (fst f)) (files w) with
  | Some f => Some (snd f)
  | None => None
  end.

(** The two places [_archive_audio] chooses from. *)
Definition archive_plain (c : Config) (audio_path : Path.t) : Path.t :=
  Path.div (Cfg.processed_dir c) (Path.name audio_path).

Definition archive_stamped (c : Config) (audio_path : Path.t) (t : datetime)
  : Path.t :=
  Path.div (Cfg.processed_dir c)
    (Path.stem audio_path ++ "-" ++ stamp_seconds t ++ Path.suffix audio_path).

End LogSpec.

(** ** Vocabulary of the batch properties *)

Module ManualSpec.
Import Manual.

(** No path of the list is below the one before it. *)
Fixpoint ascending (l : list Path.t) : bool :=
  match l with
  | a :: (b :: _) as rest => negb (path_ltb b a) && ascending rest
  | _ => true
  end.

End ManualSpec.

(** ** Concrete inputs used in the examples *)

Module Examples.
Import Str Llm.

Definition cfg_two_retries : Config :=
  {| vault_path := [""; "vault"];
     ANTHROPIC_API_KEY := None;
     LOCAL_LLM_RETRIES := 2;
     USE_CLAUDE_FOR_COMPLEX := true;
     ANONYMIZE_FOR_CLAUDE := true |}.

Definition cfg_with_key : Config :=
  {| vault_path := [""; "vault"];
     ANTHROPIC_API_KEY := Some "sk-test";
     LOCAL_LLM_RETRIES := 2;
     USE_CLAUDE_FOR_COMPLEX := true;
     ANONYMIZE_FOR_CLAUDE := true |}.

Definition reply (s : string) : post_outcome :=
  PostJson
    {| choices := Present [ {| message := Present {| content := Present s |} |} ] |}.

(** Fails twice, then answers. *)
Definition backend_fail_fail_ok : Backend :=
  {| probe := fun _ => None;
     completion := fun n =>
       match n with
       | 0 => PostRaises "connection refused"
       | 1 => reply "   "
       | _ => reply " done "
       end;
     remote := fun _ => inl (OtherError "unused") |}.

(** Fails on every request. *)
Definition backend_always_fails : Backend :=
  {| probe := fun _ => None;
     completion := fun n =>
       match n with
       | 0 => PostRaises "connection refused"
       | 1 => reply "   "
       | _ => PostRaises "read timed out"
       end;
     remote := fun _ => inl (OtherError "unused") |}.

End Examples.

Module PipelineExamples.
Import Str Pipeline Examples.

Definition engine_hello : Transcription.Engine :=
  {| Transcription.load := None;
     Transcription.run := fun _ => inr [" hello "; "world  "] |}.

(** Answers every request. *)
Definition backend_ok : Llm.Backend :=
  {| Llm.probe := fun _ => None;
     Llm.completion := fun n =>
       match n with
       | 0 => reply " cleaned text "
       | _ => reply "- [ ] do it (~5m) #quick"
       end;
     Llm.remote := fun _ => inl (OtherError "unused") |}.

(** Refuses the reachability probe with an exception that carries no
    text. *)
Definition backend_mute : Llm.Backend :=
  {| Llm.probe := fun _ => Some "";
     Llm.completion := fun _ => Llm.PostRaises "";
     Llm.remote := fun _ => inl (OtherError "unused") |}.

(** Unreachable. *)
Definition backend_down : Llm.Backend :=
  {| Llm.probe := fun _ => Some "connection refused";
     Llm.completion := fun _ => Llm.PostRaises "connection refused";
     Llm.remote := fun _ => inl (OtherError "unused") |}.

Definition morning : datetime :=
  {| year := 2024; month := 3; day := 7;
     hour := 9; minute := 5; second := 1; microsecond := 12 |}.

Definition later_that_second : datetime :=
  {| year := 2024; month := 3; day := 7;
     hour := 9; minute := 5; second := 1; microsecond := 4000 |}.

Definition env_of (be : Llm.Backend) (io : io_site -> option string) : Env :=
  {| cfg := cfg_two_retries;
     backend := be;
     engine := engine_hello;
     now := fun _ => morning;
     perf_counter := fun site =>
       match site with
       | PcStart => 0
       | PcTranscribed => 1500
       | _ => 2000
       end%Z;
     io_error := io |}.

Definition no_io_error : io_site -> option string := fun _ => None.

(** Only the append to the monthly event log fails. *)
Definition event_log_fails : io_site -> option string :=
  fun site =>
    match site with
    | AppendEvent => Some "No space left on device"
    | _ => None
    end.

(** Only the append to the metrics log in the failure handler fails. *)
Definition failure_record_fails : io_site -> option string :=
  fun site =>
    match site with
    | AppendMetricsOnFailure => Some "No space left on device"
    | _ => None
    end.

Definition memo : Path.t := [""; "vault"; "audio"; "My Memo (1).m4a"].

Definition inbox : World :=
  {| dirs := []; files := []; capture_log := []; metrics_log := [];
     event_log := []; audio_store := [memo] |}.

Definition status_of (r : record) : option value := Dict.get r "status".

(** A processor that has not been used yet. *)
Definition fresh : AudioProcessor := init cfg_two_retries.

End PipelineExamples.

Module ClientExamples.
Import Str Llm Examples.

(** Answers the first request with an empty list of choices. *)
Definition backend_malformed : Backend :=
  {| probe := fun _ => None;
     completion := fun n =>
       match n with
       | 0 => PostJson {| choices := Present [] |}
       | _ => reply "never asked"
       end;
     remote := fun _ => inl (OtherError "unused") |}.

(** A remote backend that answers in two text blocks around an empty one. *)
Definition backend_remote : Backend :=
  {| probe := fun _ => None;
     completion := fun _ => reply "- [ ] local";
     remote := fun _ => inr [Some "- [ ] ask [COMPANY_B]"; None; Some ""; Some "- [ ] done "] |}.

Definition cfg_local_only : Config :=
  {| vault_path := [""; "vault"];
     ANTHROPIC_API_KEY := Some "sk-test";
     LOCAL_LLM_RETRIES := 0;
     USE_CLAUDE_FOR_COMPLEX := false;
     ANONYMIZE_FOR_CLAUDE := true |}.

End ClientExamples.

Module TranscriptionExamples.

(** Hears nothing. *)
Definition engine_silence : Transcription.Engine :=
  {| Transcription.load := None;
     Transcription.run := fun _ => inr ["  "; ""] |}.

End TranscriptionExamples.

Module CoverageExamples.
Import Str Pipeline Examples PipelineExamples.

(** Cleans up to a note that asks for a plan and names a company; the
    remote backend answers with the placeholder. *)
Definition backend_chatty : Llm.Backend :=
  {| Llm.probe := fun _ => None;
     Llm.completion := fun _ => reply "Plan the GOOGLE launch";
     Llm.remote := fun _ => inr [Some "- [ ] call [COMPANY_B]"] |}.

Definition env_remote : Env :=
  {| cfg := cfg_with_key;
     backend := backend_chatty;
     engine := engine_hello;
     now := fun _ => morning;
     perf_counter := fun _ => 0%Z;
     io_error := no_io_error |}.

Definition fresh_with_key : AudioProcessor := init cfg_with_key.

(** Only the creation of the session directory fails. *)
Definition mkdir_fails : io_site -> option string :=
  fun site =>
    match site with
    | MkdirSession => Some "Permission denied"
    | _ => None
    end.

Definition archived_memo : Path.t :=
  [""; "vault"; "audio"; "processed"; "My Memo (1).m4a"].


Definition second_memo : Path.t := [""; "vault"; "audio"; "Another.MP3"].

Definition notes : Path.t := [""; "vault"; "audio"; "notes.txt"].

(** Two memos and a text file in the inbox, an archived memo below it. *)
Definition two_memos : World :=
  {| dirs := []; files := []; capture_log := []; metrics_log := [];
     event_log := []; audio_store := [memo; notes; archived_memo; second_memo] |}.

(** A machine whose language model is down and whose disk works. *)
Definition host_down : Manual.Host :=
  {| Manual.config := cfg_two_retries;
     Manual.llm_backend := backend_down;
     Manual.recognizer := engine_hello;
     Manual.clock := fun _ _ => morning;
     Manual.timer := fun _ _ => 0%Z;
     Manual.disk := fun _ => no_io_error |}.

Definition memo_created : Watch.FileSystemEvent :=
  {| Watch.is_directory := false; Watch.src_path := memo |}.

(** A log of one successful raw-only run and one failed run. *)
Definition two_rows : list record :=
  [ [("status", VStr "success"); ("raw_only", VBool true);
     ("durations_sec", VDict [("total", VSeconds 1500)])];
    [("status", VStr "failed"); ("raw_only", VBool false);
     ("durations_sec", VDict [("total", VSeconds 300)])] ].

End CoverageExamples.

(* ################################################################## *)
(** * Properties *)
(* ################################################################## *)

(* ================================================================== *)
(** * Facts about strings *)
(* ================================================================== *)

Module StrFacts.
Import Str.

Lemma app_nil_r (s : string) : s ++ "" = s.
Proof. induction s; simpl; congruence. Qed.

Lemma app_assoc (a b c : string) : (a ++ b) ++ c = a ++ (b ++ c).
Proof. induction a; simpl; congruence. Qed.

Lemma length_app (a b : string) :
  String.length (a ++ b) = String.length a + String.length b.
Proof. induction a; simpl; congruence. Qed.

Lemma In_tails (x1 x2 : string) : In x2 (tails (x1 ++ x2)).
Proof.
  induction x1; simpl.
  - destruct x2; simpl; auto.
  - right. exact IHx1.
Qed.

Lemma tails_split (s x : string) : In x (tails s) -> exists x1, s = x1 ++ x.
Proof.
  induction s; simpl.
  - intros [<- | []]. now exists "".
  - intros [<- | H].
    + now exists "".
    + destruct (IHs H) as [x1 ->]. now exists (String a x1).
Qed.

Lemma prefix_by_self_app (eqc : ascii -> ascii -> bool) (p y : string) :
  (forall a, eqc a a = true) -> prefix_by eqc p (p ++ y) = true.
Proof. intros R. induction p; simpl; [reflexivity|]. now rewrite R. Qed.

Lemma startswith_split (o s : string) :
  startswith o s = true -> exists rest, s = o ++ rest.
Proof.
  unfold startswith. revert s. induction o as [|a o IH]; intros s; simpl.
  - now exists s.
  - destruct s as [|b s]; [discriminate|].
    intros H. apply andb_true_iff in H as [E H].
    apply Ascii.eqb_eq in E as ->. destruct (IH s H) as [rest ->].
    now exists rest.
Qed.

Lemma startswith_app (p b : string) : startswith p (p ++ b) = true.
Proof. apply prefix_by_self_app, Ascii.eqb_refl. Qed.

End StrFacts.

(* ================================================================== *)
(** * The redaction round trip *)
(* ================================================================== *)

Module RedactionFacts.
Import Str Anonymization Redaction.

Import StrFacts.

Section Matching.
Variable eqc : ascii -> ascii -> bool.

Lemma prefix_by_agree (q x y : string) :
  prefix_by eqc q (x ++ y) = true -> agree eqc q x = true.
Proof.
  revert x. induction q as [|a q IH]; intros [|b x]; simpl; auto.
  intros H. apply andb_true_iff in H as [-> H]. simpl. eauto.
Qed.

Lemma prefix_by_stop (q x : string) (h : ascii) (z z' : string) :
  prefix_by eqc q (x ++ String h z) = true ->
  avoids eqc q h = true ->
  prefix_by eqc q (x ++ z') = true.
Proof.
  revert q. induction x as [|b x IH]; intros [|a q]; simpl; auto.
  - intros H1 H2. apply andb_true_iff in H1 as [E _].
    rewrite E in H2. discriminate.
  - intros H1 H2. apply andb_true_iff in H1 as [-> H1].
    apply andb_true_iff in H2 as [_ H2]. simpl. eauto.
Qed.

Variables p r : string.

Lemma replace_go_skip (x y : string) :
  replace_go eqc p r (String.length x) (x ++ y) = replace_go eqc p r 0 y.
Proof. induction x; simpl; auto. Qed.

Lemma replace_go_hit (x y : string) :
  String.length x = String.length p ->
  nonempty p = true ->
  prefix_by eqc p (x ++ y) = true ->
  replace_go eqc p r 0 (x ++ y) = r ++ replace_go eqc p r 0 y.
Proof.
  intros L N H. destruct x as [|c x].
  - destruct p; simpl in *; discriminate.
  - change (String c x ++ y) with (String c (x ++ y)) in *.
    cbn [replace_go]. rewrite H. f_equal.
    simpl in L. rewrite <- L. simpl. rewrite Nat.sub_0_r.
    apply replace_go_skip.
Qed.

Lemma replace_go_pass (x y : string) :
  (forall x1 x2, x = x1 ++ x2 -> nonempty x2 = true ->
                 prefix_by eqc p (x2 ++ y) = false) ->
  replace_go eqc p r 0 (x ++ y) = x ++ replace_go eqc p r 0 y.
Proof.
  induction x as [|c x IH]; intros H; [reflexivity|].
  change (String c x ++ y) with (String c (x ++ y)).
  cbn [replace_go].
  pose proof (H "" (String c x) eq_refl eq_refl) as H0.
  change (String c x ++ y) with (String c (x ++ y)) in H0.
  rewrite H0. change (String c x ++ replace_go eqc p r 0 y)
    with (String c (x ++ replace_go eqc p r 0 y)). f_equal.
  apply IH. intros x1 x2 -> N. apply (H (String c x1) x2); auto.
Qed.

Lemma no_start_in_pass (w y : string) :
  no_start_in eqc p w = true ->
  replace_go eqc p r 0 (w ++ y) = w ++ replace_go eqc p r 0 y.
Proof.
  intros H. apply replace_go_pass. intros x1 x2 -> N.
  unfold no_start_in in H. rewrite forallb_forall in H.
  specialize (H x2 (In_tails x1 x2)). rewrite N in H. simpl in H.
  destruct (prefix_by eqc p (x2 ++ y)) eqn:E; [|reflexivity].
  apply prefix_by_agree in E. rewrite E in H. discriminate.
Qed.

End Matching.

Lemma ci_eq_refl (a : ascii) : ci_eq a a = true.
Proof. apply Ascii.eqb_refl. Qed.

Lemma active_app (K : list string) (p p' : string) :
  active (K ++ [p]) p' = active K p' || String.eqb p' p.
Proof. unfold active. rewrite existsb_app. simpl. now rewrite orb_false_r. Qed.

Lemma distinct_NoDup (l : list string) : distinct l = true -> NoDup l.
Proof.
  induction l as [|x l IH]; simpl; [constructor|].
  intros H. apply andb_true_iff in H as [H1 H2]. constructor; auto.
  intros HIn. apply negb_true_iff in H1.
  assert (existsb (String.eqb x) l = true) as E.
  { apply existsb_exists. exists x. split; auto. apply String.eqb_refl. }
  congruence.
Qed.

Lemma active_In (K : list string) (p : string) :
  active K p = true <-> In p K.
Proof.
  unfold active. rewrite existsb_exists. split.
  - intros (x & Hx & E). apply String.eqb_eq in E. now subst.
  - intros H. exists p. split; auto. apply String.eqb_refl.
Qed.

Lemma active_false (K : list string) (p : string) :
  active K p = false <-> ~ In p K.
Proof.
  rewrite <- active_In. destruct (active K p); split; congruence.
Qed.

Lemma NoDup_snd_functional (l : list (string * string)) :
  NoDup (map snd l) ->
  forall o o' p, In (o, p) l -> In (o', p) l -> o = o'.
Proof.
  induction l as [|[a b] l IH]; simpl; [tauto|].
  intros N o o' p H1 H2. inversion N as [|? ? N1 N2]; subst.
  destruct H1 as [H1 | H1], H2 as [H2 | H2].
  - congruence.
  - inversion H1; subst. exfalso. apply N1.
    change p with (snd (o', p)). now apply in_map.
  - inversion H2; subst. exfalso. apply N1.
    change p with (snd (o, p)). now apply in_map.
  - eauto.
Qed.

Lemma dict_set_fresh (rmap : Dict.dict string) (p o : string) :
  active (Dict.keys rmap) p = false ->
  Dict.set rmap p o = (rmap ++ [(p, o)])%list.
Proof.
  induction rmap as [|[k v] rmap IH]; simpl; [reflexivity|].
  intros H. apply orb_false_iff in H as [H1 H2].
  rewrite String.eqb_sym in H1. rewrite H1. now rewrite IH.
Qed.

Lemma keys_snoc (rmap : Dict.dict string) (p o : string) :
  Dict.keys (rmap ++ [(p, o)])%list = (Dict.keys rmap ++ [p])%list.
Proof. unfold Dict.keys. now rewrite map_app. Qed.

Lemma NoDup_app_one (l : list string) (x : string) :
  NoDup l -> ~ In x l -> NoDup (l ++ [x]).
Proof.
  induction l as [|a l IH]; simpl; intros N H.
  - constructor; auto.
  - inversion N; subst. constructor.
    + rewrite in_app_iff. simpl. intros [?|[?|[]]]; subst; tauto.
    + apply IH; tauto.
Qed.

(** ** The round trip over a separated table *)

Section Table.
Variable tbl : list (string * string).
Hypothesis tbl_ok : table_ok tbl = true.

Lemma tbl_nonempty (o p : string) :
  In (o, p) tbl -> nonempty o = true /\ nonempty p = true.
Proof.
  intros H. unfold table_ok in tbl_ok.
  apply andb_true_iff in tbl_ok as [T _]. apply andb_true_iff in T as [T _].
  rewrite forallb_forall in T. specialize (T _ H). simpl in T.
  now apply andb_true_iff in T.
Qed.

Lemma tbl_placeholders : NoDup (map snd tbl).
Proof.
  unfold table_ok in tbl_ok.
  apply andb_true_iff in tbl_ok as [T _]. apply andb_true_iff in T as [_ T].
  now apply distinct_NoDup.
Qed.

Lemma tbl_functional (o o' p : string) :
  In (o, p) tbl -> In (o', p) tbl -> o = o'.
Proof. apply NoDup_snd_functional, tbl_placeholders. Qed.

Lemma tbl_separated (e e' : string * string) :
  In e tbl -> In e' tbl -> separated e e' = true.
Proof.
  intros H H'. unfold table_ok in tbl_ok.
  apply andb_true_iff in tbl_ok as [_ T].
  rewrite forallb_forall in T. specialize (T _ H).
  rewrite forallb_forall in T. exact (T _ H').
Qed.

Local Abbreviation valid := (Redaction.valid tbl).
Local Abbreviation Exact := (Redaction.Exact tbl).
Local Abbreviation NoPlaceholder := (Redaction.NoPlaceholder tbl).
Local Abbreviation good := (Redaction.good tbl).

Lemma Exact_suffix (x s : string) : Exact (x ++ s) -> Exact s.
Proof.
  intros H x1 x2 o p -> HIn. apply (H (x ++ x1) x2 o p); auto.
  now rewrite app_assoc.
Qed.

Lemma NoPlaceholder_suffix (x s : string) :
  NoPlaceholder (x ++ s) -> NoPlaceholder s.
Proof.
  intros H x1 x2 o p -> HIn. apply (H (x ++ x1) x2 o p); auto.
  now rewrite app_assoc.
Qed.

Lemma canonical_case_Exact (text : string) :
  canonical_case tbl text = true -> Exact text.
Proof.
  intros H x1 x2 o p -> HIn Hm. unfold canonical_case in H.
  rewrite forallb_forall in H. specialize (H _ (In_tails x1 x2)).
  rewrite forallb_forall in H. specialize (H _ HIn). simpl in H.
  rewrite Hm in H. exact H.
Qed.

Lemma placeholder_free_NoPlaceholder (text : string) :
  placeholder_free tbl text = true -> NoPlaceholder text.
Proof.
  intros H x1 x2 o p -> HIn. unfold placeholder_free in H.
  rewrite forallb_forall in H. specialize (H _ HIn). simpl in H.
  apply negb_true_iff in H. unfold contains in H.
  destruct (startswith p x2) eqn:E; [|reflexivity].
  assert (existsb (startswith p) (tails (x1 ++ x2)) = true) as C.
  { apply existsb_exists. exists x2. split; auto. apply In_tails. }
  congruence.
Qed.

(** Every text has a valid cut. *)
Lemma tokenize (n : nat) (s : string) :
  String.length s <= n -> exists toks, valid toks /\ render [] toks = s.
Proof.
  revert s. induction n as [|n IH]; intros s L.
  - destruct s; simpl in L; [|lia]. now exists [].
  - destruct s as [|c s]; [now exists []|].
    destruct (find (fun e => startswith (fst e) (String c s)) tbl) as [[o p]|] eqn:F.
    + apply find_some in F as [HIn Hs]. simpl in Hs.
      destruct (startswith_split _ _ Hs) as [rest E].
      destruct (tbl_nonempty _ _ HIn) as [No _].
      destruct (IH rest) as (toks & V & R).
      { assert (String.length (String c s) = String.length o + String.length rest) as EL
          by (rewrite E; apply length_app).
        destruct o; [discriminate|]. simpl in *. lia. }
      exists (Term o p :: toks). split; [now split|].
      simpl. now rewrite R.
    + destruct (IH s) as (toks & V & R); [simpl in L; lia|].
      exists (Chr c :: toks). split.
      * split; auto. intros o p HIn. rewrite R.
        exact (find_none _ _ F _ HIn).
      * simpl. now rewrite R.
Qed.

Section Lookahead.
Variable eqc : ascii -> ascii -> bool.
Variable K : list string.

(** A match that meets no placeholder head reads the same text whether
    or not the entries after its start are redacted. *)
Lemma lookahead (q : string) (toks : list token) :
  (forall o p, In (o, p) tbl -> head_avoided eqc q p = true) ->
  valid toks ->
  forall x, prefix_by eqc q (x ++ render K toks) = true ->
            prefix_by eqc q (x ++ render [] toks) = true.
Proof.
  intros A. induction toks as [|[c | o p] rest IH]; intros V x H; auto.
  - simpl in *. destruct V as [_ V].
    change (String c (render [] rest)) with (String c "" ++ render [] rest).
    change (String c (render K rest)) with (String c "" ++ render K rest) in H.
    rewrite <- app_assoc in *. now apply IH.
  - simpl in *. destruct V as [HIn V].
    destruct (active K p) eqn:Ep.
    + destruct (tbl_nonempty _ _ HIn) as [_ Np].
      destruct p as [|h p']; [discriminate|].
      apply (prefix_by_stop eqc q x h (p' ++ render K rest)); auto.
      exact (A _ _ HIn).
    + rewrite <- app_assoc in *. now apply IH.
Qed.

End Lookahead.

(** One substitution of [anonymize] redacts the entry it is run for. *)
Lemma sub_ci_render (o p : string) (K : list string) :
  In (o, p) tbl -> active K p = false ->
  forall toks, valid toks -> Exact (render [] toks) ->
    sub_ci o p (render K toks) = render (K ++ [p]) toks.
Proof.
  intros HIn HK. unfold sub_ci.
  destruct (tbl_nonempty _ _ HIn) as [No Np].
  assert (forall o' p', In (o', p') tbl -> head_avoided ci_eq o p' = true) as Av.
  { intros o' p' H'. pose proof (tbl_separated _ _ HIn H') as S. simpl in S.
    repeat (apply andb_true_iff in S as [S ?]). assumption. }
  induction toks as [|[c | o' p'] rest IH]; intros V Ex; [reflexivity| |].
  - simpl in *. destruct V as [Vc V].
    destruct (prefix_by ci_eq o (String c (render K rest))) eqn:E.
    + exfalso.
      pose proof (lookahead ci_eq K o rest Av V (String c "") E) as E'.
      simpl in E'.
      pose proof (Ex "" _ o p eq_refl HIn E') as E''.
      rewrite (Vc _ _ HIn) in E''. discriminate.
    + destruct o; [discriminate|]. f_equal. apply IH; auto.
      apply (Exact_suffix (String c "")). exact Ex.
  - simpl in *. destruct V as [HIn' V].
    assert (Exact (render [] rest)) as Ex' by (eapply Exact_suffix; exact Ex).
    rewrite active_app.
    pose proof (tbl_separated _ _ HIn HIn') as S. simpl in S.
    apply andb_true_iff in S as [S S5].
    apply andb_true_iff in S as [S S4].
    apply andb_true_iff in S as [S S3].
    apply andb_true_iff in S as [S1 S2].
    destruct (String.eqb p' p) eqn:Epp.
    + apply String.eqb_eq in Epp. subst p'.
      rewrite (tbl_functional _ _ _ HIn' HIn) in *.
      rewrite HK. simpl.
      rewrite replace_go_hit; auto using prefix_by_self_app, ci_eq_refl.
      now rewrite IH.
    + rewrite orb_false_r.
      rewrite String.eqb_sym in Epp. rewrite Epp in S5. simpl in S5.
      apply andb_true_iff in S5 as [S5 S7].
      apply andb_true_iff in S5 as [S5 S6].
      destruct (active K p') eqn:EK.
      * rewrite no_start_in_pass; auto. now rewrite IH.
      * rewrite replace_go_pass; [now rewrite IH|].
        intros x1 x2 Eo N.
        destruct (prefix_by ci_eq o (x2 ++ render K rest)) eqn:E; [|reflexivity].
        exfalso. destruct x1 as [|c1 x1].
        -- simpl in Eo. subst x2.
           apply prefix_by_agree in E. rewrite E in S6. discriminate.
        -- pose proof (lookahead ci_eq K o rest Av V x2 E) as E'.
           assert (startswith o (x2 ++ render [] rest) = true) as E''.
           { apply (Ex (String c1 x1) _ o p); auto.
             rewrite Eo. now rewrite app_assoc. }
           apply prefix_by_agree in E''.
           subst o'. simpl in S5. unfold no_start_in in S5.
           rewrite forallb_forall in S5.
           specialize (S5 x2 (In_tails x1 x2)). rewrite N, E'' in S5.
           discriminate.
Qed.

(** One replacement of [deanonymize] restores the entry it is run for. *)
Lemma replace_render (o p : string) (K : list string) :
  In (o, p) tbl -> active K p = false ->
  forall toks, valid toks -> NoPlaceholder (render [] toks) ->
    replace p o (render (p :: K) toks) = render K toks.
Proof.
  intros HIn HK.
  destruct (tbl_nonempty _ _ HIn) as [No Np].
  assert (replace p o = replace_go Ascii.eqb p o 0) as -> by (destruct p; [discriminate|reflexivity]).
  induction toks as [|[c | o' p'] rest IH]; intros V Nph; [reflexivity| |].
  - simpl in *. destruct V as [Vc V].
    destruct (prefix_by Ascii.eqb p (String c (render (p :: K) rest))) eqn:E.
    + exfalso. destruct p as [|h pt]; [discriminate|].
      simpl in E. apply andb_true_iff in E as [Eh E].
      assert (prefix_by Ascii.eqb pt ("" ++ render [] rest) = true) as E'.
      { apply (lookahead Ascii.eqb (String h pt :: K)); auto.
        intros o' p' H'. pose proof (tbl_separated _ _ HIn H') as S. simpl in S.
        repeat (apply andb_true_iff in S as [S ?]). assumption. }
      simpl in E'.
      assert (startswith (String h pt) (String c (render [] rest)) = true) as F.
      { unfold startswith. simpl. now rewrite Eh, E'. }
      rewrite (Nph "" _ o _ eq_refl HIn) in F. discriminate.
    + destruct p; [discriminate|]. f_equal. apply IH; auto.
      apply (NoPlaceholder_suffix (String c "")). exact Nph.
  - simpl in *. destruct V as [HIn' V].
    assert (NoPlaceholder (render [] rest)) as Nph'
      by (eapply NoPlaceholder_suffix; exact Nph).
    pose proof (tbl_separated _ _ HIn HIn') as S. simpl in S.
    apply andb_true_iff in S as [S S5].
    apply andb_true_iff in S as [S S4].
    apply andb_true_iff in S as [S S3].
    apply andb_true_iff in S as [S1 S2].
    destruct (String.eqb p' p) eqn:Epp.
    + apply String.eqb_eq in Epp. subst p'.
      rewrite (tbl_functional _ _ _ HIn' HIn) in *.
      rewrite HK. simpl.
      rewrite replace_go_hit; auto using prefix_by_self_app, Ascii.eqb_refl.
      now rewrite IH.
    + simpl. rewrite String.eqb_sym in Epp. rewrite Epp in S5. simpl in S5.
      apply andb_true_iff in S5 as [S5 S7].
      destruct (active K p') eqn:EK.
      * rewrite no_start_in_pass; auto. now rewrite IH.
      * rewrite no_start_in_pass; auto. now rewrite IH.
Qed.

Lemma anonymize_loop_render (toks : list token) :
  valid toks -> Exact (render [] toks) ->
  forall items rmap,
    incl items tbl -> NoDup (map snd items) -> good rmap ->
    (forall o p, In (o, p) items -> active (Dict.keys rmap) p = false) ->
    exists rmap',
      anonymize_loop items (render (Dict.keys rmap) toks) rmap
      = (render (Dict.keys rmap') toks, rmap')
      /\ good rmap'.
Proof.
  intros V Ex. induction items as [|[o p] items IH]; intros rmap Inc N G F.
  - exists rmap. now split.
  - simpl. inversion N as [|? ? N1 N2]; subst.
    assert (incl items tbl) as Inc' by (intros e He; apply Inc; now right).
    assert (In (o, p) tbl) as HIn by (apply Inc; now left).
    assert (active (Dict.keys rmap) p = false) as Fp by (apply (F o); now left).
    destruct (search_ci o (render (Dict.keys rmap) toks)).
    + rewrite (sub_ci_render o p _ HIn Fp toks V Ex).
      rewrite (dict_set_fresh rmap p o Fp).
      rewrite <- (keys_snoc rmap p o).
      apply IH; auto.
      * destruct G as [G1 G2]. split.
        -- rewrite keys_snoc.
           apply NoDup_app_one; auto. now apply active_false.
        -- intros p' o' H'. apply in_app_or in H' as [H' | [H' | []]]; auto.
           now inversion H'; subst.
      * intros o' p' H'. rewrite keys_snoc, active_app. rewrite (F o' p') by now right. simpl.
        apply String.eqb_neq. intros ->. apply N1.
        change p with (snd (o', p)). now apply in_map.
    + apply IH; auto. intros o' p' H'. apply (F o'). now right.
Qed.

Lemma deanonymize_render (toks : list token) :
  valid toks -> NoPlaceholder (render [] toks) ->
  forall rmap, good rmap ->
    deanonymize (render (Dict.keys rmap) toks) rmap = render [] toks.
Proof.
  intros V Nph. induction rmap as [|[p o] rmap IH]; intros [G1 G2]; [reflexivity|].
  simpl in *. inversion G1 as [|? ? N1 N2]; subst.
  rewrite (replace_render o p (Dict.keys rmap)); auto.
  - apply IH. split; auto.
  - now apply active_false.
Qed.

(** The round trip, for any separated table. *)
Lemma round_trip (text : string) :
  canonical_case tbl text = true ->
  placeholder_free tbl text = true ->
  deanonymize (fst (anonymize_loop tbl text []))
    (snd (anonymize_loop tbl text [])) = text.
Proof.
  intros C P.
  destruct (tokenize (String.length text) text (Nat.le_refl _)) as (toks & V & R).
  pose proof (canonical_case_Exact _ C) as Ex.
  pose proof (placeholder_free_NoPlaceholder _ P) as Nph.
  rewrite <- R in Ex, Nph.
  destruct (anonymize_loop_render toks V Ex tbl []) as (rmap & E & G).
  - apply incl_refl.
  - apply tbl_placeholders.
  - split; [constructor | intros ? ? []].
  - reflexivity.
  - simpl in E. rewrite R in E. rewrite E. simpl.
    rewrite deanonymize_render; auto.
Qed.

End Table.
End RedactionFacts.

Module RedactionTheorems.
Import Str Anonymization Redaction.

(** The table of the source is separated. *)
Lemma ANONYMIZATION_MAP_ok : table_ok ANONYMIZATION_MAP = true.
Proof. vm_compute. reflexivity. Qed.

(** C3, as the code has it.  For every text in which each
    case-insensitive occurrence of a sensitive term is spelled as in the
    table and in which no placeholder occurs, deanonymizing the redacted
    text with the reverse map that [anonymize] returns gives the text
    back. *)
Theorem anonymize_round_trip (text : string) :
  canonical_case ANONYMIZATION_MAP text = true ->
  placeholder_free ANONYMIZATION_MAP text = true ->
  deanonymize (fst (anonymize text)) (snd (anonymize text)) = text.
Proof. apply (RedactionFacts.round_trip _ ANONYMIZATION_MAP_ok). Qed.

(** A text with two terms in the table's spelling. *)
Lemma anonymize_round_trip_witness :
  deanonymize (fst (anonymize "Ask Google, then file it in Obsidian."))
    (snd (anonymize "Ask Google, then file it in Obsidian."))
  = "Ask Google, then file it in Obsidian.".
Proof. apply anonymize_round_trip; vm_compute; reflexivity. Defined.

(** No term of the table is a substring of its placeholder, with or
    without regard to case, and still the round trip turns ["google"]
    into ["Google"]: matching ignores case, restoring does not.  A
    placeholder that the text already holds is replaced as well. *)
Lemma round_trip_loses_case :
  forallb (fun e => negb (contains (fst e) (snd e))
                    && negb (search_ci (fst e) (snd e))) ANONYMIZATION_MAP
  = true
  /\ anonymize "google" = ("[COMPANY_B]", [("[COMPANY_B]", "Google")])
  /\ deanonymize (fst (anonymize "google")) (snd (anonymize "google"))
     <> "google"
  /\ deanonymize (fst (anonymize "[TOOL_A] is Obsidian"))
       (snd (anonymize "[TOOL_A] is Obsidian"))
     = "Obsidian is Obsidian".
Proof.
  split; [reflexivity|]. split; [reflexivity|].
  split; [vm_compute; discriminate | reflexivity].
Qed.

End RedactionTheorems.

(* ================================================================== *)
(** * The local client: retries *)
(* ================================================================== *)

Module LlmFacts.
Import Str Llm LlmSpec.

Lemma attempt_once_fails (o : post_outcome) :
  backend_fails o = true ->
  exists e, attempt_once o = Raise e /\ retryable e = true.
Proof.
  destruct o as [msg | p]; simpl.
  - intros _. now exists (RequestException msg).
  - destruct (extract_content p) as [[|c s]|e]; try discriminate.
    intros _. now exists (ValueError "Local LLM returned empty content").
Qed.

Lemma attempt_once_returns (o : post_outcome) (c : string) :
  backend_returns o c -> attempt_once o = Ok c.
Proof.
  intros (p & -> & E & N). simpl. rewrite E. destruct c; congruence.
Qed.

Lemma check_keeps_posts (be : Backend) (self : LLMProcessor) :
  posts_sent (snd (_check_local_llm be self)) = posts_sent self.
Proof.
  unfold _check_local_llm. destruct (_local_llm_checked self); [reflexivity|].
  destruct (probe be (probes_sent self)); reflexivity.
Qed.

Section Loop.
Variables (be : Backend) (prompt : string) (attempts : nat).

Local Abbreviation sent self := (List.length (posts_sent self)).

Lemma sent_log_post (self : LLMProcessor) :
  sent (log_post prompt self) = S (sent self).
Proof. simpl. rewrite length_app. simpl. lia. Qed.

(** Failures on the first [k] attempts and an answer on the next one:
    the loop returns the answer. *)
Lemma attempt_loop_returns (c : string) (k : nat) :
  forall todo attempt last_error self,
    todo + attempt = attempts + 1 -> k < todo ->
    (forall i, i < k -> backend_fails (completion be (sent self + i)) = true) ->
    backend_returns (completion be (sent self + k)) c ->
    fst (attempt_loop be prompt todo attempt attempts last_error self)
    = Returned c.
Proof.
  induction k as [|k IH]; intros todo attempt last_error self Hinv Hk Hf Hr.
  - destruct todo as [|todo]; [lia|]. simpl.
    rewrite Nat.add_0_r in Hr.
    now rewrite (attempt_once_returns _ _ Hr).
  - destruct todo as [|todo]; [lia|]. simpl.
    destruct (attempt_once_fails _ (Hf 0 ltac:(lia))) as (e & He & Hre).
    rewrite Nat.add_0_r in He. rewrite He, Hre.
    replace (attempts <=? attempt) with false
      by (symmetry; apply Nat.leb_gt; lia).
    apply IH; try lia.
    + intros i Hi. rewrite sent_log_post.
      replace (S (sent self) + i) with (sent self + S i) by lia.
      apply Hf. lia.
    + rewrite sent_log_post.
      now replace (S (sent self) + k) with (sent self + S k) by lia.
Qed.

(** Failures on all the attempts left: the loop ends with the last
    failure in hand. *)
Lemma attempt_loop_exhausts :
  forall todo attempt last_error self,
    todo + attempt = attempts + 1 -> 0 < todo ->
    (forall i, i < todo -> backend_fails (completion be (sent self + i)) = true) ->
    exists e,
      attempt_once (completion be (sent self + (todo - 1))) = Raise e
      /\ fst (attempt_loop be prompt todo attempt attempts last_error self)
         = Exhausted (Some e).
Proof.
  induction todo as [|todo IH]; intros attempt last_error self Hinv Hpos Hf; [lia|].
  simpl.
  destruct (attempt_once_fails _ (Hf 0 ltac:(lia))) as (e & He & Hre).
  rewrite Nat.add_0_r in He. rewrite He, Hre.
  destruct (attempts <=? attempt) eqn:L.
  - apply Nat.leb_le in L. assert (todo = 0) as -> by lia.
    exists e. split; [|reflexivity].
    match goal with
    | |- attempt_once (completion be ?n) = _ =>
        replace n with (sent self) by lia
    end.
    exact He.
  - apply Nat.leb_gt in L.
    destruct (IH (S attempt) (Some e) (log_post prompt self)) as (e' & He' & Hl);
      try lia.
    + intros i Hi. rewrite sent_log_post.
      replace (S (sent self) + i) with (sent self + S i) by lia.
      apply Hf. lia.
    + exists e'. split; [|exact Hl].
      rewrite sent_log_post in He'.
      match goal with
      | |- attempt_once (completion be ?n) = _ =>
          replace n with (S (sent self) + (todo - 1)) by lia
      end.
      exact He'.
Qed.

End Loop.

Lemma attempts_of_retries (cfg : Config) (N : nat) :
  LOCAL_LLM_RETRIES cfg = Z.of_nat N -> attempts_of cfg = S N.
Proof. unfold attempts_of. intros ->. lia. Qed.

(** C4. With [N] retries configured and the reachability check passed,
    a completion call whose backend fails on the first [k <= N] attempts
    and then answers with non-empty trimmed content returns that content;
    if the backend fails on all [N + 1] attempts, the call raises the
    terminal [RuntimeError], whose message carries the operation name, the
    number of attempts and the text of the last failure. *)
Theorem local_completion_retries
  (cfg : Config) (be : Backend) (prompt temperature operation : string)
  (self : LLMProcessor) (N : nat) :
  LOCAL_LLM_RETRIES cfg = Z.of_nat N ->
  fst (_check_local_llm be self) = Ok tt ->
  let first := List.length (posts_sent self) in
  let call := _local_chat_completion cfg be prompt temperature operation self in
  (forall k c,
      k <= N ->
      (forall i, i < k -> backend_fails (completion be (first + i)) = true) ->
      backend_returns (completion be (first + k)) c ->
      fst call = Ok c)
  /\ ((forall i, i <= N -> backend_fails (completion be (first + i)) = true) ->
      exists last,
        attempt_once (completion be (first + N)) = Raise last
        /\ fst call
           = Raise (RuntimeError
                      ("Local LLM " ++ operation ++ " failed after "
                       ++ of_nat (N + 1) ++ " attempts: " ++ exn_msg last))).
Proof.
  intros HN Hc first call. subst call. unfold _local_chat_completion.
  pose proof (check_keeps_posts be self) as Hp.
  destruct (_check_local_llm be self) as [[[]|e] self1]; simpl in Hc, Hp;
    [|discriminate].
  rewrite (attempts_of_retries cfg N HN). subst first. rewrite <- Hp. split.
  - intros k c Hk Hf Hr.
    pose proof (attempt_loop_returns be prompt (S N) c k (S N) 1 None self1
                  ltac:(lia) ltac:(lia) Hf Hr) as E.
    destruct (attempt_loop be prompt (S N) 1 (S N) None self1) as [x s2].
    simpl in E. now subst x.
  - intros Hf.
    destruct (attempt_loop_exhausts be prompt (S N) (S N) 1 None self1
                ltac:(lia) ltac:(lia)) as (e & He & E).
    { intros i Hi. apply Hf. lia. }
    exists e. replace (S N - 1) with N in He by lia. split; [exact He|].
    destruct (attempt_loop be prompt (S N) 1 (S N) None self1) as [x s2].
    simpl in E. subst x. simpl. unfold terminal_message. simpl.
    now replace (N + 1) with (S N) by lia.
Qed.

(** X7. A failing reachability check ends the call at once: its exception is
    raised as it is and no completion request is sent. *)
Lemma probe_failure_not_retried
  (cfg : Config) (be : Backend) (prompt temperature operation : string)
  (self : LLMProcessor) (msg : string) :
  _local_llm_checked self = false ->
  probe be (probes_sent self) = Some msg ->
  let call := _local_chat_completion cfg be prompt temperature operation self in
  fst call = Raise (RequestException msg)
  /\ posts_sent (snd call) = posts_sent self.
Proof.
  intros Hc Hp. unfold _local_chat_completion, _check_local_llm.
  rewrite Hc, Hp. now split.
Qed.

End LlmFacts.

Module LlmExamples.
Import Str Llm LlmSpec Examples.

(** With two retries: fail, fail, answer returns the answer; three
    failures raise the terminal error around the last one. *)
Lemma local_completion_retries_witness :
  fst (_local_chat_completion cfg_two_retries backend_fail_fail_ok
         "prompt" "0.2" "cleanup" (init cfg_two_retries))
  = Ok "done"
  /\ fst (_local_chat_completion cfg_two_retries backend_always_fails
            "prompt" "0.2" "cleanup" (init cfg_two_retries))
     = Raise (RuntimeError
                "Local LLM cleanup failed after 3 attempts: read timed out").
Proof.
  split.
  - apply (proj1 (LlmFacts.local_completion_retries cfg_two_retries
                    backend_fail_fail_ok "prompt" "0.2" "cleanup"
                    (init cfg_two_retries) 2 eq_refl eq_refl) 2 "done").
    + lia.
    + intros [|[|i]] Hi; [reflexivity | reflexivity | lia].
    + eexists. split; [reflexivity|]. split; [reflexivity | discriminate].
  - destruct (proj2 (LlmFacts.local_completion_retries cfg_two_retries
                       backend_always_fails "prompt" "0.2" "cleanup"
                       (init cfg_two_retries) 2 eq_refl eq_refl))
      as (last & H1 & H2).
    + intros [|[|[|i]]] Hi; [reflexivity | reflexivity | reflexivity | lia].
    + rewrite H2. vm_compute in H1. injection H1 as <-. reflexivity.
Defined.

End LlmExamples.

(* ================================================================== *)
(** * The routing policy *)
(* ================================================================== *)

Module RoutingFacts.
Import Str Llm LlmSpec.

Lemma nonempty_snoc (w : string) (c : ascii) :
  match w ++ String c "" with "" => false | _ => true end = true.
Proof. destruct w; reflexivity. Qed.

Lemma length_split_go (s word : string) :
  List.length (split_go word s)
  = (match word with "" => 0 | _ => 1 end)
    + word_count_from (match word with "" => false | _ => true end) s.
Proof.
  revert word. induction s as [|c s IH]; intros word; simpl.
  - destruct word; reflexivity.
  - destruct (isspace c).
    + destruct word; simpl; rewrite IH; reflexivity.
    + rewrite IH. pose proof (nonempty_snoc word c) as E.
      destruct (word ++ String c ""); [discriminate|].
      destruct word; simpl; lia.
Qed.

(** [len(text.split())] is the number of words. *)
Lemma length_split (s : string) : List.length (split s) = word_count s.
Proof. unfold split. now rewrite length_split_go. Qed.

(** [p in s] holds exactly when [p] occurs in [s]. *)
Lemma contains_occurs (p s : string) :
  contains p s = true <-> occurs_in p s.
Proof.
  unfold contains, occurs_in. rewrite existsb_exists. split.
  - intros (x & Hx & Hp).
    destruct (StrFacts.tails_split _ _ Hx) as [a ->].
    destruct (StrFacts.startswith_split _ _ Hp) as [b ->].
    now exists a, b.
  - intros (a & b & ->). exists (p ++ b). split.
    + apply StrFacts.In_tails.
    + apply StrFacts.startswith_app.
Qed.

Lemma phrases_same (f : string -> bool) :
  existsb f phrases = existsb f spec_phrases.
Proof.
  unfold phrases, spec_phrases. simpl.
  destruct (f "break down"), (f "step by step"), (f "what should i do"),
    (f "what's the best way"), (f "plan"), (f "depends on"), (f "blocked by"),
    (f "sequence"); reflexivity.
Qed.

(** C5. The routing policy is a function of the text, the two
    configuration flags and the presence of a remote client only.  It
    answers [false] when remote breakdown is disabled or there is no
    remote client; otherwise it answers [true] exactly when the text has
    more than 60 whitespace-separated words or its lowercased form
    contains one of the fixed phrases. *)
Theorem should_use_claude_spec (cfg : Config) (self : LLMProcessor)
  (text : string) :
  (USE_CLAUDE_FOR_COMPLEX cfg = false \/ has_credential self = false ->
   should_use_claude cfg self text = false)
  /\ (USE_CLAUDE_FOR_COMPLEX cfg = true -> has_credential self = true ->
      (should_use_claude cfg self text = true <->
       60 < word_count text
       \/ exists p, In p spec_phrases /\ occurs_in p (lower text))).
Proof.
  unfold should_use_claude, has_credential. split.
  - intros [-> | ->]; [reflexivity|]. now rewrite orb_true_r.
  - intros -> Hc. destruct (anthropic_client self); [|discriminate].
    cbn [negb orb]. rewrite length_split, phrases_same.
    rewrite orb_true_iff, Nat.ltb_lt, existsb_exists.
    split; intros [H | (p & Hp & Ho)]; auto; right; exists p; split; auto;
      now apply contains_occurs.
Qed.

(** The processor has a remote client exactly when a non-empty API key is
    configured. *)
Lemma init_credential (cfg : Config) :
  has_credential (init cfg) = truthy (ANTHROPIC_API_KEY cfg).
Proof.
  unfold has_credential, init. simpl.
  destruct (ANTHROPIC_API_KEY cfg) as [[|c s]|]; reflexivity.
Qed.

End RoutingFacts.

Module RoutingExamples.
Import Str Llm LlmSpec Examples.

(** A short note that asks for a plan: routed by the key, not without it. *)
Lemma should_use_claude_spec_witness :
  should_use_claude cfg_two_retries (init cfg_two_retries)
    "Please PLAN the launch" = false
  /\ (should_use_claude cfg_with_key (init cfg_with_key)
        "Please PLAN the launch" = true <->
      60 < word_count "Please PLAN the launch"
      \/ exists p, In p spec_phrases
                   /\ occurs_in p (lower "Please PLAN the launch")).
Proof.
  split.
  - apply (proj1 (RoutingFacts.should_use_claude_spec cfg_two_retries
                    (init cfg_two_retries) "Please PLAN the launch")).
    right. reflexivity.
  - apply (proj2 (RoutingFacts.should_use_claude_spec cfg_with_key
                    (init cfg_with_key) "Please PLAN the launch"));
      reflexivity.
Defined.

End RoutingExamples.

(* ================================================================== *)
(** * The session id *)
(* ================================================================== *)

Module SessionFacts.
Import Str Pipeline SessionSpec.

Lemma sub_disallowed_runs (s : string) :
  sub_disallowed false s = paint (runs s)
  /\ sub_disallowed true s = paint (drop_leading_bad (runs s)).
Proof.
  induction s as [|c s [IHf IHt]]; [split; reflexivity|].
  simpl. destruct (allowed c) eqn:A.
  - rewrite IHf. destruct (runs s) as [|[[|] r] rest]; simpl; split; reflexivity.
  - rewrite IHt. destruct (runs s) as [|[[|] r] rest]; simpl; split; reflexivity.
Qed.

(** The regular-expression substitution collapses the runs. *)
Lemma sub_disallowed_collapse (s : string) :
  sub_disallowed false s = collapse s.
Proof. apply sub_disallowed_runs. Qed.

Lemma all_chars_app (f : ascii -> bool) (a b : string) :
  all_chars f (a ++ b) = all_chars f a && all_chars f b.
Proof. induction a; simpl; [reflexivity|]. now rewrite IHa, andb_assoc. Qed.

Lemma all_chars_rev (f : ascii -> bool) (s : string) :
  all_chars f (rev s) = all_chars f s.
Proof.
  induction s; simpl; [reflexivity|].
  rewrite all_chars_app, IHs. simpl. rewrite andb_true_r. apply andb_comm.
Qed.

Lemma all_chars_lstrip (f g : ascii -> bool) (s : string) :
  all_chars f s = true -> all_chars f (lstrip_by g s) = true.
Proof.
  induction s; simpl; [reflexivity|]. intros H.
  destruct (g a); [|exact H]. apply IHs. now apply andb_true_iff in H.
Qed.

Lemma all_chars_strip (f g : ascii -> bool) (s : string) :
  all_chars f s = true -> all_chars f (strip_by g s) = true.
Proof.
  intros H. unfold strip_by, rstrip_by.
  rewrite all_chars_rev. apply all_chars_lstrip.
  rewrite all_chars_rev. now apply all_chars_lstrip.
Qed.

Lemma all_chars_sub_disallowed (b : bool) (s : string) :
  all_chars allowed (sub_disallowed b s) = true.
Proof.
  revert b. induction s as [|c s IH]; intros b; simpl; [reflexivity|].
  destruct (allowed c) eqn:A; simpl.
  - now rewrite A, IH.
  - destruct b; [apply IH|]. simpl. apply IH.
Qed.

Lemma lower_allowed (c : ascii) :
  allowed c = true -> token_char (lower_char c) = true.
Proof.
  destruct c as [[] [] [] [] [] [] [] []]; vm_compute; intros H;
    first [reflexivity | discriminate H].
Qed.

Lemma lower_dash (c : ascii) :
  Ascii.eqb (lower_char c) "-" = Ascii.eqb c "-".
Proof. destruct c as [[] [] [] [] [] [] [] []]; vm_compute; reflexivity. Qed.

Lemma all_chars_lower (s : string) :
  all_chars allowed s = true -> all_chars token_char (lower s) = true.
Proof.
  induction s; simpl; [reflexivity|]. intros H.
  apply andb_true_iff in H as [H1 H2]. now rewrite lower_allowed, IHs.
Qed.

Lemma rev_app (a b : string) : rev (a ++ b) = rev b ++ rev a.
Proof.
  induction a; simpl.
  - now rewrite StrFacts.app_nil_r.
  - now rewrite IHa, StrFacts.app_assoc.
Qed.

Lemma rev_involutive (s : string) : rev (rev s) = s.
Proof. induction s; simpl; [reflexivity|]. now rewrite rev_app, IHs. Qed.

Lemma lstrip_suffix (f : ascii -> bool) (s : string) :
  exists pre, s = pre ++ lstrip_by f s.
Proof.
  induction s; simpl.
  - now exists "".
  - destruct (f a).
    + destruct IHs as [pre E]. exists (String a pre). simpl. now rewrite <- E.
    + now exists "".
Qed.

Lemma lstrip_first (f : ascii -> bool) (s : string) (c : ascii) :
  first_char (lstrip_by f s) = Some c -> f c = false.
Proof.
  induction s; simpl; [discriminate|].
  destruct (f a) eqn:E; [exact IHs|]. simpl. now intros [= <-].
Qed.

Lemma rstrip_prefix (f : ascii -> bool) (s : string) :
  exists post, s = rstrip_by f s ++ post.
Proof.
  unfold rstrip_by. destruct (lstrip_suffix f (rev s)) as [pre E].
  exists (rev pre). rewrite <- rev_app, <- E. now rewrite rev_involutive.
Qed.

Lemma strip_first (f : ascii -> bool) (s : string) (c : ascii) :
  first_char (strip_by f s) = Some c -> f c = false.
Proof.
  unfold strip_by. destruct (rstrip_prefix f (lstrip_by f s)) as [post E].
  intros H. apply (lstrip_first f s). rewrite E.
  destruct (rstrip_by f (lstrip_by f s)); [discriminate|exact H].
Qed.

Lemma strip_last (f : ascii -> bool) (s : string) (c : ascii) :
  last_char (strip_by f s) = Some c -> f c = false.
Proof.
  unfold last_char, strip_by, rstrip_by. rewrite rev_involutive.
  apply lstrip_first.
Qed.

Lemma first_char_lower (s : string) :
  first_char (lower s) = option_map lower_char (first_char s).
Proof. destruct s; reflexivity. Qed.

Lemma lower_app (a b : string) : lower (a ++ b) = lower a ++ lower b.
Proof. induction a; simpl; congruence. Qed.

Lemma lower_rev (s : string) : rev (lower s) = lower (rev s).
Proof. induction s; simpl; [reflexivity|]. now rewrite lower_app, IHs. Qed.

Lemma last_char_lower (s : string) :
  last_char (lower s) = option_map lower_char (last_char s).
Proof. unfold last_char. rewrite lower_rev. apply first_char_lower. Qed.

Lemma mem_dash (c : ascii) : mem_char c "-" = Ascii.eqb c "-".
Proof. simpl. apply orb_false_r. Qed.

(** What a sanitized stem looks like. *)
Lemma session_token_shape (stem : string) :
  let t := session_token stem in
  t <> ""
  /\ all_chars token_char t = true
  /\ first_char t <> Some "-"%char
  /\ last_char t <> Some "-"%char.
Proof.
  unfold session_token.
  set (x := strip_chars "-" (collapse stem)).
  assert (all_chars token_char (lower x) = true) as A.
  { apply all_chars_lower. unfold x, strip_chars. apply all_chars_strip.
    rewrite <- sub_disallowed_collapse. apply all_chars_sub_disallowed. }
  assert (first_char (lower x) <> Some "-"%char) as F.
  { rewrite first_char_lower. destruct (first_char x) as [c|] eqn:E; [|discriminate].
    simpl. intros [= H]. apply strip_first in E.
    rewrite mem_dash, <- lower_dash, H in E. discriminate. }
  assert (last_char (lower x) <> Some "-"%char) as L.
  { rewrite last_char_lower. destruct (last_char x) as [c|] eqn:E; [|discriminate].
    simpl. intros [= H]. apply strip_last in E.
    rewrite mem_dash, <- lower_dash, H in E. discriminate. }
  destruct (lower x) eqn:E; simpl.
  - repeat split; discriminate.
  - repeat split; auto. discriminate.
Qed.

(** C9. The session id is the start time rendered to the second, a
    dash, and the sanitized stem of the audio file name: every run of
    characters outside [[a-zA-Z0-9._-]] collapsed to one dash, leading and
    trailing dashes stripped, lowercased, and ["audio"] when nothing is
    left.  The sanitized part is never empty, consists of lowercase
    letters, digits, dots, underscores and dashes, and neither starts nor
    ends with a dash; two start times within the same second give the
    same id. *)
Theorem make_session_id_spec (audio_path : Path.t) (now : datetime) :
  _make_session_id audio_path now
  = stamp_seconds now ++ "-" ++ session_token (Path.stem audio_path)
  /\ (let t := session_token (Path.stem audio_path) in
      t <> "" /\ all_chars token_char t = true
      /\ first_char t <> Some "-"%char /\ last_char t <> Some "-"%char)
  /\ (forall now', same_second now now' ->
        _make_session_id audio_path now' = _make_session_id audio_path now).
Proof.
  split; [|split].
  - unfold _make_session_id, session_token.
    now rewrite sub_disallowed_collapse.
  - apply session_token_shape.
  - intros now' (Hy & Hmo & Hd & Hh & Hmi & Hs).
    unfold _make_session_id, stamp_seconds.
    now rewrite Hy, Hmo, Hd, Hh, Hmi, Hs.
Qed.

End SessionFacts.

(* ================================================================== *)
(** * The compression ratio *)
(* ================================================================== *)

Module FloatFacts.
Import Float.
Local Open Scope Z_scope.

Lemma round_half_even_near (num den : Z) :
  0 < den -> Z.abs (2 * (num - round_half_even num den * den)) <= den.
Proof.
  intros Hd. unfold round_half_even.
  pose proof (Z.div_mod num den ltac:(lia)) as E.
  pose proof (Z.mod_pos_bound num den Hd) as B.
  destruct (2 * (num mod den) <? den) eqn:C1.
  - apply Z.ltb_lt in C1. nia.
  - apply Z.ltb_ge in C1.
    destruct (den <? 2 * (num mod den)) eqn:C2.
    + apply Z.ltb_lt in C2. nia.
    + apply Z.ltb_ge in C2. destruct (Z.even (num / den)); nia.
Qed.

(** For a numerator below [2^38] the quotient has a negative exponent
    [- E], its mantissa is the nearest integer to [a * 2^E / b], and it is
    normalised from below. *)
Lemma truediv_small (a b : Z) :
  0 < a < 2 ^ 38 -> 1 <= b ->
  exists m E,
    truediv a b = (m, - E) /\ 0 < E
    /\ Z.abs (2 * (a * 2 ^ E - m * b)) <= b
    /\ 2 ^ 52 * b <= a * 2 ^ E.
Proof.
  intros [Ha1 Ha2] Hb. unfold truediv.
  destruct (a =? 0) eqn:A0; [apply Z.eqb_eq in A0; lia|].
  pose proof (Z.log2_spec a Ha1) as [La1 La2].
  pose proof (Z.log2_spec b ltac:(lia)) as [Lb1 Lb2].
  pose proof (Z.log2_nonneg a) as La0.
  pose proof (Z.log2_nonneg b) as Lb0.
  assert (Z.log2 a < 38) as La3 by (apply Z.log2_lt_pow2; lia).
  set (la := Z.log2 a) in *. set (lb := Z.log2 b) in *.
  set (e0 := la - lb - 52).
  assert (e0 < 0) as He0 by (unfold e0; lia).
  unfold scaled at 1.
  destruct (0 <=? e0) eqn:S0; [apply Z.leb_le in S0; lia|].
  assert (2 ^ (- e0) * 2 ^ la = 2 ^ 52 * 2 ^ lb) as Hpow.
  { rewrite <- !Z.pow_add_r by lia. f_equal. unfold e0. lia. }
  assert (0 < 2 ^ (- e0)) as Hp0 by (apply Z.pow_pos_nonneg; lia).
  assert (0 < 2 ^ lb) as Hplb by (apply Z.pow_pos_nonneg; lia).
  replace (Z.succ lb) with (lb + 1) in Lb2 by lia.
  rewrite Z.pow_add_r in Lb2 by lia. change (2 ^ 1) with 2 in Lb2.
  destruct (a * 2 ^ (- e0) / b <? 2 ^ 52) eqn:T.
  - (* one more bit is needed *)
    unfold scaled. destruct (0 <=? e0 - 1) eqn:S1; [apply Z.leb_le in S1; lia|].
    exists (round_half_even (a * 2 ^ (- (e0 - 1))) b), (- (e0 - 1)).
    replace (- - (e0 - 1)) with (e0 - 1) by lia.
    split; [reflexivity|]. split; [lia|]. split.
    + apply round_half_even_near. lia.
    + replace (- (e0 - 1)) with (- e0 + 1) by lia.
      rewrite Z.pow_add_r by lia. change (2 ^ 1) with 2. nia.
  - apply Z.ltb_ge in T.
    unfold scaled. rewrite S0.
    exists (round_half_even (a * 2 ^ (- e0)) b), (- e0).
    replace (- - e0) with e0 by lia.
    split; [reflexivity|]. split; [lia|]. split.
    + apply round_half_even_near. lia.
    + pose proof (Z.mul_div_le (a * 2 ^ (- e0)) b ltac:(lia)). nia.
Qed.

(** For texts of fewer than [2^38] characters the recorded ratio is a
    nearest multiple of [0.0001] to the exact quotient. *)
Lemma round4_truediv_nearest (a b : Z) :
  0 <= a < 2 ^ 38 -> 1 <= b ->
  Z.abs (2 * (10000 * a - round4 (truediv a b) * b)) <= b.
Proof.
  intros [Ha1 Ha2] Hb.
  destruct (Z.eq_dec a 0) as [-> | Hne].
  - vm_compute round4. lia.
  - destruct (truediv_small a b ltac:(lia) Hb) as (m & E & -> & HE & Hm & Hn).
    unfold round4. destruct (0 <=? - E) eqn:S0; [apply Z.leb_le in S0; lia|].
    replace (- - E) with E by lia.
    assert (0 < 2 ^ E) as HP by (apply Z.pow_pos_nonneg; lia).
    pose proof (round_half_even_near (10000 * m) (2 ^ E) HP) as Hk.
    set (k := round_half_even (10000 * m) (2 ^ E)) in *.
    set (P := 2 ^ E) in *.
    change (2 ^ 38) with 274877906944 in Ha2.
    change (2 ^ 52) with 4503599627370496 in Hn.
    apply Z.abs_le in Hm. apply Z.abs_le in Hk. apply Z.abs_le.
    assert (2 * (10000 * a - k * b) * P
            = 10000 * (2 * (a * P - m * b)) + b * (2 * (10000 * m - k * P)))
      as Hsplit by ring.
    split.
    + destruct (Z_le_gt_dec (- b) (2 * (10000 * a - k * b))) as [|G]; [assumption|].
      exfalso.
      assert (2 * (10000 * a - k * b) * P <= (- b - 1) * P) by nia.
      assert (P <= 10000 * b) by nia.
      nia.
    + destruct (Z_le_gt_dec (2 * (10000 * a - k * b)) b) as [|G]; [assumption|].
      exfalso.
      assert ((b + 1) * P <= 2 * (10000 * a - k * b) * P) by nia.
      assert (P <= 10000 * b) by nia.
      nia.
Qed.

End FloatFacts.

(* ================================================================== *)
(** * The processing pipeline *)
(* ================================================================== *)

Module PipelineFacts.
Import Str Pipeline PipelineSpec.

(** Symbolic execution of one invocation: unfold the plumbing, then split
    on whatever the run is waiting for, in program order. *)
Ltac unfold_run :=
  cbv beta iota zeta delta
    [run_process process try_except bind ret raise io lift_llm lift_transcriber
     _save_raw_transcript _write_text _archive_audio move _log_event
     _append_metrics _write_session_metadata _append_capture
     get_world get_metrics put_metrics metrics_set durations_set
     Dict.set Dict.get Dict.mem String.eqb Ascii.eqb Bool.eqb andb
     world self metrics transcriber llm fst snd].

Ltac head_of t :=
  lazymatch t with
  | match ?x with _ => _ end => head_of x
  | (match ?x with _ => _ end) _ => head_of x
  | _ => t
  end.

Ltac step :=
  lazymatch goal with
  | |- (match ?x with _ => _ end) = _ -> _ =>
      let h := head_of x in
      first [ is_var h; destruct h | destruct h eqn:? ]; unfold_run
  end.

Ltac files :=
  cbn [metrics_log capture_log audio_store event_log dirs files
       append_event append_metrics append_capture write_file move_file mkdir].

Ltac lookup :=
  cbv beta iota zeta delta
    [records_duration Dict.get Dict.mem Dict.set String.eqb Ascii.eqb Bool.eqb].

(** ** What the local client leaves in its logs *)

Lemma attempt_loop_log (be : Llm.Backend) (prompt : string) (attempts : nat) :
  forall todo attempt last_error self,
    let self' :=
      snd (Llm.attempt_loop be prompt todo attempt attempts last_error self) in
    Llm.remote_sent self' = Llm.remote_sent self
    /\ exists k,
         Llm.posts_sent self' = (Llm.posts_sent self ++ repeat prompt k)%list.
Proof.
  induction todo as [|todo IH]; intros attempt last_error self; simpl.
  - split; [reflexivity|]. exists 0. simpl. now rewrite app_nil_r.
  - destruct (Llm.attempt_once _) as [c|e]; simpl.
    + split; [reflexivity|]. now exists 1.
    + destruct (Llm.retryable e); simpl.
      * destruct (attempts <=? attempt); simpl.
        -- split; [reflexivity|]. now exists 1.
        -- destruct (IH (S attempt) (Some e) (Llm.log_post prompt self))
             as [R [k P]].
           split; [exact R|]. exists (S k). rewrite P. simpl.
           now rewrite <- app_assoc.
      * split; [reflexivity|]. now exists 1.
Qed.

Lemma local_chat_completion_log (cfg : Config) (be : Llm.Backend)
  (prompt temperature operation : string) (self : Llm.LLMProcessor) :
  let self' :=
    snd (Llm._local_chat_completion cfg be prompt temperature operation self) in
  Llm.remote_sent self' = Llm.remote_sent self
  /\ exists k,
       Llm.posts_sent self' = (Llm.posts_sent self ++ repeat prompt k)%list.
Proof.
  unfold Llm._local_chat_completion.
  assert (Llm.remote_sent (snd (Llm._check_local_llm be self)) = Llm.remote_sent self
          /\ Llm.posts_sent (snd (Llm._check_local_llm be self)) = Llm.posts_sent self)
    as [R P].
  { unfold Llm._check_local_llm. destruct (Llm._local_llm_checked self); [now split|].
    destruct (Llm.probe be _); now split. }
  destruct (Llm._check_local_llm be self) as [[[]|e] self1]; simpl in *.
  - pose proof (attempt_loop_log be prompt (Llm.attempts_of cfg)
                  (Llm.attempts_of cfg) 1 None self1) as L.
    destruct (Llm.attempt_loop _ _ _ _ _ _ _) as [[c|e|le] self2];
      simpl in *; now rewrite <- R, <- P.
  - split; [exact R|]. exists 0. simpl. now rewrite app_nil_r.
Qed.

(** Every exception of the local client that is not a transport error
    has a message. *)
Lemma attempt_once_not_retryable (o : Llm.post_outcome) (e : exn) :
  Llm.attempt_once o = Raise e -> Llm.retryable e = false ->
  exn_msg e <> "".
Proof.
  intros H R. destruct o as [msg | p]; simpl in H.
  - injection H as <-. discriminate R.
  - unfold Llm.extract_content, Llm.first_choice, Llm.content_of in H.
    destruct (Llm.choices p) as [| |[|ch rest]]; simpl in H.
    all: try (destruct (Llm.message ch) as [| |m]; simpl in H).
    all: try (destruct (Llm.content m) as [| |c]; simpl in H).
    all: repeat match type of H with
                | context [match strip ?s with _ => _ end] => destruct (strip s)
                end.
    all: try discriminate H; injection H as <-;
      first [discriminate R | simpl; discriminate].
Qed.

Lemma attempt_loop_propagates (be : Llm.Backend) (prompt : string) (attempts : nat) :
  forall todo attempt last_error self e,
    fst (Llm.attempt_loop be prompt todo attempt attempts last_error self)
    = Llm.Propagated e ->
    exn_msg e <> "".
Proof.
  induction todo as [|todo IH]; intros attempt last_error self e; simpl;
    [discriminate|].
  destruct (Llm.attempt_once _) as [c|e'] eqn:A; simpl; [discriminate|].
  destruct (Llm.retryable e') eqn:R; simpl.
  - destruct (attempts <=? attempt); simpl; [discriminate|]. apply IH.
  - intros [= <-]. eapply attempt_once_not_retryable; eassumption.
Qed.

(** The two prompts of the local client are told apart by their second
    character. *)
Lemma prompts_differ (raw_text clean_text : string) :
  Llm.cleanup_prompt raw_text <> Llm.local_breakdown_prompt clean_text.
Proof. unfold Llm.cleanup_prompt, Llm.local_breakdown_prompt. discriminate. Qed.

Lemma cleanup_exception_message (cfg : Config) (be : Llm.Backend)
  (raw_text : string) (self self' : Llm.LLMProcessor) (exc : exn) :
  Llm.cleanup_transcription cfg be raw_text self = (Raise exc, self') ->
  (forall msg, exc <> RequestException msg) ->
  exn_msg exc <> "".
Proof.
  unfold Llm.cleanup_transcription, Llm._local_chat_completion.
  destruct (Llm._check_local_llm be self) as [[[]|e] self1] eqn:C.
  - pose proof (attempt_loop_propagates be (Llm.cleanup_prompt raw_text)
                  (Llm.attempts_of cfg) (Llm.attempts_of cfg) 1 None self1) as P.
    destruct (Llm.attempt_loop _ _ _ _ _ _ _) as [[c|e|le] self2]; simpl in *.
    + discriminate.
    + intros [= <- <-] _. exact (P e eq_refl).
    + intros [= <- <-] _. discriminate.
  - intros [= <- <-] N. exfalso.
    unfold Llm._check_local_llm in C.
    destruct (Llm._local_llm_checked self); [discriminate|].
    destruct (Llm.probe be _) as [msg|]; [|discriminate].
    injection C as <- _. now apply (N msg).
Qed.

Lemma capture_entry_split (timestamp name transcription_method breakdown_model
  raw_text clean_text breakdown : string) :
  capture_entry timestamp name transcription_method breakdown_model
    raw_text clean_text breakdown
  = capture_head timestamp name transcription_method breakdown_model
      raw_text clean_text
    ++ tasks_section breakdown.
Proof.
  unfold capture_entry, capture_head, tasks_section.
  now rewrite !StrFacts.app_assoc.
Qed.

(** C7. With both mode flags set, [process] raises its [ValueError] at
    once: the files and the processor are as before, so no session
    directory was made, nothing was transcribed, no record was appended
    and the audio file is where it was. *)
Theorem conflicting_flags_rejected (env : Env) (p : AudioProcessor) (w : World)
  (audio_path : Path.t) :
  run_process env p w audio_path true true
  = (Raise (ValueError "raw_only and clean_only cannot both be true"), p, w).
Proof. reflexivity. Qed.

(** C8. A successful clean-only run sends nothing after the cleanup
    call: the processor is left as that call left it, with no remote
    request and only cleanup prompts posted.  Its record names the model
    [skipped_clean_only] and has no [breakdown] duration, and the capture
    block it appends ends with the Tasks section holding the fixed
    placeholder. *)
Theorem clean_only_skips_breakdown (env : Env) (p p' : AudioProcessor)
  (w w' : World) (audio_path : Path.t) :
  run_process env p w audio_path false true = (Ok true, p', w') ->
  exists raw_text method clean_text tr' rec head_,
    Transcription.transcribe (engine env) audio_path (transcriber p)
    = (Ok (raw_text, method), tr')
    /\ Llm.cleanup_transcription (cfg env) (backend env) raw_text (llm p)
       = (Ok clean_text, llm p')
    /\ Llm.remote_sent (llm p') = Llm.remote_sent (llm p)
    /\ (exists k,
          Llm.posts_sent (llm p')
          = (Llm.posts_sent (llm p)
             ++ repeat (Llm.cleanup_prompt raw_text) k)%list)
    /\ metrics_log w' = (metrics_log w ++ [rec])%list
    /\ Dict.get rec "status" = Some (VStr "success")
    /\ Dict.get rec "breakdown_model" = Some (VStr "skipped_clean_only")
    /\ records_duration rec "breakdown" = false
    /\ capture_log w'
       = (capture_log w
          ++ [(head_ ++ tasks_section "_Skipped due to --clean-only mode._")%string])%list.
Proof.
  destruct p as [tr l]. unfold_run.
  repeat (step; try discriminate).
  intros H. injection H as <- <-. files. cbn [llm transcriber].
  match goal with
  | Hc : Llm.cleanup_transcription _ _ ?raw _ = (Ok ?clean, ?l0),
    Ht : Transcription.transcribe _ _ _ = (Ok (?raw, ?m), ?t) |- _ =>
      pose proof (local_chat_completion_log (cfg env) (backend env)
                    (Llm.cleanup_prompt raw) "0.2" "cleanup" l) as L;
      fold (Llm.cleanup_transcription (cfg env) (backend env) raw l) in L;
      rewrite Hc in L; simpl in L; destruct L as [LR LP];
      exists raw, m, clean, t
  end.
  eexists. eexists.
  repeat (split; [first [eassumption | reflexivity]|]).
  rewrite capture_entry_split. reflexivity.
Qed.

(** C6. The record of a successful run that is not raw-only carries the
    character counts [R] of the raw text and [C] of the cleaned text and,
    as its compression ratio, [round(C / max(1, R), 4)].  For texts of
    fewer than [2^38] characters that value is a multiple of [0.0001]
    nearest to the exact quotient; for 40 cleaned characters out of 100
    it is [0.4]. *)
Theorem compression_ratio_recorded (env : Env) (p p' : AudioProcessor)
  (w w' : World) (audio_path : Path.t) (clean_only : bool) :
  run_process env p w audio_path false clean_only = (Ok true, p', w') ->
  exists raw_text method tr' clean_text l' rec,
    Transcription.transcribe (engine env) audio_path (transcriber p)
    = (Ok (raw_text, method), tr')
    /\ Llm.cleanup_transcription (cfg env) (backend env) raw_text (llm p)
       = (Ok clean_text, l')
    /\ metrics_log w' = (metrics_log w ++ [rec])%list
    /\ Dict.get rec "status" = Some (VStr "success")
    /\ Dict.get rec "raw_chars" = Some (VInt (String.length raw_text))
    /\ Dict.get rec "clean_chars" = Some (VInt (String.length clean_text))
    /\ Dict.get rec "compression_ratio"
       = Some (VRatio (compression_ratio (String.length clean_text)
                         (String.length raw_text)))
    /\ (let C := String.length clean_text in
        let R := String.length raw_text in
        Z.of_nat C < 2 ^ 38 ->
        Z.abs (2 * (10000 * Z.of_nat C
                    - compression_ratio C R * Z.of_nat (Nat.max 1 R)))
        <= Z.of_nat (Nat.max 1 R))%Z
    /\ compression_ratio 40 100 = 4000%Z.
Proof.
  destruct p as [tr l]. destruct clean_only; unfold_run;
    repeat (step; try discriminate);
    intros H; injection H as <- <-; files; cbn [llm transcriber];
    match goal with
    | Hc : Llm.cleanup_transcription _ _ ?raw _ = (Ok ?clean, ?l0),
      Ht : Transcription.transcribe _ _ _ = (Ok (?raw, ?m), ?t) |- _ =>
        exists raw, m, t, clean, l0
    end;
    eexists;
    (split; [first [assumption | reflexivity]|]);
    (split; [first [assumption | reflexivity]|]);
    (split; [reflexivity|]); lookup;
    (split; [reflexivity|]); (split; [reflexivity|]); (split; [reflexivity|]);
    (split; [reflexivity|]); (split; [|reflexivity]);
    intros Hsmall; apply FloatFacts.round4_truediv_nearest; lia.
Qed.

(** C1, as the code has it.  When transcription and the saving of the
    raw transcript succeed, the cleanup call raises [exc], and the two
    writes of the failure handler succeed, [process] returns [false] and
    appends exactly one record: status [failed], [error] holding
    [str(exc)] (not empty unless [exc] is a transport error of the
    reachability probe, whose text is the HTTP library's), a
    [transcription] duration, no [cleanup] and no [breakdown] duration.
    Nothing is appended to the capture log and the audio files are where
    they were. *)
Theorem cleanup_failure_recorded (env : Env) (p : AudioProcessor) (w : World)
  (audio_path : Path.t) (clean_only : bool)
  (raw_text method : string) (tr' : Transcription.Transcriber)
  (exc : exn) (l' : Llm.LLMProcessor) :
  io_error env MkdirSession = None ->
  Transcription.transcribe (engine env) audio_path (transcriber p)
  = (Ok (raw_text, method), tr') ->
  io_error env WriteRawStore = None ->
  io_error env WriteRawSession = None ->
  Llm.cleanup_transcription (cfg env) (backend env) raw_text (llm p)
  = (Raise exc, l') ->
  io_error env WriteMetaOnFailure = None ->
  io_error env AppendMetricsOnFailure = None ->
  exists rec w',
    run_process env p w audio_path false clean_only
    = (Ok false, {| transcriber := tr'; llm := l' |}, w')
    /\ metrics_log w' = (metrics_log w ++ [rec])%list
    /\ Dict.get rec "status" = Some (VStr "failed")
    /\ Dict.get rec "error" = Some (VStr (exn_msg exc))
    /\ ((forall msg, exc <> RequestException msg) -> exn_msg exc <> "")
    /\ records_duration rec "transcription" = true
    /\ records_duration rec "cleanup" = false
    /\ records_duration rec "breakdown" = false
    /\ capture_log w' = capture_log w
    /\ audio_store w' = audio_store w.
Proof.
  destruct p as [tr l]. cbn [transcriber llm].
  intros Hmk Ht Hs1 Hs2 Hc Hm Ha.
  pose proof (cleanup_exception_message _ _ _ _ _ _ Hc) as Hmsg.
  unfold_run.
  repeat (progress (rewrite ?Hmk, ?Ht, ?Hs1, ?Hs2, ?Hc, ?Hm, ?Ha); unfold_run).
  eexists. eexists. split; [reflexivity|]. files.
  split; [reflexivity|]. lookup.
  repeat (split; [first [reflexivity | exact Hmsg]|]). reflexivity.
Qed.

(** When the failure handler cannot append its record, [process] raises
    the handler's [OSError] and the metrics log is as it was. *)
Lemma handler_failure_propagates (env : Env) (p : AudioProcessor) (w : World)
  (audio_path : Path.t) (clean_only : bool)
  (raw_text method msg : string) (tr' : Transcription.Transcriber)
  (exc : exn) (l' : Llm.LLMProcessor) :
  io_error env MkdirSession = None ->
  Transcription.transcribe (engine env) audio_path (transcriber p)
  = (Ok (raw_text, method), tr') ->
  io_error env WriteRawStore = None ->
  io_error env WriteRawSession = None ->
  Llm.cleanup_transcription (cfg env) (backend env) raw_text (llm p)
  = (Raise exc, l') ->
  io_error env WriteMetaOnFailure = None ->
  io_error env AppendMetricsOnFailure = Some msg ->
  exists w',
    run_process env p w audio_path false clean_only
    = (Raise (OSError msg), {| transcriber := tr'; llm := l' |}, w')
    /\ metrics_log w' = metrics_log w.
Proof.
  destruct p as [tr l]. cbn [transcriber llm].
  intros Hmk Ht Hs1 Hs2 Hc Hm Ha.
  unfold_run.
  repeat (progress (rewrite ?Hmk, ?Ht, ?Hs1, ?Hs2, ?Hc, ?Hm, ?Ha); unfold_run).
  eexists. split; reflexivity.
Qed.

(** C2 fails on the code.  When only the append to the monthly event
    log raises, the run that transcribed, cleaned, wrote the capture
    block, archived the audio file and appended its [success] record goes
    through the failure handler as well: it appends a second record, with
    status [failed], for the same session, and returns [false].  Both
    records stay in the log, after the records that were there. *)
Theorem event_log_failure_appends_two_records (env : Env) (p : AudioProcessor) (w : World)
  (audio_path : Path.t) (raw_text method clean_text msg : string)
  (tr' : Transcription.Transcriber) (l' : Llm.LLMProcessor) :
  (forall site, site <> AppendEvent -> io_error env site = None) ->
  io_error env AppendEvent = Some msg ->
  Transcription.transcribe (engine env) audio_path (transcriber p)
  = (Ok (raw_text, method), tr') ->
  Llm.cleanup_transcription (cfg env) (backend env) raw_text (llm p)
  = (Ok clean_text, l') ->
  path_mem audio_path (audio_store w) = true ->
  exists r1 r2 w',
    run_process env p w audio_path false true
    = (Ok false, {| transcriber := tr'; llm := l' |}, w')
    /\ metrics_log w' = (metrics_log w ++ [r1; r2])%list
    /\ Dict.get r1 "status" = Some (VStr "success")
    /\ Dict.get r2 "status" = Some (VStr "failed")
    /\ Dict.get r1 "session_id" = Dict.get r2 "session_id"
    /\ Dict.get r2 "error" = Some (VStr msg).
Proof.
  destruct p as [tr l]. cbn [transcriber llm].
  intros Hio He Ht Hc Hin.
  assert (forall site, site <> AppendEvent -> io_error env site = None) as Hio' by exact Hio.
  unfold_run.
  repeat (progress (rewrite ?(Hio MkdirSession), ?(Hio WriteRawStore),
                      ?(Hio WriteRawSession), ?(Hio WriteClean),
                      ?(Hio AppendCapture), ?(Hio MoveAudio), ?(Hio WriteMeta),
                      ?(Hio AppendMetrics), ?(Hio WriteMetaOnFailure),
                      ?(Hio AppendMetricsOnFailure), ?He, ?Ht, ?Hc by discriminate);
          files; rewrite ?Hin; unfold_run).
  eexists. eexists. eexists. split; [reflexivity|]. files.
  split; [rewrite <- app_assoc; reflexivity|]. lookup.
  repeat (split; [reflexivity|]). reflexivity.
Qed.

(** X15. The metrics log only grows: whatever one invocation does, the records
    that were in the log stay as they were and in place, and at most two
    are added. *)
Lemma metrics_log_append_only (env : Env) (p p' : AudioProcessor)
  (w w' : World) (audio_path : Path.t) (raw_only clean_only : bool)
  (r : result bool) :
  run_process env p w audio_path raw_only clean_only = (r, p', w') ->
  exists added,
    metrics_log w' = (metrics_log w ++ added)%list /\ List.length added <= 2.
Proof.
  destruct p as [tr l]. destruct raw_only, clean_only; unfold_run;
    repeat step;
    intros H; injection H as <- <- <-; files;
    first [ exists []; split; [now rewrite app_nil_r | simpl; lia]
          | eexists [_]; split; [reflexivity | simpl; lia]
          | eexists [_; _]; split; [now rewrite <- app_assoc | simpl; lia] ].
Qed.

(** Without a failure of the event log or of the failure handler's own
    writes, an invocation that got its session directory appends exactly
    one record, and that record is terminal. *)
Lemma one_record_without_late_failure (env : Env) (p p' : AudioProcessor)
  (w w' : World) (audio_path : Path.t) (raw_only clean_only : bool)
  (r : result bool) :
  raw_only && clean_only = false ->
  io_error env MkdirSession = None ->
  io_error env AppendEvent = None ->
  io_error env WriteMetaOnFailure = None ->
  io_error env AppendMetricsOnFailure = None ->
  run_process env p w audio_path raw_only clean_only = (r, p', w') ->
  exists rec,
    metrics_log w' = (metrics_log w ++ [rec])%list
    /\ (r = Ok true /\ Dict.get rec "status" = Some (VStr "success")
        \/ r = Ok false /\ Dict.get rec "status" = Some (VStr "failed")).
Proof.
  destruct p as [tr l]. intros Hflags Hmk Hev Hmf Haf.
  destruct raw_only, clean_only; try discriminate Hflags; unfold_run;
    repeat (step; try congruence);
    intros H; injection H as <- <- <-; files;
    eexists; (split; [reflexivity|]); lookup;
    first [ left; split; reflexivity | right; split; reflexivity ].
Qed.

End PipelineFacts.

(* ================================================================== *)
(** * The metrics report *)
(* ================================================================== *)

Module ReportFacts.
Import Pipeline MetricsReport ReportSpec.

Section Facts.
Variable parse_float : string -> option Q.

Lemma avg_defined (values : list Q) :
  _avg values
  = Ok (match values with
        | [] => 0
        | _ => sum values / inject_Z (Z.of_nat (List.length values))
        end)%Q.
Proof. destruct values; reflexivity. Qed.

Lemma avg_if_any_defined (values : list Q) :
  exists o, avg_if_any values = Ok o.
Proof. destruct values; simpl; eauto. Qed.

Lemma raise_safe {A B : Type} (e : exn) :
  no_zero_division (@Raise A e) -> no_zero_division (@Raise B e).
Proof. intros H msg [= ->]. now apply (H msg). Qed.

Lemma to_float_safe (v : value) : no_zero_division (to_float parse_float v).
Proof.
  intros msg. destruct v; simpl; try discriminate.
  destruct (parse_float s); discriminate.
Qed.

Lemma durations_of_safe (r : record) : no_zero_division (durations_of r).
Proof.
  intros msg. unfold durations_of.
  destruct (Dict.get r "durations_sec") as [[]|]; discriminate.
Qed.

Lemma duration_safe (k : string) (r : record) :
  no_zero_division (duration parse_float k r).
Proof.
  intros msg. unfold duration.
  pose proof (durations_of_safe r) as D.
  destruct (durations_of r) as [d|e].
  - destruct (Dict.get d k); [apply to_float_safe | discriminate].
  - intros [= ->]. now apply (D msg).
Qed.

Lemma has_duration_safe (k : string) (r : record) :
  no_zero_division (has_duration k r).
Proof.
  intros msg. unfold has_duration.
  destruct (Dict.get r "durations_sec") as [[]|]; discriminate.
Qed.

Lemma comprehension_safe (keep : record -> result bool)
  (f : record -> result Q) (rows : list record) :
  (forall r, no_zero_division (keep r)) ->
  (forall r, no_zero_division (f r)) ->
  no_zero_division (comprehension keep f rows).
Proof.
  intros K F. induction rows as [|r rows IH]; simpl; [intros msg; discriminate|].
  pose proof (K r) as Kr. pose proof (F r) as Fr.
  destruct (keep r) as [[|]|e].
  - destruct (f r) as [x|e].
    + destruct (comprehension keep f rows); [intros msg; discriminate | exact IH].
    + exact (raise_safe e Fr).
  - exact IH.
  - exact (raise_safe e Kr).
Qed.

Lemma comprehension_nil (keep : record -> result bool) (f : record -> result Q) :
  comprehension keep f [] = Ok [].
Proof. reflexivity. Qed.

(** C10. The average helper always returns: [0.0] for the empty list and
    the sum divided by the length otherwise.  The report never fails with
    a division by zero, and on a log without successful runs it prints an
    average total of [0.0] and none of the optional averages. *)
Theorem average_is_total (values : list Q) (rows : list record) :
  (exists q, _avg values = Ok q
             /\ (values = [] -> q = 0%Q)
             /\ (values <> [] ->
                 q = (sum values / inject_Z (Z.of_nat (List.length values)))%Q))
  /\ no_zero_division (main parse_float rows)
  /\ (rows <> [] -> filter (has_status "success") rows = [] ->
      exists s, main parse_float rows = Ok (Some s)
                /\ successful_runs s = 0
                /\ avg_total s = 0%Q
                /\ avg_cleanup s = None
                /\ avg_breakdown s = None
                /\ avg_compression s = None).
Proof.
  split; [|split].
  - rewrite avg_defined. eexists. split; [reflexivity|].
    split; [now intros -> | destruct values; [easy | reflexivity]].
  - unfold main. destruct rows as [|r0 rows0]; [intros msg; discriminate|].
    set (rows := r0 :: rows0). set (success := filter (has_status "success") rows).
    pose proof (comprehension_safe (fun _ => Ok true) (duration parse_float "total")
                  success ltac:(intros ? ?; discriminate)
                  (duration_safe "total")) as S1.
    destruct (comprehension (fun _ => Ok true) _ success) as [totals|e1];
      [clear S1 | exact (raise_safe e1 S1)].
    pose proof (comprehension_safe (has_duration "cleanup")
                  (duration parse_float "cleanup") success
                  (has_duration_safe "cleanup") (duration_safe "cleanup")) as S2.
    destruct (comprehension (has_duration "cleanup") _ success) as [cleanup|e2];
      [clear S2 | exact (raise_safe e2 S2)].
    pose proof (comprehension_safe (has_duration "breakdown")
                  (duration parse_float "breakdown") success
                  (has_duration_safe "breakdown") (duration_safe "breakdown"))
      as S3.
    destruct (comprehension (has_duration "breakdown") _ success) as [breakdown|e3];
      [clear S3 | exact (raise_safe e3 S3)].
    match goal with
    | |- context [comprehension ?k ?f success] =>
        pose proof (comprehension_safe k f success
                      ltac:(intros ? ?; discriminate)
                      ltac:(intros r; cbv beta; destruct (Dict.get r "compression_ratio");
                            [apply to_float_safe | intros ?; discriminate])) as S4;
        destruct (comprehension k f success) as [compression|e4];
          [clear S4 | exact (raise_safe e4 S4)]
    end.
    rewrite avg_defined.
    destruct (avg_if_any_defined cleanup) as [o1 ->].
    destruct (avg_if_any_defined breakdown) as [o2 ->].
    destruct (avg_if_any_defined compression) as [o3 ->].
    intros msg. discriminate.
  - intros Hne Hnone. unfold main.
    destruct rows as [|r0 rows0]; [contradiction|].
    rewrite Hnone. simpl. eexists. split; [reflexivity|].
    repeat split.
Qed.

End Facts.
End ReportFacts.

(* ================================================================== *)
(** * Runs on concrete inputs *)
(* ================================================================== *)

Module Runs.
Import Str Pipeline PipelineSpec Examples PipelineExamples.

(** A memo recorded twice within one second gets the same id. *)
Lemma make_session_id_spec_witness :
  _make_session_id memo later_that_second = "20240307-090501-my-memo-1".
Proof.
  rewrite (proj2 (proj2 (SessionFacts.make_session_id_spec memo morning))
             later_that_second).
  - reflexivity.
  - repeat split.
Defined.

(** The backend is down and the failure handler cannot append its
    record: transcription succeeds, the cleanup call raises, and
    [process] raises the handler's [OSError] instead of returning
    [false]; no record is persisted.  And where the exception of the
    cleanup call has no text, the record's [error] field is empty. *)
Lemma cleanup_failure_unrecorded :
  let env := env_of backend_down failure_record_fails in
  let env' := env_of backend_mute no_io_error in
  (Transcription.transcribe (engine env) memo (transcriber fresh)
   = (Ok ("hello world", "whisper_local"),
      {| Transcription._model := true; Transcription.runs := 1 |})
   /\ fst (Llm.cleanup_transcription (cfg env) (backend env) "hello world"
             (llm fresh))
      = Raise (RequestException "connection refused")
   /\ fst (fst (run_process env fresh inbox memo false false))
      = Raise (OSError "No space left on device")
   /\ metrics_log (snd (run_process env fresh inbox memo false false)) = [])
  /\ (fst (Llm.cleanup_transcription (cfg env') (backend env') "hello world"
             (llm fresh))
      = Raise (RequestException "")
      /\ fst (fst (run_process env' fresh inbox memo false false)) = Ok false
      /\ map (fun r => Dict.get r "error")
           (metrics_log (snd (run_process env' fresh inbox memo false false)))
         = [Some (VStr "")]).
Proof. vm_compute. repeat split. Qed.

(** The backend is down and the files can be written: one [failed]
    record, the audio file stays in the inbox. *)
Lemma cleanup_failure_recorded_witness :
  let run := run_process (env_of backend_down no_io_error) fresh inbox memo
               false false in
  fst (fst run) = Ok false
  /\ map status_of (metrics_log (snd run)) = [Some (VStr "failed")]
  /\ audio_store (snd run) = [memo].
Proof.
  edestruct (PipelineFacts.cleanup_failure_recorded
               (env_of backend_down no_io_error) fresh inbox memo false)
    as (rec & w' & Hrun & Hlog & Hst & _ & _ & _ & _ & _ & _ & Haudio);
    [reflexivity | vm_compute; reflexivity | reflexivity | reflexivity
     | vm_compute; reflexivity | reflexivity | reflexivity | ].
  cbv zeta. rewrite Hrun. cbn [fst snd]. rewrite Hlog, Haudio.
  split; [reflexivity|]. split; [|reflexivity].
  cbn [inbox metrics_log app map]. unfold status_of. now rewrite Hst.
Defined.

(** A clean-only run whose event-log append fails leaves two records. *)
Lemma event_log_failure_appends_two_records_witness :
  let run := run_process (env_of backend_ok event_log_fails) fresh inbox memo
               false true in
  fst (fst run) = Ok false
  /\ map status_of (metrics_log (snd run))
     = [Some (VStr "success"); Some (VStr "failed")].
Proof.
  edestruct (PipelineFacts.event_log_failure_appends_two_records
               (env_of backend_ok event_log_fails) fresh inbox memo)
    as (r1 & r2 & w' & Hrun & Hlog & H1 & H2 & _);
    [ intros [] H; first [reflexivity | now elim H]
    | reflexivity | vm_compute; reflexivity | vm_compute; reflexivity
    | reflexivity | ].
  cbv zeta. rewrite Hrun. cbn [fst snd]. rewrite Hlog.
  split; [reflexivity|].
  cbn [inbox metrics_log app map]. unfold status_of. now rewrite H1, H2.
Defined.

(** Twelve cleaned characters out of eleven raw ones: ratio [1.0909]. *)
Lemma compression_ratio_recorded_witness :
  let run := run_process (env_of backend_ok no_io_error) fresh inbox memo
               false false in
  exists raw_text clean_text rec,
    String.length raw_text = 11 /\ String.length clean_text = 12
    /\ metrics_log (snd run) = [rec]
    /\ Dict.get rec "compression_ratio" = Some (VRatio 10909).
Proof.
  cbv zeta.
  destruct (PipelineFacts.compression_ratio_recorded
              (env_of backend_ok no_io_error) fresh
              (snd (fst (run_process (env_of backend_ok no_io_error) fresh
                           inbox memo false false)))
              inbox
              (snd (run_process (env_of backend_ok no_io_error) fresh
                      inbox memo false false))
              memo false)
    as (raw & m & tr' & clean & l' & rec & Ht & Hc & Hlog & _ & _ & _ & Hratio & _).
  - vm_compute. reflexivity.
  - vm_compute in Ht. injection Ht as <- _ _.
    vm_compute in Hc. injection Hc as <- _.
    exists "hello world", "cleaned text", rec.
    split; [reflexivity|]. split; [reflexivity|]. split; [exact Hlog|].
    exact Hratio.
Defined.

(** A clean-only run posts once, for the cleanup. *)
Lemma clean_only_skips_breakdown_witness :
  let run := run_process (env_of backend_ok no_io_error) fresh inbox memo
               false true in
  List.length (Llm.posts_sent (llm (snd (fst run)))) = 1
  /\ exists head_,
       capture_log (snd run)
       = [head_ ++ tasks_section "_Skipped due to --clean-only mode._"].
Proof.
  cbv zeta.
  destruct (PipelineFacts.clean_only_skips_breakdown
              (env_of backend_ok no_io_error) fresh
              (snd (fst (run_process (env_of backend_ok no_io_error) fresh
                           inbox memo false true)))
              inbox
              (snd (run_process (env_of backend_ok no_io_error) fresh
                      inbox memo false true))
              memo)
    as (raw & m & clean & tr' & rec & head_ & _ & _ & _ & _ & _ & _ & _ & _ & Hcap).
  - vm_compute. reflexivity.
  - split; [vm_compute; reflexivity|]. exists head_. exact Hcap.
Defined.

(** A log with one failed run: the report prints an average of [0.0]. *)
Lemma average_is_total_witness :
  exists s,
    MetricsReport.main (fun _ => None)
      [[("status", VStr "failed");
        ("durations_sec", VDict [("total", VSeconds 1200)])]]
    = Ok (Some s)
    /\ MetricsReport.successful_runs s = 0
    /\ MetricsReport.avg_total s = 0%Q
    /\ MetricsReport.avg_cleanup s = None.
Proof.
  destruct (proj2 (proj2 (ReportFacts.average_is_total (fun _ => None) []
              [[("status", VStr "failed");
                ("durations_sec", VDict [("total", VSeconds 1200)])]])))
    as (s & Hs & Hn & Ht & Hc & _).
  - discriminate.
  - reflexivity.
  - exists s. repeat split; assumption.
Defined.

End Runs.

(* ================================================================== *)
(** * Trimming and searching *)
(* ================================================================== *)

Module StripFacts.
Import Str SessionSpec StrFacts.

Section By.
Variable f : ascii -> bool.

Lemma lstrip_blank (s : string) :
  lstrip_by f s = "" <-> all_chars f s = true.
Proof.
  induction s as [|c s IH]; simpl; [tauto|].
  destruct (f c); simpl; [exact IH|]. split; discriminate.
Qed.

Lemma lstrip_id (s : string) :
  (forall c, first_char s = Some c -> f c = false) -> lstrip_by f s = s.
Proof.
  destruct s as [|c s]; simpl; [reflexivity|].
  intros H. now rewrite (H c eq_refl).
Qed.

Lemma rev_empty (s : string) : rev s = "" -> s = "".
Proof.
  destruct s as [|c s]; simpl; [reflexivity|].
  destruct (rev s); discriminate.
Qed.

(** Trimming leaves nothing exactly when every character is trimmed. *)
Lemma strip_by_blank (s : string) :
  strip_by f s = "" <-> all_chars f s = true.
Proof.
  unfold strip_by, rstrip_by. split.
  - intros H. apply rev_empty in H. apply lstrip_blank in H.
    rewrite SessionFacts.all_chars_rev in H.
    apply lstrip_blank.
    destruct (lstrip_by f s) as [|c x] eqn:E; [reflexivity|].
    pose proof (SessionFacts.lstrip_first f s c) as F. rewrite E in F.
    specialize (F eq_refl). simpl in H. rewrite F in H. discriminate.
  - intros H. apply lstrip_blank in H. now rewrite H.
Qed.

(** Trimming twice is trimming once. *)
Lemma strip_by_idem (s : string) :
  strip_by f (strip_by f s) = strip_by f s.
Proof.
  unfold strip_by at 1. rewrite lstrip_id.
  - unfold rstrip_by. rewrite lstrip_id.
    + apply SessionFacts.rev_involutive.
    + intros c. apply (SessionFacts.strip_last f s).
  - intros c. apply SessionFacts.strip_first.
Qed.

Lemma all_chars_concat (sep : string) (l : list string) :
  all_chars f sep = true ->
  Forall (fun s => all_chars f s = true) l ->
  all_chars f (String.concat sep l) = true.
Proof.
  intros Hs. induction 1 as [|x l Hx Hl IH]; [reflexivity|].
  simpl. destruct l as [|y l]; [exact Hx|].
  rewrite !SessionFacts.all_chars_app, Hx, Hs. exact IH.
Qed.

Lemma concat_all_chars (sep : string) (l : list string) :
  all_chars f (String.concat sep l) = true ->
  Forall (fun s => all_chars f s = true) l.
Proof.
  induction l as [|x l IH]; [constructor|].
  simpl. destruct l as [|y l].
  - intros H. constructor; [exact H | constructor].
  - rewrite !SessionFacts.all_chars_app. intros H.
    apply andb_true_iff in H as [Hx H]. apply andb_true_iff in H as [_ H].
    constructor; auto.
Qed.

End By.

End StripFacts.

(* ================================================================== *)
(** * What redaction removes *)
(* ================================================================== *)

Module PrivacyFacts.
Import Str Anonymization Redaction Privacy StrFacts.

Section Replace.
Variable eqc : ascii -> ascii -> bool.

Lemma prefix_by_cut (p s : string) :
  prefix_by eqc p s = true ->
  exists x y, s = x ++ y /\ String.length x = String.length p.
Proof.
  revert s. induction p as [|a p IH]; intros s; simpl.
  - intros _. now exists "", s.
  - destruct s as [|b s]; [discriminate|]. intros H.
    apply andb_true_iff in H as [_ H].
    destruct (IH _ H) as (x & y & -> & L).
    exists (String b x), y. simpl. now rewrite L.
Qed.

Lemma tails_app (a b t : string) :
  In t (tails (a ++ b)) ->
  (exists a1 a2, a = a1 ++ a2 /\ nonempty a2 = true /\ t = a2 ++ b)
  \/ In t (tails b).
Proof.
  induction a as [|c a IH]; [now right|].
  change (String c a ++ b) with (String c (a ++ b)).
  cbn [tails]. intros [<- | H].
  - left. now exists "", (String c a).
  - destruct (IH H) as [(a1 & a2 & -> & N & ->) | H']; [|now right].
    left. now exists (String c a1), a2.
Qed.

Lemma tails_suffix (x y t : string) :
  In t (tails y) -> In t (tails (x ++ y)).
Proof.
  intros H. induction x as [|c x IH]; [exact H|].
  change (String c x ++ y) with (String c (x ++ y)). cbn [tails]. now right.
Qed.

Lemma tails_nil (q t : string) :
  nonempty q = true -> In t (tails "") -> prefix_by eqc q t = false.
Proof. intros N [<- | []]. destruct q; [discriminate|reflexivity]. Qed.

(** A match at the start of the output that meets no replacement is a
    match at the start of the input. *)
Lemma replace_go_prefix (p : string) (h : ascii) (r' : string) :
  forall s q,
    avoids eqc q h = true ->
    prefix_by eqc q (replace_go eqc p (String h r') 0 s) = true ->
    prefix_by eqc q s = true.
Proof.
  induction s as [|c s IH]; intros q Av; [auto|].
  cbn [replace_go]. destruct (prefix_by eqc p (String c s)).
  - destruct q as [|a q]; [reflexivity|]. simpl in *.
    apply andb_true_iff in Av as [Av _]. apply negb_true_iff in Av.
    rewrite Av. discriminate.
  - destruct q as [|a q]; [reflexivity|]. simpl in *.
    apply andb_true_iff in Av as [_ Av].
    intros H. apply andb_true_iff in H as [-> H]. simpl. eauto.
Qed.

(** Replacing [p] by [r] leaves no match of [q], when [q] is [p] itself
    or had no match before, and [q] cannot match into or across [r]. *)
Lemma replace_go_free (p q : string) (h : ascii) (r' : string) :
  nonempty p = true -> nonempty q = true ->
  avoids eqc q h = true -> no_start_in eqc q (String h r') = true ->
  forall n s, String.length s <= n ->
    (q = p \/ forall t, In t (tails s) -> prefix_by eqc q t = false) ->
    forall t, In t (tails (replace_go eqc p (String h r') 0 s)) ->
      prefix_by eqc q t = false.
Proof.
  intros Np Nq Av Ns. induction n as [|n IH]; intros s L Hq t Ht.
  - destruct s; simpl in L; [|lia]. now apply tails_nil.
  - destruct s as [|c s]; [now apply tails_nil|].
    destruct (prefix_by eqc p (String c s)) eqn:E.
    + destruct (prefix_by_cut _ _ E) as (x & y & Exy & Lx).
      rewrite Exy in *.
      rewrite (RedactionFacts.replace_go_hit eqc p (String h r') x y Lx Np E) in Ht.
      apply tails_app in Ht as [(a1 & a2 & Ea & Na & ->) | Ht].
      * destruct (prefix_by eqc q (a2 ++ _)) eqn:F; [|reflexivity].
        apply RedactionFacts.prefix_by_agree in F.
        unfold no_start_in in Ns. rewrite forallb_forall in Ns.
        specialize (Ns a2). rewrite Ea in Ns.
        specialize (Ns (In_tails a1 a2)). rewrite Na, F in Ns. discriminate.
      * apply (IH y); auto.
        -- rewrite length_app in L. destruct p; [discriminate|].
           simpl in Lx. lia.
        -- destruct Hq as [-> | Hq]; [now left|]. right. intros t' Ht'.
           apply Hq. now apply tails_suffix.
    + pose proof Ht as Ht'. cbn [replace_go] in Ht'. rewrite E in Ht'.
      cbn [tails] in Ht'. destruct Ht' as [<- | Ht'].
      * destruct (prefix_by eqc q (String c _)) eqn:F; [|reflexivity].
        assert (prefix_by eqc q (String c s) = true) as G.
        { apply (replace_go_prefix p h r'); [exact Av|].
          cbn [replace_go]. rewrite E. exact F. }
        destruct Hq as [-> | Hq]; [congruence|].
        rewrite Hq in G; [discriminate|]. simpl. now left.
      * apply (IH s); auto.
        -- simpl in L. lia.
        -- destruct Hq as [-> | Hq]; [now left|]. right. intros t' Ht''.
           apply Hq. simpl. now right.
Qed.

(** A text put between two characters that [q] cannot cross has a match
    of [q] only where its parts have one. *)
Lemma free_app (q x : string) (h : ascii) (y : string) :
  nonempty q = true -> avoids eqc q h = true ->
  (forall t, In t (tails x) -> prefix_by eqc q t = false) ->
  (forall t, In t (tails y) -> prefix_by eqc q t = false) ->
  forall t, In t (tails (x ++ String h y)) -> prefix_by eqc q t = false.
Proof.
  intros Nq Av Hx Hy t Ht.
  apply tails_app in Ht as [(a1 & a2 & -> & Na & ->) | Ht].
  - destruct (prefix_by eqc q (a2 ++ String h y)) eqn:F; [|reflexivity].
    apply (RedactionFacts.prefix_by_stop eqc q a2 h y "") in F; [|exact Av].
    rewrite app_nil_r in F. rewrite Hx in F; [discriminate|]. apply In_tails.
  - cbn [tails] in Ht. destruct Ht as [<- | Ht]; [|now apply Hy].
    destruct q as [|a q]; [discriminate|]. simpl in *.
    apply andb_true_iff in Av as [Av _]. apply negb_true_iff in Av.
    now rewrite Av.
Qed.

End Replace.

Lemma search_ci_false (q s : string) :
  search_ci q s = false <-> forall t, In t (tails s) -> match_ci q t = false.
Proof.
  unfold search_ci. split.
  - intros H t Ht. destruct (match_ci q t) eqn:E; [|reflexivity].
    rewrite <- H. symmetry. apply existsb_exists. now exists t.
  - intros H. destruct (existsb _ _) eqn:E; [|reflexivity].
    apply existsb_exists in E as (t & Ht & E). now rewrite H in E.
Qed.

Lemma In_set (d : Dict.dict string) (k0 v0 k v : string) :
  In (k, v) (Dict.set d k0 v0) -> (k, v) = (k0, v0) \/ In (k, v) d.
Proof.
  induction d as [|[k' v'] d IH]; simpl.
  - intros [H | []]. now left.
  - destruct (String.eqb k' k0); simpl.
    + intros [H | H]; [now left | now right; right].
    + intros [H | H]; [now right; left|].
      destruct (IH H); [now left | now right; right].
Qed.

Section Table.
Variable tbl : list (string * string).
Hypothesis tbl_ok : table_ok tbl = true.

(** One substitution removes its own term and brings back no other. *)
Lemma sub_ci_free (o p o' p' s : string) :
  In (o, p) tbl -> In (o', p') tbl ->
  o' = o \/ search_ci o' s = false ->
  search_ci o' (sub_ci o p s) = false.
Proof.
  intros H H' Hq.
  destruct (RedactionFacts.tbl_nonempty tbl tbl_ok _ _ H) as [No Np].
  destruct (RedactionFacts.tbl_nonempty tbl tbl_ok _ _ H') as [No' _].
  pose proof (RedactionFacts.tbl_separated tbl tbl_ok _ _ H' H) as S.
  unfold separated in S.
  apply andb_true_iff in S as [S _]. apply andb_true_iff in S as [S _].
  apply andb_true_iff in S as [S _]. apply andb_true_iff in S as [S1 S2].
  destruct p as [|h r']; [discriminate|]. simpl in S2.
  apply search_ci_false. unfold sub_ci, match_ci.
  apply (replace_go_free ci_eq o o' h r' No No' S2 S1 (String.length s) s
           (le_n _)).
  destruct Hq as [-> | Hq]; [now left|]. right.
  now apply search_ci_false.
Qed.

Lemma anonymize_loop_free (o' p' : string) :
  In (o', p') tbl ->
  forall items s rmap,
    incl items tbl ->
    search_ci o' s = false \/ (exists p, In (o', p) items) ->
    search_ci o' (fst (anonymize_loop items s rmap)) = false.
Proof.
  intros H'. induction items as [|[o p] rest IH]; intros s rmap Hin Hq.
  - destruct Hq as [Hq | [p []]]. exact Hq.
  - assert (In (o, p) tbl) as H by (apply Hin; now left).
    assert (incl rest tbl) as Hrest by (intros e He; apply Hin; now right).
    cbn [anonymize_loop]. destruct (search_ci o s) eqn:E.
    + apply IH; [exact Hrest|].
      destruct Hq as [Hq | [p1 [[= -> ->] | Hq]]].
      * left. apply (sub_ci_free o p o' p'); auto.
      * left. apply (sub_ci_free o' p1 o' p'); auto.
      * right. now exists p1.
    + apply IH; [exact Hrest|].
      destruct Hq as [Hq | [p1 [[= -> ->] | Hq]]].
      * now left.
      * now left.
      * right. now exists p1.
Qed.

Lemma anonymize_loop_found (text : string) :
  forall items s rmap,
    incl items tbl ->
    (forall o' p', In (o', p') tbl ->
                   search_ci o' text = false -> search_ci o' s = false) ->
    forall p o, In (p, o) (snd (anonymize_loop items s rmap)) ->
      In (p, o) rmap \/ (In (o, p) items /\ search_ci o text = true).
Proof.
  induction items as [|[o0 p0] rest IH]; intros s rmap Hin Inv p o; [now left|].
  assert (In (o0, p0) tbl) as H by (apply Hin; now left).
  assert (incl rest tbl) as Hrest by (intros e He; apply Hin; now right).
  cbn [anonymize_loop]. destruct (search_ci o0 s) eqn:E.
  - intros Hp. apply IH in Hp; [|exact Hrest|].
    + destruct Hp as [Hp | [Hp Hs]]; [|right; split; [now right | exact Hs]].
      apply In_set in Hp as [[= -> ->] | Hp]; [|now left].
      right. split; [now left|].
      destruct (search_ci o0 text) eqn:F; [reflexivity|].
      rewrite (Inv _ _ H F) in E. discriminate.
    + intros o' p' H' F. apply (sub_ci_free o0 p0 o' p'); auto.
      right. now apply (Inv o' p').
  - intros Hp. apply IH in Hp; auto.
    destruct Hp as [Hp | [Hp Hs]]; [now left|]. right. split; [now right | exact Hs].
Qed.

Lemma anonymize_loop_none (items : list (string * string)) (s : string)
  (rmap : Dict.dict string) :
  term_free items s = true -> anonymize_loop items s rmap = (s, rmap).
Proof.
  induction items as [|[o p] rest IH]; [reflexivity|].
  unfold term_free. simpl. intros H. apply andb_true_iff in H as [H1 H2].
  apply negb_true_iff in H1. rewrite H1. now apply IH.
Qed.

End Table.

(** X1. The redacted text holds none of the sensitive terms, however they are
    cased, whatever the text was. *)
Theorem anonymized_text_is_term_free (text : string) :
  term_free ANONYMIZATION_MAP (fst (anonymize text)) = true.
Proof.
  unfold term_free. apply forallb_forall. intros [o p] H. simpl.
  apply negb_true_iff.
  apply (anonymize_loop_free _ RedactionTheorems.ANONYMIZATION_MAP_ok o p H).
  - apply incl_refl.
  - right. now exists p.
Qed.

(** X2. The reverse map lists entries of the table only, and only for terms
    that occur in the text; a text without any term comes back unchanged
    with an empty map. *)
Theorem reverse_map_lists_found_terms (text : string) :
  (forall p o, In (p, o) (snd (anonymize text)) ->
               In (o, p) ANONYMIZATION_MAP /\ search_ci o text = true)
  /\ (term_free ANONYMIZATION_MAP text = true -> anonymize text = (text, [])).
Proof.
  split.
  - intros p o H.
    apply (anonymize_loop_found _ RedactionTheorems.ANONYMIZATION_MAP_ok text)
      in H as [[] | H]; auto.
    apply incl_refl.
  - apply anonymize_loop_none.
Qed.

(** A note that names a tool and one that names none. *)
Lemma reverse_map_lists_found_terms_witness :
  (In ("Obsidian", "[TOOL_A]") ANONYMIZATION_MAP
   /\ search_ci "Obsidian" "file it in OBSIDIAN" = true)
  /\ anonymize "buy milk" = ("buy milk", []).
Proof.
  split.
  - apply (proj1 (reverse_map_lists_found_terms "file it in OBSIDIAN") "[TOOL_A]").
    vm_compute. now left.
  - apply (proj2 (reverse_map_lists_found_terms "buy milk")). reflexivity.
Defined.

End PrivacyFacts.

(* ================================================================== *)
(** * The local client: what a call sends and returns *)
(* ================================================================== *)

Module ClientFacts.
Import Str Llm LlmSpec Privacy.

Lemma extract_content_trimmed (p : Payload) (c : string) :
  extract_content p = Ok c -> trimmed c.
Proof.
  unfold extract_content, trimmed, strip.
  destruct (first_choice p) as [ch|e]; [|discriminate].
  destruct (content_of ch) as [[| |x]|e]; try discriminate;
    intros [= <-]; apply StripFacts.strip_by_idem.
Qed.

(** A body of the wrong shape raises an exception the retry loop does not
    catch. *)
Lemma extract_content_not_retryable (p : Payload) (e : exn) :
  extract_content p = Raise e -> retryable e = false.
Proof.
  unfold extract_content, first_choice, content_of.
  destruct (choices p) as [| |[|ch rest]]; simpl.
  all: try (destruct (message ch) as [| |m]; simpl).
  all: try (destruct (content m) as [| |c]; simpl).
  all: intros H; try discriminate H; now injection H as <-.
Qed.

Lemma attempt_once_ok (o : post_outcome) (c : string) :
  attempt_once o = Ok c -> c <> "" /\ trimmed c.
Proof.
  destruct o as [msg | p]; simpl; [discriminate|].
  destruct (extract_content p) as [[|a x]|e] eqn:E; try discriminate.
  intros [= <-]. split; [discriminate|]. now apply extract_content_trimmed in E.
Qed.

Section Loop.
Variables (be : Backend) (prompt : string) (attempts : nat).

(** The loop touches nothing but the log of posts, posts at most once per
    iteration left, and hands out only what one attempt produced. *)
Lemma attempt_loop_shape :
  forall todo attempt last_error self,
    let run := attempt_loop be prompt todo attempt attempts last_error self in
    _local_llm_checked (snd run) = _local_llm_checked self
    /\ probes_sent (snd run) = probes_sent self
    /\ anthropic_client (snd run) = anthropic_client self
    /\ remote_sent (snd run) = remote_sent self
    /\ (exists k, posts_sent (snd run) = (posts_sent self ++ repeat prompt k)%list
                  /\ k <= todo)
    /\ (forall c, fst run = Returned c -> c <> "" /\ trimmed c)
    /\ (forall e, fst run = Propagated e -> retryable e = false).
Proof.
  induction todo as [|todo IH]; intros attempt last_error self; cbn zeta.
  - simpl. repeat split; try discriminate. exists 0. simpl.
    split; [now rewrite app_nil_r | lia].
  - cbn [attempt_loop].
    destruct (attempt_once _) as [c|e] eqn:A.
    + simpl. repeat split; try discriminate.
      * exists 1. split; [reflexivity | lia].
      * injection H as <-. now apply attempt_once_ok in A.
      * injection H as <-. now apply attempt_once_ok in A.
    + destruct (retryable e) eqn:R.
      * destruct (attempts <=? attempt).
        -- simpl. repeat split; try discriminate.
           exists 1. split; [reflexivity | lia].
        -- specialize (IH (S attempt) (Some e) (log_post prompt self)).
           cbn zeta in IH.
           destruct IH as (I1 & I2 & I3 & I4 & (k & I5 & I6) & I7 & I8).
           split; [exact I1|]. split; [exact I2|]. split; [exact I3|].
           split; [exact I4|]. split; [|split; assumption].
           exists (S k). split; [|lia]. rewrite I5. simpl.
           now rewrite <- app_assoc.
      * simpl. repeat split; try discriminate.
        -- exists 1. split; [reflexivity | lia].
        -- intros e' [= <-]. exact R.
Qed.

End Loop.

Lemma attempts_of_pos (cfg : Config) :
  1 <= attempts_of cfg
  /\ (Z.of_nat (attempts_of cfg) = Z.max 1 (LOCAL_LLM_RETRIES cfg + 1))%Z.
Proof. unfold attempts_of. lia. Qed.

(** What the reachability check leaves behind. *)
Lemma check_shape (be : Backend) (self : LLMProcessor) :
  let c := _check_local_llm be self in
  posts_sent (snd c) = posts_sent self
  /\ remote_sent (snd c) = remote_sent self
  /\ anthropic_client (snd c) = anthropic_client self
  /\ probes_sent (snd c) <= S (probes_sent self)
  /\ (_local_llm_checked self = true -> c = (Ok tt, self))
  /\ (fst c = Ok tt -> _local_llm_checked (snd c) = true)
  /\ (forall e, fst c = Raise e ->
        (exists msg, e = RequestException msg)
        /\ _local_llm_checked (snd c) = false).
Proof.
  unfold _check_local_llm. destruct (_local_llm_checked self) eqn:C.
  - simpl. repeat split; auto; discriminate.
  - destruct (probe be (probes_sent self)) as [msg|]; simpl;
      repeat split; auto; try discriminate.
    injection H as <-. now exists msg.
Qed.

Lemma local_completion_ok (cfg : Config) (be : Backend)
  (prompt temperature operation : string) (self self' : LLMProcessor)
  (c : string) :
  _local_chat_completion cfg be prompt temperature operation self = (Ok c, self') ->
  c <> "" /\ trimmed c /\ _local_llm_checked self' = true.
Proof.
  unfold _local_chat_completion.
  pose proof (check_shape be self) as S. cbn zeta in S.
  destruct (_check_local_llm be self) as [[[]|e] self1]; [|discriminate].
  destruct S as (_ & _ & _ & _ & _ & S & _). specialize (S eq_refl).
  pose proof (attempt_loop_shape be prompt (attempts_of cfg) (attempts_of cfg)
                1 None self1) as L. cbn zeta in L.
  destruct (attempt_loop _ _ _ _ _ _ _) as [[x|e|le] self2]; try discriminate.
  destruct L as (L1 & _ & _ & _ & _ & L6 & _). simpl in *.
  intros [= <- <-]. destruct (L6 x eq_refl). repeat split; auto.
  now rewrite L1.
Qed.

(** X3. A completion that returns gives non-empty text without surrounding
    whitespace, and leaves the backend marked as reachable. *)
Theorem local_completion_content (cfg : Config) (be : Backend)
  (prompt temperature operation : string) (self self' : LLMProcessor)
  (c : string) :
  _local_chat_completion cfg be prompt temperature operation self = (Ok c, self') ->
  c <> "" /\ trimmed c /\ _local_llm_checked self' = true.
Proof. apply local_completion_ok. Qed.

Lemma local_completion_shape (cfg : Config) (be : Backend)
  (prompt temperature operation : string) (self : LLMProcessor) :
  let self' :=
    snd (_local_chat_completion cfg be prompt temperature operation self) in
  (exists k,
     posts_sent self' = (posts_sent self ++ repeat prompt k)%list
     /\ (Z.of_nat k <= Z.max 1 (LOCAL_LLM_RETRIES cfg + 1))%Z)
  /\ probes_sent self' <= S (probes_sent self)
  /\ remote_sent self' = remote_sent self
  /\ anthropic_client self' = anthropic_client self.
Proof.
  cbn zeta. unfold _local_chat_completion.
  pose proof (check_shape be self) as S. cbn zeta in S.
  destruct (_check_local_llm be self) as [[[]|e] self1]; simpl in S;
    destruct S as (S1 & S2 & S3 & S4 & _).
  - pose proof (attempt_loop_shape be prompt (attempts_of cfg) (attempts_of cfg)
                  1 None self1) as L. cbn zeta in L.
    destruct (attempts_of_pos cfg) as [_ A].
    destruct (attempt_loop _ _ _ _ _ _ _) as [x self2]; simpl in L.
    destruct L as (_ & L2 & L3 & L4 & (k & L5 & L6) & _).
    assert (posts_sent self2 = (posts_sent self ++ repeat prompt k)%list
            /\ probes_sent self2 <= S (probes_sent self)
            /\ remote_sent self2 = remote_sent self
            /\ anthropic_client self2 = anthropic_client self) as (G1 & G2 & G3 & G4)
      by (repeat split; congruence || lia).
    destruct x; simpl; (split; [exists k; split; [exact G1 | lia] | auto]).
  - simpl. split; [|auto]. exists 0. simpl. rewrite app_nil_r.
    split; [exact S1 | lia].
Qed.

(** X4. One call sends at most one probe and at most [max(1, retries + 1)]
    posts, all with its own prompt, and nothing to the remote backend. *)
Theorem local_completion_request_bound (cfg : Config) (be : Backend)
  (prompt temperature operation : string) (self : LLMProcessor) :
  let self' :=
    snd (_local_chat_completion cfg be prompt temperature operation self) in
  (exists k,
     posts_sent self' = (posts_sent self ++ repeat prompt k)%list
     /\ (Z.of_nat k <= Z.max 1 (LOCAL_LLM_RETRIES cfg + 1))%Z)
  /\ probes_sent self' <= S (probes_sent self)
  /\ remote_sent self' = remote_sent self.
Proof.
  cbn zeta.
  destruct (local_completion_shape cfg be prompt temperature operation self)
    as (H1 & H2 & H3 & _).
  auto.
Qed.

(** X5. A reply of the wrong shape is not retried: after a passed check, a
    first body from which no content can be read makes the call raise
    that exception after a single post, whatever the retry count. *)
Theorem malformed_reply_not_retried (cfg : Config) (be : Backend)
  (prompt temperature operation : string) (self : LLMProcessor)
  (p : Payload) (e : exn) :
  fst (_check_local_llm be self) = Ok tt ->
  completion be (List.length (posts_sent self)) = PostJson p ->
  extract_content p = Raise e ->
  let call := _local_chat_completion cfg be prompt temperature operation self in
  fst call = Raise e
  /\ posts_sent (snd call) = (posts_sent self ++ [prompt])%list
  /\ retryable e = false.
Proof.
  intros Hc Hp He. cbn zeta. unfold _local_chat_completion.
  pose proof (check_shape be self) as S. cbn zeta in S.
  destruct (_check_local_llm be self) as [[[]|e0] self1]; simpl in Hc, S;
    [|discriminate].
  destruct S as (S1 & _).
  destruct (attempts_of_pos cfg) as [A _].
  destruct (attempts_of cfg) as [|n]; [lia|].
  cbn [attempt_loop]. rewrite S1, Hp. simpl. rewrite He.
  rewrite (extract_content_not_retryable p e He). simpl.
  rewrite S1. repeat split.
Qed.



(* ================================================================== *)
(** * The breakdown: routing and what leaves the machine *)
(* ================================================================== *)

Lemma prefix_by_app (eqc : ascii -> ascii -> bool) (q t z : string) :
  prefix_by eqc q t = true -> prefix_by eqc q (t ++ z) = true.
Proof.
  revert t. induction q as [|a q IH]; intros [|b t]; simpl; auto; try discriminate.
  intros H. apply andb_true_iff in H as [-> H]. simpl. auto.
Qed.

Lemma remote_prompt_shape :
  exists A B, forall input,
    remote_breakdown_prompt input
    = A ++ String "010" (input ++ String "010" B).
Proof.
  exists ("Break this into specific next actions." ++ nl ++ nl ++ "Task:"),
    (nl ++ "Output markdown checklist only." ++ nl
     ++ "Format:" ++ nl
     ++ "- [ ] Action (~time) #tags" ++ nl ++ nl
     ++ "Include dependencies and execution order if relevant.").
  intros input. reflexivity.
Qed.

(** The template adds no term: a term that cannot cross a line break and
    occurs neither in the bare template nor in the text put into it does
    not occur in the prompt. *)
Lemma remote_prompt_free (q input : string) :
  Redaction.nonempty q = true ->
  Redaction.avoids Anonymization.ci_eq q "010" = true ->
  Anonymization.search_ci q (remote_breakdown_prompt "") = false ->
  Anonymization.search_ci q input = false ->
  Anonymization.search_ci q (remote_breakdown_prompt input) = false.
Proof.
  intros Nq Av T I. destruct remote_prompt_shape as (A & B & E).
  rewrite E in *. rewrite PrivacyFacts.search_ci_false in *.
  unfold Anonymization.match_ci in *.
  apply PrivacyFacts.free_app; auto.
  - intros t Ht. destruct (prefix_by _ q t) eqn:F; [|reflexivity].
    destruct (StrFacts.tails_split _ _ Ht) as [a1 ->].
    rewrite <- (T (t ++ String "010" ("" ++ String "010" B))).
    + symmetry. now apply prefix_by_app.
    + rewrite StrFacts.app_assoc. apply StrFacts.In_tails.
  - apply PrivacyFacts.free_app; auto.
    intros t Ht. apply T. apply PrivacyFacts.tails_suffix.
    simpl. right. right. exact Ht.
Qed.

Lemma remote_prompt_term_free (input : string) :
  term_free Anonymization.ANONYMIZATION_MAP input = true ->
  term_free Anonymization.ANONYMIZATION_MAP (remote_breakdown_prompt input) = true.
Proof.
  unfold term_free. rewrite !forallb_forall. intros H e He.
  specialize (H e He). apply negb_true_iff in H. apply negb_true_iff.
  assert (forallb (fun e =>
                     Redaction.nonempty (fst e)
                     && Redaction.avoids Anonymization.ci_eq (fst e) "010"
                     && negb (Anonymization.search_ci (fst e)
                                (remote_breakdown_prompt "")))
            Anonymization.ANONYMIZATION_MAP = true) as C
    by (vm_compute; reflexivity).
  rewrite forallb_forall in C. specialize (C e He).
  apply andb_true_iff in C as [C C3]. apply andb_true_iff in C as [C1 C2].
  apply negb_true_iff in C3. now apply remote_prompt_free.
Qed.

Lemma text_parts_nonempty (blocks : list (option string)) :
  Forall (fun s => s <> "") (text_parts blocks).
Proof.
  induction blocks as [|[[|c s]|] rest IH]; simpl; auto.
  constructor; [discriminate | exact IH].
Qed.

Lemma remote_breakdown_shape (cfg : Config) (be : Backend)
  (clean_text : string) (self : LLMProcessor) :
  let call := breakdown_with_claude cfg be clean_text self in
  (has_credential self = false ->
   call = (Raise (ValueError "ANTHROPIC_API_KEY is not configured"), self))
  /\ (has_credential self = true ->
      exists prompt,
        remote_sent (snd call) = (remote_sent self ++ [prompt])%list
        /\ (ANONYMIZE_FOR_CLAUDE cfg = true ->
            term_free Anonymization.ANONYMIZATION_MAP prompt = true)
        /\ (ANONYMIZE_FOR_CLAUDE cfg = false ->
            prompt = remote_breakdown_prompt clean_text))
  /\ posts_sent (snd call) = posts_sent self
  /\ probes_sent (snd call) = probes_sent self
  /\ anthropic_client (snd call) = anthropic_client self
  /\ (forall r, fst call = Ok r -> r <> "").
Proof.
  cbn zeta. unfold has_credential, breakdown_with_claude.
  destruct (anthropic_client self) as [key|] eqn:K.
  - split; [discriminate|].
    pose proof (PrivacyFacts.anonymized_text_is_term_free clean_text) as F.
    destruct (ANONYMIZE_FOR_CLAUDE cfg);
      [destruct (Anonymization.anonymize clean_text) as [input rmap]|];
      (destruct (remote be _) as [e|blocks];
       [|match goal with
         | |- context [match ?x with "" => _ | String _ _ => _ end] =>
             destruct x eqn:?
         end]);
      simpl; (split; [intros _; eexists; split; [reflexivity|]; split;
                      [intros; first [now apply remote_prompt_term_free
                                     | discriminate | reflexivity]
                      | intros; first [discriminate | reflexivity]]|]);
      repeat split; auto; try discriminate; intros r [= <-]; discriminate.
  - split; [reflexivity|]. split; [discriminate|]. simpl.
    repeat split; auto. discriminate.
Qed.

(** X8. The remote breakdown needs a client: without one it raises its
    [ValueError] and sends nothing.  With one it sends exactly one request
    and, with redaction on, that request holds none of the sensitive
    terms in any casing.  What it returns is never empty. *)
Theorem remote_breakdown_contract (cfg : Config) (be : Backend)
  (clean_text : string) (self : LLMProcessor) :
  let call := breakdown_with_claude cfg be clean_text self in
  (has_credential self = false ->
   call = (Raise (ValueError "ANTHROPIC_API_KEY is not configured"), self))
  /\ (has_credential self = true ->
      exists prompt,
        remote_sent (snd call) = (remote_sent self ++ [prompt])%list
        /\ (ANONYMIZE_FOR_CLAUDE cfg = true ->
            term_free Anonymization.ANONYMIZATION_MAP prompt = true))
  /\ (forall r, fst call = Ok r -> r <> "").
Proof.
  cbn zeta.
  destruct (remote_breakdown_shape cfg be clean_text self)
    as (H1 & H2 & _ & _ & _ & H3).
  split; [exact H1|]. split; [|exact H3].
  intros K. destruct (H2 K) as (prompt & P1 & P2 & _). now exists prompt.
Qed.

(** What a breakdown adds to the log of remote requests. *)
Lemma breakdown_tasks_log (cfg : Config) (be : Backend)
  (clean_text : string) (self : LLMProcessor) :
  let self' := snd (breakdown_tasks cfg be clean_text self) in
  anthropic_client self' = anthropic_client self
  /\ exists added,
       remote_sent self' = (remote_sent self ++ added)%list
       /\ List.length added <= 1
       /\ (USE_CLAUDE_FOR_COMPLEX cfg = false \/ has_credential self = false ->
           added = [])
       /\ (ANONYMIZE_FOR_CLAUDE cfg = true ->
           Forall (fun prompt =>
                     term_free Anonymization.ANONYMIZATION_MAP prompt = true)
             added).
Proof.
  cbn zeta. unfold breakdown_tasks.
  destruct (should_use_claude cfg self clean_text) eqn:R.
  - assert (USE_CLAUDE_FOR_COMPLEX cfg = true /\ has_credential self = true)
      as [U K].
    { unfold should_use_claude, has_credential in *.
      destruct (USE_CLAUDE_FOR_COMPLEX cfg); [|discriminate].
      destruct (anthropic_client self); [now split | discriminate]. }
    destruct (remote_breakdown_shape cfg be clean_text self)
      as (_ & H2 & _ & _ & H3 & _).
    destruct (H2 K) as (prompt & P1 & P2 & _).
    destruct (breakdown_with_claude cfg be clean_text self) as [[r|e] s];
      simpl in *; (split; [exact H3|]); exists [prompt];
      (split; [exact P1|]); (split; [simpl; lia|]);
      (split; [intros [? | ?]; congruence|]);
      intros A; constructor; auto.
  - unfold breakdown_with_local_llm.
    destruct (local_completion_shape cfg be (local_breakdown_prompt clean_text)
                "0.2" "task breakdown" self) as (_ & _ & H3 & H4).
    destruct (_local_chat_completion _ _ _ _ _ _) as [[r|e] s];
      simpl in *; (split; [exact H4|]); exists [];
      rewrite app_nil_r; repeat split; auto.
Qed.

(** X9. With remote breakdown switched off, or without a remote client, a
    breakdown sends nothing to the remote backend, and what it returns is
    the local model's non-empty, trimmed answer under the label
    [local_llm]. *)
Theorem breakdown_stays_local (cfg : Config) (be : Backend)
  (clean_text : string) (self : LLMProcessor) :
  USE_CLAUDE_FOR_COMPLEX cfg = false \/ has_credential self = false ->
  let call := breakdown_tasks cfg be clean_text self in
  remote_sent (snd call) = remote_sent self
  /\ forall r m, fst call = Ok (r, m) ->
                 m = "local_llm" /\ r <> "" /\ trimmed r.
Proof.
  intros H. cbn zeta.
  destruct (breakdown_tasks_log cfg be clean_text self)
    as (_ & added & A1 & _ & A2 & _).
  rewrite (A2 H), app_nil_r in A1. split; [exact A1|].
  unfold breakdown_tasks.
  assert (should_use_claude cfg self clean_text = false) as ->.
  { unfold should_use_claude, has_credential in *.
    destruct H as [-> | H]; [reflexivity|].
    destruct (anthropic_client self); [discriminate|].
    now rewrite orb_true_r. }
  unfold breakdown_with_local_llm.
  destruct (_local_chat_completion _ _ _ _ _ _) as [[c|e] s] eqn:E; simpl;
    intros r m [= <- <-].
  apply local_completion_ok in E as (E1 & E2 & _). auto.
Qed.

End ClientFacts.

Module ClientRuns.
Import Str Llm LlmSpec Privacy Examples ClientExamples.

(** Two failures, then an answer padded with blanks. *)
Lemma local_completion_content_witness :
  "done" <> "" /\ trimmed "done"
  /\ _local_llm_checked
       (snd (_local_chat_completion cfg_two_retries backend_fail_fail_ok
               "prompt" "0.2" "cleanup" (init cfg_two_retries))) = true.
Proof.
  apply (ClientFacts.local_completion_content cfg_two_retries
           backend_fail_fail_ok "prompt" "0.2" "cleanup" (init cfg_two_retries)).
  vm_compute. reflexivity.
Defined.

(** An empty list of choices, with two retries configured: one post. *)
Lemma malformed_reply_not_retried_witness :
  let call := _local_chat_completion cfg_two_retries backend_malformed
                "prompt" "0.2" "cleanup" (init cfg_two_retries) in
  fst call = Raise (IndexError "list index out of range")
  /\ posts_sent (snd call) = ["prompt"]
  /\ retryable (IndexError "list index out of range") = false.
Proof.
  apply (ClientFacts.malformed_reply_not_retried cfg_two_retries
           backend_malformed "prompt" "0.2" "cleanup" (init cfg_two_retries)
           {| choices := Present [] |}); reflexivity.
Defined.


(** An unreachable backend: the probe's error comes out, nothing is posted. *)
Lemma probe_failure_not_retried_witness :
  let call := _local_chat_completion cfg_two_retries
                PipelineExamples.backend_down "prompt" "0.2" "cleanup"
                (init cfg_two_retries) in
  fst call = Raise (RequestException "connection refused")
  /\ posts_sent (snd call) = [].
Proof.
  apply (LlmFacts.probe_failure_not_retried cfg_two_retries
           PipelineExamples.backend_down "prompt" "0.2" "cleanup"
           (init cfg_two_retries) "connection refused"); reflexivity.
Defined.

(** A long-winded note with the remote breakdown switched off. *)
Lemma breakdown_stays_local_witness :
  let call := breakdown_tasks cfg_local_only backend_remote
                "plan the launch step by step" (init cfg_local_only) in
  remote_sent (snd call) = []
  /\ fst call = Ok ("- [ ] local", "local_llm").
Proof.
  cbv zeta.
  destruct (ClientFacts.breakdown_stays_local cfg_local_only backend_remote
              "plan the launch step by step" (init cfg_local_only))
    as [H1 H2].
  - left. reflexivity.
  - split; [exact H1|]. vm_compute. reflexivity.
Defined.

(** A note that names Google, sent with redaction on: the request holds
    no term, and the placeholder in the reply is put back. *)
Lemma remote_breakdown_contract_witness :
  let call := breakdown_with_claude cfg_with_key backend_remote
                "ask google about the Plan" (init cfg_with_key) in
  (exists prompt,
     remote_sent (snd call) = [prompt]
     /\ term_free Anonymization.ANONYMIZATION_MAP prompt = true)
  /\ fst call = Ok ("- [ ] ask Google" ++ nl ++ "- [ ] done").
Proof.
  cbv zeta.
  destruct (ClientFacts.remote_breakdown_contract cfg_with_key backend_remote
              "ask google about the Plan" (init cfg_with_key))
    as (_ & H2 & _).
  destruct (H2 eq_refl) as (prompt & P1 & P2).
  split; [|vm_compute; reflexivity].
  exists prompt. split; [exact P1 | now apply P2].
Defined.

End ClientRuns.

(* ================================================================== *)
(** * Transcription *)
(* ================================================================== *)

Module TranscriptionFacts.
Import Str Transcription Privacy.

Lemma strip_blank_iff (s : string) : blank (strip s) = true <-> blank s = true.
Proof.
  unfold blank, strip. rewrite <- !StripFacts.strip_by_blank.
  now rewrite StripFacts.strip_by_idem.
Qed.

Lemma load_model_shape (eng : Engine) (self : Transcriber) :
  let c := _load_model eng self in
  runs (snd c) = runs self
  /\ (fst c = Ok tt -> _model (snd c) = true)
  /\ (_model self = true \/ load eng = None -> fst c = Ok tt).
Proof.
  unfold _load_model. destruct (_model self) eqn:M; simpl.
  - repeat split; auto.
  - destruct (load eng) as [msg|]; simpl; repeat split; auto; try discriminate.
    intros [H | H]; discriminate.
Qed.

(** X10. A transcription that returns gives non-empty text without
    surrounding whitespace under the label [whisper_local]; the model is
    loaded afterwards and one more run has been started. *)
Theorem transcribe_text_shape (eng : Engine) (audio_path : Path.t)
  (self self' : Transcriber) (text method : string) :
  transcribe eng audio_path self = (Ok (text, method), self') ->
  text <> "" /\ trimmed text /\ method = "whisper_local"
  /\ _model self' = true /\ runs self' = S (runs self).
Proof.
  unfold transcribe.
  pose proof (load_model_shape eng self) as L. cbn zeta in L.
  destruct (_load_model eng self) as [[[]|e] self1]; [|discriminate].
  simpl in L. destruct L as (L1 & L2 & _). specialize (L2 eq_refl).
  destruct (run eng (runs self1)) as [msg|segments]; [discriminate|].
  destruct (strip (join " " (map strip segments))) as [|c x] eqn:E;
    [discriminate|].
  cbv zeta. intros H. injection H as <- <- <-. simpl.
  split; [discriminate|]. split; [|repeat split; congruence].
  rewrite <- E. unfold trimmed, strip. apply StripFacts.strip_by_idem.
Qed.

(** X11. Once the model is available and the engine yields its segments, the
    call raises [ValueError("Transcription returned empty text")] exactly
    when every segment is blank (in particular when there is none). *)
Theorem transcribe_empty_iff (eng : Engine) (audio_path : Path.t)
  (self : Transcriber) (segments : list string) :
  _model self = true \/ load eng = None ->
  run eng (runs self) = inr segments ->
  (fst (transcribe eng audio_path self)
   = Raise (ValueError "Transcription returned empty text")
   <-> Forall (fun s => blank s = true) segments).
Proof.
  intros Hm Hr. unfold transcribe.
  pose proof (load_model_shape eng self) as L. cbn zeta in L.
  destruct L as (L1 & _ & L3). specialize (L3 Hm).
  destruct (_load_model eng self) as [[[]|e] self1]; [|discriminate].
  simpl in L1. rewrite L1, Hr.
  assert (strip (join " " (map strip segments)) = ""
          <-> Forall (fun s => blank s = true) segments) as B.
  { unfold strip at 1. rewrite StripFacts.strip_by_blank. unfold join. split.
    - intros H. apply StripFacts.concat_all_chars in H.
      rewrite Forall_map in H. eapply Forall_impl; [|exact H].
      intros s. apply strip_blank_iff.
    - intros H. apply StripFacts.all_chars_concat; [reflexivity|].
      rewrite Forall_map. eapply Forall_impl; [|exact H].
      intros s. apply strip_blank_iff. }
  destruct (strip (join " " (map strip segments))) as [|c x]; simpl.
  - split; [intros _; now apply B | reflexivity].
  - split; [discriminate|]. intros H. apply B in H. discriminate.
Qed.

End TranscriptionFacts.

Module TranscriptionRuns.
Import Str Transcription Privacy PipelineExamples.

(** Two padded segments. *)
Lemma transcribe_text_shape_witness :
  "hello world" <> "" /\ trimmed "hello world"
  /\ "whisper_local" = "whisper_local"
  /\ _model (snd (transcribe engine_hello memo init)) = true
  /\ runs (snd (transcribe engine_hello memo init)) = 1.
Proof.
  apply (TranscriptionFacts.transcribe_text_shape engine_hello memo init).
  vm_compute. reflexivity.
Defined.

(** A recording of silence: two segments of blanks. *)
Lemma transcribe_empty_iff_witness :
  fst (transcribe TranscriptionExamples.engine_silence memo init)
  = Raise (ValueError "Transcription returned empty text").
Proof.
  apply (TranscriptionFacts.transcribe_empty_iff
           TranscriptionExamples.engine_silence memo init ["  "; ""]).
  - right. reflexivity.
  - reflexivity.
  - repeat constructor.
Defined.

End TranscriptionRuns.

(* ================================================================== *)
(** * The pipeline: what an invocation touches *)
(* ================================================================== *)

Module PipelineInvariants.
Import Str Pipeline PipelineSpec Privacy.
Import PipelineFacts.

(** X12. A raw-only invocation, whether it succeeds or fails, leaves the
    language-model client as it was (no probe, no post, no remote
    request) and appends nothing to the capture log.  When it succeeds
    its record names the model [raw_only] and has a transcription
    duration but no cleanup duration, no breakdown duration and no
    compression ratio. *)
Theorem raw_only_run_is_local (env : Env) (p p' : AudioProcessor)
  (w w' : World) (audio_path : Path.t) (r : result bool) :
  run_process env p w audio_path true false = (r, p', w') ->
  llm p' = llm p
  /\ capture_log w' = capture_log w
  /\ (r = Ok true ->
      exists rec,
        metrics_log w' = (metrics_log w ++ [rec])%list
        /\ Dict.get rec "status" = Some (VStr "success")
        /\ Dict.get rec "breakdown_model" = Some (VStr "raw_only")
        /\ records_duration rec "transcription" = true
        /\ records_duration rec "cleanup" = false
        /\ records_duration rec "breakdown" = false
        /\ Dict.mem rec "compression_ratio" = false).
Proof.
  destruct p as [tr l]. unfold_run. repeat step;
    intros H; injection H as <- <- <-; files; cbn [llm];
    (split; [reflexivity|]); (split; [reflexivity|]);
    intros Hr; try discriminate Hr;
    eexists; (split; [reflexivity|]); lookup; repeat split.
Qed.


(** X13. The capture log only grows, by at most one block per invocation; a
    run that returns [true] and is not raw-only adds exactly one. *)
Theorem capture_log_append_only (env : Env) (p p' : AudioProcessor)
  (w w' : World) (audio_path : Path.t) (raw_only clean_only : bool)
  (r : result bool) :
  run_process env p w audio_path raw_only clean_only = (r, p', w') ->
  exists added,
    capture_log w' = (capture_log w ++ added)%list
    /\ List.length added <= 1
    /\ (r = Ok true -> List.length added = if raw_only then 0 else 1).
Proof.
  destruct p as [tr l]. destruct raw_only, clean_only; unfold_run;
    repeat step;
    intros H; injection H as <- <- <-; files;
    first [ exists []; split; [now rewrite app_nil_r|];
            split; [simpl; lia|]; intros Hr; first [discriminate Hr | reflexivity]
          | eexists [_]; split; [reflexivity|];
            split; [simpl; lia|]; intros Hr; reflexivity ].
Qed.

(** X14. A run that does not return [true] leaves the audio files where they
    were, unless one of the three writes that follow archiving (session
    metadata, metrics log, event log) is the one that failed. *)
Theorem unfinished_run_keeps_audio (env : Env) (p p' : AudioProcessor)
  (w w' : World) (audio_path : Path.t) (raw_only clean_only : bool)
  (r : result bool) :
  io_error env WriteMeta = None ->
  io_error env AppendMetrics = None ->
  io_error env AppendEvent = None ->
  run_process env p w audio_path raw_only clean_only = (r, p', w') ->
  r <> Ok true ->
  audio_store w' = audio_store w.
Proof.
  destruct p as [tr l]. intros Hm Ha He.
  destruct raw_only, clean_only; unfold_run;
    repeat (step; try congruence);
    intros H; injection H as <- <- <-; files; intros Hr;
    first [reflexivity | now elim Hr].
Qed.

End PipelineInvariants.

(* ================================================================== *)
(** * Paths *)
(* ================================================================== *)

Module PathFacts.
Import Str Pipeline.

Lemma path_eqb_eq (p q : Path.t) : path_eqb p q = true <-> p = q.
Proof.
  revert q. induction p as [|x p IH]; intros [|y q]; simpl;
    try (split; [discriminate | discriminate]); [tauto|].
  rewrite andb_true_iff, String.eqb_eq, IH. split.
  - now intros [-> ->].
  - now intros [= -> ->].
Qed.

Lemma path_eqb_refl (p : Path.t) : path_eqb p p = true.
Proof. now apply path_eqb_eq. Qed.






Lemma removelast_div (P : Path.t) (x : string) :
  removelast (Path.div P x) = P.
Proof. unfold Path.div. apply removelast_last. Qed.

Lemma name_div (P : Path.t) (x : string) : Path.name (Path.div P x) = x.
Proof. unfold Path.name, Path.div. apply last_last. Qed.

End PathFacts.

Module PipelineTraces.
Import Str Pipeline PipelineSpec Privacy LogSpec.
Import PipelineFacts.

(** What an invocation asks of the language-model client: nothing, one
    cleanup, or one cleanup followed by one breakdown. *)
Lemma llm_trace (env : Env) (p p' : AudioProcessor)
  (w w' : World) (audio_path : Path.t) (raw_only clean_only : bool)
  (r : result bool) :
  run_process env p w audio_path raw_only clean_only = (r, p', w') ->
  llm p' = llm p
  \/ (raw_only = false
      /\ exists raw rc,
           Llm.cleanup_transcription (cfg env) (backend env) raw (llm p)
           = (rc, llm p'))
  \/ (raw_only = false /\ clean_only = false
      /\ exists raw clean l0 rb,
           Llm.cleanup_transcription (cfg env) (backend env) raw (llm p)
           = (Ok clean, l0)
           /\ Llm.breakdown_tasks (cfg env) (backend env) clean l0
              = (rb, llm p')).
Proof.
  destruct p as [tr l]. destruct raw_only, clean_only; unfold_run;
    repeat step;
    intros H; injection H as <- <- <-; cbn [llm];
    first [ left; reflexivity
          | right; left; split; [reflexivity|]; do 2 eexists; eassumption
          | right; right; split; [reflexivity|]; split; [reflexivity|];
            do 4 eexists; split; eassumption ].
Qed.


(** X16. Whatever an invocation does, with redaction on it sends at most one
    request to the remote backend, and that request holds none of the
    sensitive terms in any casing.  It sends none at all in raw-only or
    clean-only mode, with remote breakdown switched off, or without a
    remote client. *)
Theorem process_sends_redacted_text (env : Env) (p p' : AudioProcessor)
  (w w' : World) (audio_path : Path.t) (raw_only clean_only : bool)
  (r : result bool) :
  ANONYMIZE_FOR_CLAUDE (cfg env) = true ->
  run_process env p w audio_path raw_only clean_only = (r, p', w') ->
  exists added,
    Llm.remote_sent (llm p') = (Llm.remote_sent (llm p) ++ added)%list
    /\ List.length added <= 1
    /\ Forall (fun prompt =>
                 term_free Anonymization.ANONYMIZATION_MAP prompt = true) added
    /\ (raw_only = true \/ clean_only = true
        \/ USE_CLAUDE_FOR_COMPLEX (cfg env) = false
        \/ LlmSpec.has_credential (llm p) = false ->
        added = []).
Proof.
  intros A H.
  destruct (llm_trace _ _ _ _ _ _ _ _ _ H)
    as [E | [(Hr & raw & rc & C) | (Hr & Hc & raw & clean & l0 & rb & C & B)]].
  - exists []. rewrite E, app_nil_r. repeat split; auto.
  - exists []. rewrite app_nil_r. unfold Llm.cleanup_transcription in C.
    destruct (ClientFacts.local_completion_shape (cfg env) (backend env)
                (Llm.cleanup_prompt raw) "0.2" "cleanup" (llm p))
      as (_ & _ & S & _).
    rewrite C in S. repeat split; auto.
  - unfold Llm.cleanup_transcription in C.
    destruct (ClientFacts.local_completion_shape (cfg env) (backend env)
                (Llm.cleanup_prompt raw) "0.2" "cleanup" (llm p))
      as (_ & _ & S1 & S2).
    rewrite C in S1, S2. cbn [snd] in S1, S2.
    destruct (ClientFacts.breakdown_tasks_log (cfg env) (backend env) clean l0)
      as (_ & added & B1 & B2 & B3 & B4).
    rewrite B in B1. cbn [snd] in B1.
    exists added. rewrite B1, S1. repeat split; auto.
    intros [F | [F | [F | F]]]; try congruence.
    + apply B3. now left.
    + apply B3. right. unfold LlmSpec.has_credential in *. now rewrite S2.
Qed.


(** Where a run that returns [true] put the audio file, and what it
    recorded about that. *)
Lemma success_archives (env : Env) (p p' : AudioProcessor)
  (w w' : World) (audio_path : Path.t) (raw_only clean_only : bool) :
  run_process env p w audio_path raw_only clean_only = (Ok true, p', w') ->
  let dst :=
    if path_mem (archive_plain (cfg env) audio_path) (audio_store w)
    then archive_stamped (cfg env) audio_path (now env NowArchive)
    else archive_plain (cfg env) audio_path in
  path_mem audio_path (audio_store w) = true
  /\ audio_store w'
     = (filter (fun f => negb (path_eqb audio_path f || path_eqb dst f))
          (audio_store w) ++ [dst])%list
  /\ exists rec,
       metrics_log w' = (metrics_log w ++ [rec])%list
       /\ Dict.get rec "status" = Some (VStr "success")
       /\ Dict.get rec "archived_audio_path" = Some (VStr (Path.to_str dst)).
Proof.
  destruct p as [tr l]. cbv zeta. unfold archive_plain, archive_stamped.
  destruct raw_only, clean_only; unfold_run;
    try (intros H0; discriminate H0);
    repeat (step; try discriminate);
    intros H; injection H as <- <-; files;
    cbn [audio_store write_file mkdir] in *;
    (split; [assumption|]); (split; [reflexivity|]);
    eexists; (split; [reflexivity|]); lookup; split; reflexivity.
Qed.




(** Every record an invocation appends is one the report can read. *)
Lemma appended_records_readable (env : Env) (p p' : AudioProcessor)
  (w w' : World) (audio_path : Path.t) (raw_only clean_only : bool)
  (r : result bool) :
  run_process env p w audio_path raw_only clean_only = (r, p', w') ->
  exists added,
    metrics_log w' = (metrics_log w ++ added)%list
    /\ forallb readable added = true.
Proof.
  destruct p as [tr l]. destruct raw_only, clean_only; unfold_run;
    repeat step;
    intros H; injection H as <- <- <-; files;
    first [ exists []; split; [now rewrite app_nil_r | reflexivity]
          | eexists [_]; split; [reflexivity | reflexivity]
          | eexists [_; _]; split; [now rewrite <- app_assoc | reflexivity] ].
Qed.

(** The one record of an invocation without late failure. *)
Lemma single_record (env : Env) (p p' : AudioProcessor)
  (w w' : World) (audio_path : Path.t) (raw_only clean_only : bool)
  (r : result bool) :
  raw_only && clean_only = false ->
  io_error env MkdirSession = None ->
  io_error env AppendEvent = None ->
  io_error env WriteMetaOnFailure = None ->
  io_error env AppendMetricsOnFailure = None ->
  run_process env p w audio_path raw_only clean_only = (r, p', w') ->
  let session_id := _make_session_id audio_path (now env NowStart) in
  let session_dir := Path.div (Cfg.sessions_dir (cfg env)) session_id in
  exists rec,
    metrics_log w' = (metrics_log w ++ [rec])%list
    /\ read_file w' (Path.div session_dir "session_meta.json")
       = Some (FileJson rec)
    /\ Dict.get rec "session_id" = Some (VStr session_id)
    /\ Dict.get rec "session_dir" = Some (VStr (Path.to_str session_dir))
    /\ Dict.get rec "audio_file" = Some (VStr (Path.name audio_path))
    /\ (r = Ok true /\ Dict.get rec "status" = Some (VStr "success")
        \/ r = Ok false /\ Dict.get rec "status" = Some (VStr "failed")).
Proof.
  destruct p as [tr l]. intros Hflags Hmk Hev Hmf Haf. cbv zeta.
  unfold read_file.
  destruct raw_only, clean_only; try discriminate Hflags; unfold_run;
    repeat (step; try congruence);
    intros H; injection H as <- <- <-; files;
    cbn [find fst snd]; rewrite PathFacts.path_eqb_refl;
    eexists; (split; [reflexivity|]); (split; [reflexivity|]); lookup;
    (split; [reflexivity|]); (split; [reflexivity|]); (split; [reflexivity|]);
    first [ left; split; reflexivity | right; split; reflexivity ].
Qed.

(** X18. Without a failure of the event log or of the failure handler's own
    writes, an invocation that got its session directory leaves one
    record, named after the session, both as the last line of the metrics
    log and as the content of [session_meta.json] in the session
    directory; its status says what the run returned. *)
Theorem session_metadata_is_the_record (env : Env) (p p' : AudioProcessor)
  (w w' : World) (audio_path : Path.t) (raw_only clean_only : bool)
  (r : result bool) :
  raw_only && clean_only = false ->
  io_error env MkdirSession = None ->
  io_error env AppendEvent = None ->
  io_error env WriteMetaOnFailure = None ->
  io_error env AppendMetricsOnFailure = None ->
  run_process env p w audio_path raw_only clean_only = (r, p', w') ->
  let session_id := _make_session_id audio_path (now env NowStart) in
  let session_dir := Path.div (Cfg.sessions_dir (cfg env)) session_id in
  exists rec,
    metrics_log w' = (metrics_log w ++ [rec])%list
    /\ read_file w' (Path.div session_dir "session_meta.json")
       = Some (FileJson rec)
    /\ Dict.get rec "session_id" = Some (VStr session_id)
    /\ Dict.get rec "session_dir" = Some (VStr (Path.to_str session_dir))
    /\ (r = Ok true /\ Dict.get rec "status" = Some (VStr "success")
        \/ r = Ok false /\ Dict.get rec "status" = Some (VStr "failed")).
Proof.
  intros Hflags Hmk Hev Hmf Haf H. cbv zeta.
  destruct (single_record _ _ _ _ _ _ _ _ _ Hflags Hmk Hev Hmf Haf H)
    as (rec & R1 & R2 & R3 & R4 & _ & R6).
  exists rec. auto.
Qed.

(** Where an exception that leaves [process] comes from. *)
Lemma process_raises (env : Env) (p p' : AudioProcessor)
  (w w' : World) (audio_path : Path.t) (raw_only clean_only : bool)
  (e : exn) :
  run_process env p w audio_path raw_only clean_only = (Raise e, p', w') ->
  (raw_only = true /\ clean_only = true
   /\ e = ValueError "raw_only and clean_only cannot both be true")
  \/ (exists msg,
        e = OSError msg
        /\ (io_error env MkdirSession = Some msg
            \/ io_error env WriteMetaOnFailure = Some msg
            \/ io_error env AppendMetricsOnFailure = Some msg)).
Proof.
  destruct p as [tr l]. destruct raw_only, clean_only; unfold_run;
    repeat step;
    intros H;
    first [ discriminate H
          | injection H as <- <- <-;
            first [ left; repeat split; reflexivity
                  | right; eexists; split; [reflexivity|];
                    first [ left; reflexivity
                          | right; left; reflexivity
                          | right; right; reflexivity ] ] ].
Qed.



(** X20. The event log follows the outcome: a run that returns [true] has
    appended one line to the log file of the month, naming the audio file
    and carrying the transcription method and the model of the run's
    record; any other run has appended none. *)
Theorem event_log_follows_success (env : Env) (p p' : AudioProcessor)
  (w w' : World) (audio_path : Path.t) (raw_only clean_only : bool)
  (r : result bool) :
  run_process env p w audio_path raw_only clean_only = (r, p', w') ->
  (r = Ok true ->
   exists rec line,
     metrics_log w' = (metrics_log w ++ [rec])%list
     /\ event_log w'
        = (event_log w
           ++ [(Path.div (Cfg.logs_dir (cfg env))
                  (stamp_month (now env NowEventFile) ++ "-processing.jsonl"),
                line)])%list
     /\ Dict.get line "audio_file" = Some (VStr (Path.name audio_path))
     /\ Dict.get line "transcription_method"
        = Dict.get rec "transcription_method"
     /\ Dict.get line "breakdown_model" = Dict.get rec "breakdown_model")
  /\ (r <> Ok true -> event_log w' = event_log w).
Proof.
  destruct p as [tr l]. destruct raw_only, clean_only; unfold_run;
    repeat step;
    intros H; injection H as <- <- <-; files;
    (split; [intros Hr; try discriminate Hr;
             do 2 eexists; (split; [reflexivity|]); (split; [reflexivity|]);
             lookup; repeat split
            | intros Hr; first [reflexivity | now elim Hr]]).
Qed.

End PipelineTraces.

(* ================================================================== *)
(** * The report on the pipeline's log *)
(* ================================================================== *)

Module ReportOnLog.
Import Pipeline MetricsReport LogSpec.

Section Facts.
Variable parse_float : string -> option Q.

Lemma get_In {V : Type} (d : Dict.dict V) (k : string) (v : V) :
  Dict.get d k = Some v -> In (k, v) d.
Proof.
  induction d as [|[k' v'] d IH]; simpl; [discriminate|].
  destruct (String.eqb k' k) eqn:E.
  - apply String.eqb_eq in E. subst. intros [= ->]. now left.
  - intros H. right. now apply IH.
Qed.

Lemma comprehension_ok (keep : record -> result bool) (f : record -> result Q)
  (rows : list record) :
  (forall r, In r rows -> exists b, keep r = Ok b) ->
  (forall r, In r rows -> exists q, f r = Ok q) ->
  exists xs, comprehension keep f rows = Ok xs.
Proof.
  induction rows as [|r rows IH]; intros K F; [now exists []|].
  simpl. destruct (K r (or_introl eq_refl)) as [b ->].
  destruct IH as [xs E].
  { intros r' H. apply K. now right. }
  { intros r' H. apply F. now right. }
  destruct b; [|now exists xs].
  destruct (F r (or_introl eq_refl)) as [q ->]. rewrite E. now exists (q :: xs).
Qed.

Lemma readable_duration (k : string) (r : record) :
  readable r = true -> exists q, duration parse_float k r = Ok q.
Proof.
  unfold readable, duration, durations_of. intros H.
  apply andb_true_iff in H as [H _].
  destruct (Dict.get r "durations_sec") as [[| | | | | |d]|]; try discriminate.
  destruct (Dict.get d k) as [v|] eqn:E; [|now eexists].
  apply get_In in E. unfold seconds_only in H. rewrite forallb_forall in H.
  specialize (H _ E). simpl in H. destruct v; try discriminate. now eexists.
Qed.

Lemma readable_has_duration (k : string) (r : record) :
  readable r = true -> exists b, has_duration k r = Ok b.
Proof.
  unfold readable, has_duration. intros H.
  apply andb_true_iff in H as [H _].
  destruct (Dict.get r "durations_sec") as [[| | | | | |d]|]; try discriminate.
  now eexists.
Qed.

Lemma readable_compression (r : record) :
  readable r = true ->
  exists q, match Dict.get r "compression_ratio" with
            | Some v => to_float parse_float v
            | None => Ok 0%Q
            end = Ok q.
Proof.
  unfold readable. intros H. apply andb_true_iff in H as [_ H].
  destruct (Dict.get r "compression_ratio") as [[]|]; try discriminate;
    now eexists.
Qed.

(** On a log of readable records the report returns. *)
Lemma main_returns (rows : list record) :
  forallb readable rows = true -> exists o, main parse_float rows = Ok o.
Proof.
  intros R. rewrite forallb_forall in R. unfold main.
  destruct rows as [|r0 rows0]; [now eexists|].
  set (rows := r0 :: rows0) in *.
  set (success := filter (has_status "success") rows).
  assert (forall r, In r success -> readable r = true) as RS.
  { intros r H. apply filter_In in H as [H _]. now apply R. }
  destruct (comprehension_ok (fun _ => Ok true) (duration parse_float "total")
              success) as [totals ->].
  { intros; now eexists. }
  { intros r H. apply readable_duration; auto. }
  destruct (comprehension_ok (has_duration "cleanup")
              (duration parse_float "cleanup") success) as [cleanup ->].
  { intros r H. apply readable_has_duration; auto. }
  { intros r H. apply readable_duration; auto. }
  destruct (comprehension_ok (has_duration "breakdown")
              (duration parse_float "breakdown") success) as [breakdown ->].
  { intros r H. apply readable_has_duration; auto. }
  { intros r H. apply readable_duration; auto. }
  match goal with
  | |- context [comprehension ?k ?f success] =>
      destruct (comprehension_ok k f success) as [compression ->]
  end.
  { intros; now eexists. }
  { intros r H. apply readable_compression; auto. }
  rewrite ReportFacts.avg_defined.
  destruct (ReportFacts.avg_if_any_defined cleanup) as [o1 ->].
  destruct (ReportFacts.avg_if_any_defined breakdown) as [o2 ->].
  destruct (ReportFacts.avg_if_any_defined compression) as [o3 ->].
  now eexists.
Qed.

(** X21. The report reads what the pipeline writes: if the records in the
    metrics log are readable before an invocation, they are readable
    after it, whatever the invocation did, and the report on the log
    returns its summary without raising. *)
Theorem report_reads_pipeline_log (env : Env) (p p' : AudioProcessor)
  (w w' : World) (audio_path : Path.t) (raw_only clean_only : bool)
  (r : result bool) :
  run_process env p w audio_path raw_only clean_only = (r, p', w') ->
  forallb readable (metrics_log w) = true ->
  forallb readable (metrics_log w') = true
  /\ exists o, main parse_float (metrics_log w') = Ok o.
Proof.
  intros H R.
  destruct (PipelineTraces.appended_records_readable _ _ _ _ _ _ _ _ _ H)
    as (added & E & A).
  assert (forallb readable (metrics_log w') = true) as R'.
  { rewrite E, forallb_app, R, A. reflexivity. }
  split; [exact R'|]. now apply main_returns.
Qed.

Lemma filter_length_le {A : Type} (f g : A -> bool) (l : list A) :
  (forall x, f x = true -> g x = true) ->
  List.length (filter f l) <= List.length (filter g l).
Proof.
  intros H. induction l as [|x l IH]; simpl; [lia|].
  destruct (f x) eqn:F.
  - rewrite (H x F). simpl. lia.
  - destruct (g x); simpl; lia.
Qed.

Lemma filter_length_disjoint {A : Type} (f g : A -> bool) (l : list A) :
  (forall x, f x = true -> g x = false) ->
  List.length (filter f l) + List.length (filter g l) <= List.length l.
Proof.
  intros H. induction l as [|x l IH]; simpl; [lia|].
  destruct (f x) eqn:F.
  - rewrite (H x F). simpl. lia.
  - destruct (g x); simpl; lia.
Qed.

(** X22. The counts of a summary fit together: the total is the number of
    rows, a row is never counted both as successful and as failed, and
    the raw-only runs are among the successful ones. *)
Theorem summary_counts (rows : list record) (s : Summary) :
  main parse_float rows = Ok (Some s) ->
  total_runs s = List.length rows
  /\ successful_runs s + failed_runs s <= total_runs s
  /\ raw_only_runs s <= successful_runs s.
Proof.
  unfold main. destruct rows as [|r0 rows0] eqn:E; [discriminate|].
  rewrite <- E. clear E r0 rows0.
  repeat match goal with
         | |- match ?x with Ok _ => _ | Raise _ => _ end = _ -> _ =>
             destruct x; [|discriminate]
         end.
  intros [= <-]. cbn [total_runs successful_runs failed_runs raw_only_runs].
  split; [reflexivity|]. split.
  - apply filter_length_disjoint. intros r. unfold has_status.
    destruct (Dict.get r "status") as [[]|]; try discriminate.
    intros H. apply String.eqb_eq in H. now subst.
  - apply filter_length_le. intros r.
    destruct (Dict.get r "raw_only") as [[| [] | | | | |]|]; try discriminate.
    auto.
Qed.



End Facts.
End ReportOnLog.

(* ================================================================== *)
(** * The manual trigger *)
(* ================================================================== *)

Module ManualFacts.
Import Str Pipeline ConfigOps Manual ManualSpec LogSpec.

Lemma existsb_eqb_In (x : string) (l : list string) :
  existsb (String.eqb x) l = true <-> In x l.
Proof.
  rewrite existsb_exists. split.
  - intros (y & Hy & E). apply String.eqb_eq in E. now subst.
  - intros H. exists x. split; [exact H | apply String.eqb_refl].
Qed.

Lemma parse_args_shape (argv : list string) :
  match _parse_args argv with
  | Done (target, raw_only, clean_only) =>
      raw_only && clean_only = false
      /\ (raw_only = true <-> In "--raw-only" argv)
      /\ (clean_only = true <-> In "--clean-only" argv)
      /\ is_flag target = false
      /\ exists prog rest,
           filter (fun arg => negb (is_flag arg)) argv = prog :: target :: rest
  | Exit code =>
      code = 1
      /\ ((In "--raw-only" argv /\ In "--clean-only" argv)
          \/ List.length (filter (fun arg => negb (is_flag arg)) argv) < 2)
  | Raised _ => False
  end.
Proof.
  unfold _parse_args.
  pose proof (existsb_eqb_In "--raw-only" argv) as R.
  pose proof (existsb_eqb_In "--clean-only" argv) as C.
  destruct (existsb (String.eqb "--raw-only") argv) eqn:Er;
    destruct (existsb (String.eqb "--clean-only") argv) eqn:Ec; simpl.
  1: { split; [reflexivity|]. left. split; [now apply R | now apply C]. }
  all: destruct (filter _ argv) as [|prog [|target rest]] eqn:F;
    try (split; [reflexivity|]; right; simpl; lia).
  all: assert (is_flag target = false)
    by (assert (In target (filter (fun arg => negb (is_flag arg)) argv)) as I
          by (rewrite F; right; now left);
        apply filter_In in I as [_ I]; now apply negb_true_iff in I).
  all: repeat split; auto; try discriminate; try tauto;
    try (now exists prog, rest);
    try (intros I; first [apply R in I | apply C in I]; discriminate I).
Qed.

(** X24. The argument parser returns only sound triples: never both flags,
    each flag exactly when it is among the arguments, and as target the
    second argument that is not a flag, which is therefore not a flag
    itself.  Otherwise it exits with status 1: when both flags are given
    or when fewer than two arguments are left without the flags. *)
Theorem parse_args_spec (argv : list string) :
  match _parse_args argv with
  | Done (target, raw_only, clean_only) =>
      raw_only && clean_only = false
      /\ (raw_only = true <-> In "--raw-only" argv)
      /\ (clean_only = true <-> In "--clean-only" argv)
      /\ is_flag target = false
      /\ exists prog rest,
           filter (fun arg => negb (is_flag arg)) argv = prog :: target :: rest
  | Exit code =>
      code = 1
      /\ ((In "--raw-only" argv /\ In "--clean-only" argv)
          \/ List.length (filter (fun arg => negb (is_flag arg)) argv) < 2)
  | Raised _ => False
  end.
Proof. apply parse_args_shape. Qed.

Lemma In_insert (p x : Path.t) (l : list Path.t) :
  In x (insert p l) <-> x = p \/ In x l.
Proof.
  induction l as [|q l IH]; simpl; [intuition congruence|].
  destruct (path_ltb q p); simpl; [rewrite IH|]; intuition congruence.
Qed.

Lemma In_sorted (x : Path.t) (l : list Path.t) : In x (sorted l) <-> In x l.
Proof.
  unfold sorted. induction l as [|p l IH]; simpl; [tauto|].
  rewrite In_insert, IH. intuition congruence.
Qed.

Lemma length_insert (p : Path.t) (l : list Path.t) :
  List.length (insert p l) = S (List.length l).
Proof.
  induction l as [|q l IH]; simpl; [reflexivity|].
  destruct (path_ltb q p); simpl; [now rewrite IH | reflexivity].
Qed.

(** What [--all] picks up: the watched audio files of the audio folder
    itself. *)
Lemma In_iter_audio_files (c : Config) (w : World) (f : Path.t) :
  In f (_iter_audio_files c w)
  <-> In f (audio_store w) /\ f <> [] /\ removelast f = Cfg.audio_dir c
      /\ watched f = true.
Proof.
  unfold _iter_audio_files, iterdir_files.
  rewrite In_sorted, !filter_In. split.
  - intros [[H1 H2] H3]. destruct f as [|x f]; [discriminate|].
    apply PathFacts.path_eqb_eq in H2. repeat split; auto. discriminate.
  - intros (H1 & H2 & H3 & H4). destruct f as [|x f]; [contradiction|].
    repeat split; auto. now apply PathFacts.path_eqb_eq.
Qed.

Lemma compare_flip (x y : string) :
  String.compare x y = Gt -> String.compare y x = Lt.
Proof.
  intros H. rewrite String.compare_antisym, H. reflexivity.
Qed.

Lemma path_ltb_asym (p q : Path.t) :
  path_ltb p q = true -> path_ltb q p = false.
Proof.
  revert q. induction p as [|x p IH]; intros [|y q]; simpl; auto; try discriminate.
  rewrite (String.compare_antisym x y).
  destruct (String.compare y x); simpl; auto.
Qed.

Lemma insert_ascending (p : Path.t) (l : list Path.t) :
  ascending l = true -> ascending (insert p l) = true.
Proof.
  induction l as [|q l IH]; [reflexivity|].
  intros H. cbn [insert]. destruct (path_ltb q p) eqn:E.
  - destruct l as [|q' l]; cbn [insert].
    + cbn. now rewrite (path_ltb_asym _ _ E).
    + cbn [ascending] in H. apply andb_true_iff in H as [H1 H2].
      specialize (IH H2). cbn [insert] in IH.
      destruct (path_ltb q' p) eqn:E'; cbn [ascending].
      * rewrite H1. exact IH.
      * rewrite (path_ltb_asym _ _ E). exact IH.
  - cbn [ascending]. rewrite E. exact H.
Qed.

Lemma sorted_ascending (l : list Path.t) : ascending (sorted l) = true.
Proof.
  unfold sorted. induction l as [|p l IH]; [reflexivity|].
  simpl. now apply insert_ascending.
Qed.

(** X25. [--all] lists exactly the audio files that lie in the audio folder
    itself and whose suffix, lowercased, is one of the six watched ones;
    the listing is in ascending path order: no entry is below the one
    before it. *)
Theorem iter_audio_files_spec (c : Config) (w : World) :
  (forall f, In f (_iter_audio_files c w)
             <-> In f (audio_store w) /\ f <> [] /\ removelast f = Cfg.audio_dir c
                 /\ In (lower (Path.suffix f)) WATCH_EXTENSIONS)
  /\ ascending (_iter_audio_files c w) = true.
Proof.
  split; [|apply sorted_ascending].
  intros f. rewrite In_iter_audio_files. unfold watched.
  now rewrite existsb_eqb_In.
Qed.

Lemma processed_not_audio (c : Config) : Cfg.processed_dir c <> Cfg.audio_dir c.
Proof.
  unfold Cfg.processed_dir, Path.div. intros H.
  apply (f_equal (@List.length string)) in H. rewrite length_app in H.
  simpl in H. lia.
Qed.

(** X26. A file that was processed is not picked up again: after a run that
    returned [true] on a file of the audio folder, [--all] lists neither
    that file nor its archived copy, and nothing it did not list before. *)
Theorem processed_file_not_listed_again (env : Env) (p p' : AudioProcessor)
  (w w' : World) (audio_path : Path.t) (raw_only clean_only : bool) :
  run_process env p w audio_path raw_only clean_only = (Ok true, p', w') ->
  removelast audio_path = Cfg.audio_dir (cfg env) ->
  ~ In audio_path (_iter_audio_files (cfg env) w')
  /\ forall f, In f (_iter_audio_files (cfg env) w') ->
               In f (_iter_audio_files (cfg env) w).
Proof.
  intros H Hin.
  destruct (PipelineTraces.success_archives _ _ _ _ _ _ _ _ H)
    as (_ & Hs & _).
  set (dst := if path_mem _ _ then _ else _) in Hs.
  assert (removelast dst = Cfg.processed_dir (cfg env)) as Hd.
  { subst dst. unfold archive_stamped, archive_plain.
    destruct (path_mem _ _); apply PathFacts.removelast_div. }
  assert (forall f, In f (audio_store w') ->
                    removelast f = Cfg.audio_dir (cfg env) ->
                    In f (audio_store w) /\ f <> audio_path) as K.
  { intros f Hf Hp. rewrite Hs in Hf. apply in_app_or in Hf as [Hf | [<- | []]].
    - apply filter_In in Hf as [Hf1 Hf2]. split; [exact Hf1|].
      intros ->. rewrite PathFacts.path_eqb_refl in Hf2. discriminate.
    - rewrite Hd in Hp. now elim (processed_not_audio (cfg env)). }
  split.
  - intros I. apply In_iter_audio_files in I as (I1 & _ & I3 & _).
    destruct (K _ I1 I3) as [_ N]. now apply N.
  - intros f I. apply In_iter_audio_files in I as (I1 & I2 & I3 & I4).
    apply In_iter_audio_files. destruct (K _ I1 I3) as [K1 _]. auto.
Qed.

Lemma process_each_records (h : Host) (raw_only clean_only : bool) :
  raw_only && clean_only = false ->
  (forall i, disk h i MkdirSession = None /\ disk h i AppendEvent = None
             /\ disk h i WriteMetaOnFailure = None
             /\ disk h i AppendMetricsOnFailure = None) ->
  forall items i p w,
  exists p' w' added,
    process_each h raw_only clean_only i items p w = (Done tt, p', w')
    /\ metrics_log w' = (metrics_log w ++ added)%list
    /\ map (fun r => Dict.get r "audio_file") added
       = map (fun f => Some (VStr (Path.name f))) items.
Proof.
  intros Hflags Hio. induction items as [|item rest IH]; intros i p w.
  - exists p, w, []. simpl. now rewrite app_nil_r.
  - cbn [process_each].
    destruct (run_process (env_at h i) p w item raw_only clean_only)
      as [[r p1] w1] eqn:E.
    destruct (Hio i) as (H1 & H2 & H3 & H4).
    destruct (PipelineTraces.single_record (env_at h i) p p1 w w1 item
                raw_only clean_only r Hflags H1 H2 H3 H4 E)
      as (rec & R1 & _ & _ & _ & R5 & R6).
    destruct (IH (S i) p1 w1) as (p' & w' & added & P1 & P2 & P3).
    assert (exists b, r = Ok b) as [b ->]
      by (destruct R6 as [[-> _] | [-> _]]; eauto).
    exists p', w', (rec :: added). split; [exact P1|]. split.
    + rewrite P2, R1, <- app_assoc. reflexivity.
    + simpl. now rewrite R5, P3.
Qed.


Section Main.
Variable path_exists : World -> Path.t -> bool.
Variable expanduser : string -> Path.t.

Local Abbreviation main := (Manual.main path_exists expanduser).

(** X27. A batch goes through every file: with the vault in place and
    [--all] as target, if the filesystem takes the session directories,
    the event log and the writes of the failure handler, the program
    returns normally and has appended one record per listed file, in
    the sorted order of the listing, whatever happened to the single
    files. *)
Theorem batch_processes_every_file (h : Host) (argv : list string) (w : World)
  (raw_only clean_only : bool) :
  path_exists w (vault_path (config h)) = true ->
  _parse_args argv = Done ("--all", raw_only, clean_only) ->
  (forall i, disk h i MkdirSession = None /\ disk h i AppendEvent = None
             /\ disk h i WriteMetaOnFailure = None
             /\ disk h i AppendMetricsOnFailure = None) ->
  exists w' added,
    main h argv w = (Done tt, w')
    /\ metrics_log w' = (metrics_log w ++ added)%list
    /\ map (fun r => Dict.get r "audio_file") added
       = map (fun f => Some (VStr (Path.name f)))
           (_iter_audio_files (config h) w).
Proof.
  intros Hv Hp Hio. unfold Manual.main, validate. rewrite Hv, Hp.
  cbn [negb]. change (String.eqb "--all" "--all") with true. cbv iota.
  pose proof (parse_args_shape argv) as S. rewrite Hp in S.
  destruct S as (Hflags & _).
  destruct (process_each_records h raw_only clean_only Hflags Hio
              (_iter_audio_files (config h) w) 0 (Pipeline.init (config h)) w)
    as (p' & w' & added & P1 & P2 & P3).
  destruct (_iter_audio_files (config h) w) as [|item rest] eqn:L.
  - injection P1 as _ <-. now exists w, added.
  - rewrite P1. now exists w', added.
Qed.


End Main.

End ManualFacts.

(* ================================================================== *)
(** * The watcher's handler *)
(* ================================================================== *)

Module WatchFacts.
Import Str Pipeline ConfigOps Watch LogSpec.

Lemma discard_absent (p : Path.t) (s : list Path.t) :
  path_mem p s = false -> discard p s = s.
Proof.
  unfold path_mem, discard. induction s as [|q s IH]; simpl; [reflexivity|].
  intros H. apply orb_false_iff in H as [-> H]. simpl. now rewrite IH.
Qed.

Lemma discard_add (p : Path.t) (s : list Path.t) :
  path_mem p s = false -> discard p (add p s) = s.
Proof.
  intros H. unfold add. rewrite H. unfold discard. rewrite filter_app. simpl.
  rewrite PathFacts.path_eqb_refl. simpl. rewrite app_nil_r.
  now apply discard_absent.
Qed.

Lemma path_mem_add (p : Path.t) (s : list Path.t) : path_mem p (add p s) = true.
Proof.
  unfold add. destruct (path_mem p s) eqn:E; [exact E|].
  unfold path_mem. rewrite existsb_app. simpl.
  rewrite PathFacts.path_eqb_refl. now rewrite orb_true_r.
Qed.

(** X29. The in-flight marker.  A call of the handler that returns leaves the
    set of paths in flight as it found it.  A call that raises, which it
    does only with an [OSError] that came out of [process], leaves the
    path marked: the handler then drops every later event for that path
    without touching the files. *)
Theorem in_flight_marker (env : Env) (event : FileSystemEvent)
  (self self' : AudioFileHandler) (w w' : World) (r : result unit) :
  on_created env event self w = (r, self', w') ->
  (r = Ok tt -> processing self' = processing self)
  /\ (forall e, r = Raise e ->
        (exists msg, e = OSError msg)
        /\ processing self' = (processing self ++ [src_path event])%list
        /\ forall env' event' w'',
             src_path event' = src_path event ->
             on_created env' event' self' w'' = (Ok tt, self', w'')).
Proof.
  unfold on_created at 1.
  destruct (is_directory event); [intros [= <- <- <-]; split; [auto | discriminate]|].
  destruct (watched (src_path event)) eqn:W; simpl;
    [|intros [= <- <- <-]; split; [auto | discriminate]].
  destruct (path_mem (src_path event) (processing self)) eqn:M;
    [intros [= <- <- <-]; split; [auto | discriminate]|].
  destruct (run_process env (processor self) w (src_path event) false false)
    as [[[b|e] p1] w1] eqn:E; intros [= <- <- <-].
  - split; [|discriminate]. intros _. simpl. now apply discard_add.
  - split; [discriminate|]. intros e' [= <-].
    apply PipelineTraces.process_raises in E
      as [(F & _) | (msg & -> & _)]; [discriminate|].
    split; [now exists msg|]. simpl. split.
    + unfold add. now rewrite M.
    + intros env' event' w'' Hp. unfold on_created.
      destruct (is_directory event'); [reflexivity|]. rewrite Hp, W. simpl.
      now rewrite path_mem_add.
Qed.

(** X30. A new audio file gets its record: for an event on a file with a
    watched suffix that is not in flight, if the filesystem takes the
    session directory, the event log and the writes of the failure
    handler, the handler returns, is ready for the path again, and has
    appended exactly one record, for that file and in full mode. *)
Theorem created_file_is_recorded (env : Env) (event : FileSystemEvent)
  (self : AudioFileHandler) (w : World) :
  is_directory event = false ->
  watched (src_path event) = true ->
  path_mem (src_path event) (processing self) = false ->
  io_error env MkdirSession = None ->
  io_error env AppendEvent = None ->
  io_error env WriteMetaOnFailure = None ->
  io_error env AppendMetricsOnFailure = None ->
  exists self' w' rec,
    on_created env event self w = (Ok tt, self', w')
    /\ processing self' = processing self
    /\ metrics_log w' = (metrics_log w ++ [rec])%list
    /\ Dict.get rec "audio_file" = Some (VStr (Path.name (src_path event))).
Proof.
  intros Hd Hw Hm H1 H2 H3 H4. unfold on_created. rewrite Hd, Hw, Hm. simpl.
  destruct (run_process env (processor self) w (src_path event) false false)
    as [[r p1] w1] eqn:E.
  destruct (PipelineTraces.single_record env _ _ _ _ _ false false r
              eq_refl H1 H2 H3 H4 E) as (rec & R1 & _ & _ & _ & R5 & R6).
  assert (exists b, r = Ok b) as [b ->]
    by (destruct R6 as [[-> _] | [-> _]]; eauto).
  eexists. exists w1, rec. split; [reflexivity|]. simpl.
  split; [now apply discard_add|]. auto.
Qed.

End WatchFacts.

(* ================================================================== *)
(** * Further runs on concrete inputs *)
(* ================================================================== *)

Module MoreRuns.
Import Str Pipeline PipelineSpec Privacy LogSpec.
Import Examples PipelineExamples CoverageExamples.

(** A raw-only run with the language model down: it succeeds, and the
    client is as fresh as before. *)
Lemma raw_only_run_is_local_witness :
  let run := run_process (env_of backend_down no_io_error) fresh inbox memo
               true false in
  llm (snd (fst run)) = llm fresh
  /\ capture_log (snd run) = []
  /\ fst (fst run) = Ok true.
Proof.
  cbv zeta.
  destruct (PipelineInvariants.raw_only_run_is_local
              (env_of backend_down no_io_error) fresh
              (snd (fst (run_process (env_of backend_down no_io_error) fresh
                           inbox memo true false)))
              inbox
              (snd (run_process (env_of backend_down no_io_error) fresh
                      inbox memo true false))
              memo (Ok true)) as (H1 & H2 & _).
  - vm_compute. reflexivity.
  - split; [exact H1|]. split; [exact H2|]. vm_compute. reflexivity.
Defined.

(** A full run adds one block to the capture log. *)
Lemma capture_log_append_only_witness :
  let run := run_process (env_of backend_ok no_io_error) fresh inbox memo
               false false in
  exists added, capture_log (snd run) = added /\ List.length added = 1.
Proof.
  cbv zeta.
  destruct (PipelineInvariants.capture_log_append_only
              (env_of backend_ok no_io_error) fresh
              (snd (fst (run_process (env_of backend_ok no_io_error) fresh
                           inbox memo false false)))
              inbox
              (snd (run_process (env_of backend_ok no_io_error) fresh
                      inbox memo false false))
              memo false false (Ok true)) as (added & H1 & _ & H3).
  - vm_compute. reflexivity.
  - exists added. split; [exact H1 | exact (H3 eq_refl)].
Defined.

(** The language model is down: the run returns [false] and the memo
    stays in the inbox. *)
Lemma unfinished_run_keeps_audio_witness :
  audio_store (snd (run_process (env_of backend_down no_io_error) fresh inbox
                      memo false false)) = [memo].
Proof.
  apply (PipelineInvariants.unfinished_run_keeps_audio
           (env_of backend_down no_io_error) fresh
           (snd (fst (run_process (env_of backend_down no_io_error) fresh
                        inbox memo false false)))
           inbox _ memo false false (Ok false));
    [reflexivity | reflexivity | reflexivity | vm_compute; reflexivity
     | discriminate].
Defined.

(** The event log fails: two records are added, none is lost. *)
Lemma metrics_log_append_only_witness :
  let run := run_process (env_of backend_ok event_log_fails) fresh inbox memo
               false true in
  exists added, metrics_log (snd run) = added /\ List.length added <= 2.
Proof.
  cbv zeta.
  destruct (PipelineFacts.metrics_log_append_only
              (env_of backend_ok event_log_fails) fresh
              (snd (fst (run_process (env_of backend_ok event_log_fails) fresh
                           inbox memo false true)))
              inbox
              (snd (run_process (env_of backend_ok event_log_fails) fresh
                      inbox memo false true))
              memo false true (Ok false)) as (added & H1 & H2).
  - vm_compute. reflexivity.
  - exists added. split; [exact H1 | exact H2].
Defined.

(** A note that names Google and asks for a plan goes to the remote
    backend, redacted. *)
Lemma process_sends_redacted_text_witness :
  let run := run_process env_remote fresh_with_key inbox memo false false in
  fst (fst run) = Ok true
  /\ exists prompt,
       Llm.remote_sent (llm (snd (fst run))) = [prompt]
       /\ term_free Anonymization.ANONYMIZATION_MAP prompt = true.
Proof.
  cbv zeta. split; [vm_compute; reflexivity|].
  destruct (PipelineTraces.process_sends_redacted_text env_remote fresh_with_key
              (snd (fst (run_process env_remote fresh_with_key inbox memo
                           false false)))
              inbox
              (snd (run_process env_remote fresh_with_key inbox memo false false))
              memo false false (Ok true)) as (added & H1 & H2 & H3 & _).
  - reflexivity.
  - vm_compute. reflexivity.
  - assert (List.length (Llm.remote_sent
              (llm (snd (fst (run_process env_remote fresh_with_key inbox memo
                                false false))))) = 1) as L
      by (vm_compute; reflexivity).
    rewrite H1 in L. simpl in L.
    destruct added as [|prompt [|x added]]; simpl in L; try discriminate L.
    exists prompt. split; [exact H1|]. now inversion H3.
Defined.


(** The failed run's record is also the content of its
    [session_meta.json]. *)
Lemma session_metadata_is_the_record_witness :
  let run := run_process (env_of backend_down no_io_error) fresh inbox memo
               false false in
  exists rec,
    metrics_log (snd run) = [rec]
    /\ read_file (snd run)
         [""; "vault"; "sessions"; "20240307-090501-my-memo-1";
          "session_meta.json"]
       = Some (FileJson rec).
Proof.
  cbv zeta.
  destruct (PipelineTraces.session_metadata_is_the_record
              (env_of backend_down no_io_error) fresh
              (snd (fst (run_process (env_of backend_down no_io_error) fresh
                           inbox memo false false)))
              inbox
              (snd (run_process (env_of backend_down no_io_error) fresh
                      inbox memo false false))
              memo false false (Ok false))
    as (rec & H1 & H2 & _);
    [reflexivity | reflexivity | reflexivity | reflexivity | reflexivity
     | vm_compute; reflexivity | ].
  exists rec. split; [exact H1 | exact H2].
Defined.


(** A full run leaves one line in the log of March 2024; a run with the
    language model down leaves none. *)
Lemma event_log_follows_success_witness :
  (exists line,
     event_log (snd (run_process (env_of backend_ok no_io_error) fresh inbox
                       memo false false))
     = [([""; "vault"; "logs"; "2024-03-processing.jsonl"], line)]
     /\ Dict.get line "audio_file" = Some (VStr "My Memo (1).m4a"))
  /\ event_log (snd (run_process (env_of backend_down no_io_error) fresh inbox
                       memo false false)) = [].
Proof.
  split.
  - destruct (PipelineTraces.event_log_follows_success
                (env_of backend_ok no_io_error) fresh
                (snd (fst (run_process (env_of backend_ok no_io_error) fresh
                             inbox memo false false)))
                inbox
                (snd (run_process (env_of backend_ok no_io_error) fresh
                        inbox memo false false))
                memo false false (Ok true)) as (H & _).
    + vm_compute. reflexivity.
    + destruct (H eq_refl) as (rec & line & _ & H2 & H3 & _).
      exists line. split; [exact H2 | exact H3].
  - destruct (PipelineTraces.event_log_follows_success
                (env_of backend_down no_io_error) fresh
                (snd (fst (run_process (env_of backend_down no_io_error) fresh
                             inbox memo false false)))
                inbox
                (snd (run_process (env_of backend_down no_io_error) fresh
                        inbox memo false false))
                memo false false (Ok false)) as (_ & H).
    + vm_compute. reflexivity.
    + apply H. discriminate.
Defined.

(** After a full run on an empty log, the report has a summary. *)
Lemma report_reads_pipeline_log_witness :
  exists o,
    MetricsReport.main (fun _ => None)
      (metrics_log (snd (run_process (env_of backend_ok no_io_error) fresh
                           inbox memo false false)))
    = Ok o.
Proof.
  apply (ReportOnLog.report_reads_pipeline_log (fun _ => None)
           (env_of backend_ok no_io_error) fresh
           (snd (fst (run_process (env_of backend_ok no_io_error) fresh
                        inbox memo false false)))
           inbox _ memo false false (Ok true)).
  - vm_compute. reflexivity.
  - reflexivity.
Defined.

(** One successful raw-only run and one failed run. *)
Lemma summary_counts_witness :
  exists s,
    MetricsReport.main (fun _ => None) two_rows = Ok (Some s)
    /\ MetricsReport.total_runs s = 2
    /\ MetricsReport.successful_runs s + MetricsReport.failed_runs s <= 2
    /\ MetricsReport.raw_only_runs s <= MetricsReport.successful_runs s.
Proof.
  eexists. split; [vm_compute; reflexivity|].
  destruct (ReportOnLog.summary_counts (fun _ => None) two_rows _ eq_refl)
    as (H1 & H2 & H3).
  rewrite H1 in H2. auto.
Defined.


End MoreRuns.

Module ManualRuns.
Import Str Pipeline LogSpec ConfigOps Manual.
Import Examples PipelineExamples CoverageExamples.

(** After its run the memo is not in the listing any more. *)
Lemma processed_file_not_listed_again_witness :
  ~ In memo
      (_iter_audio_files cfg_two_retries
         (snd (run_process (env_of backend_ok no_io_error) fresh inbox memo
                 false false))).
Proof.
  apply (ManualFacts.processed_file_not_listed_again
           (env_of backend_ok no_io_error) fresh
           (snd (fst (run_process (env_of backend_ok no_io_error) fresh
                        inbox memo false false)))
           inbox _ memo false false).
  - vm_compute. reflexivity.
  - reflexivity.
Defined.

(** [--all] with the language model down: both memos fail, both get
    their record, in the order of the listing. *)
Lemma batch_processes_every_file_witness :
  exists w' added,
    main (fun _ _ => true) (fun target => [target]) host_down
      ["manual.py"; "--all"] two_memos
    = (Done tt, w')
    /\ metrics_log w' = added
    /\ map (fun r => Dict.get r "audio_file") added
       = [Some (VStr "Another.MP3"); Some (VStr "My Memo (1).m4a")].
Proof.
  destruct (ManualFacts.batch_processes_every_file (fun _ _ => true)
              (fun target => [target]) host_down ["manual.py"; "--all"]
              two_memos false false) as (w' & added & H1 & H2 & H3).
  - reflexivity.
  - reflexivity.
  - intros i. repeat split.
  - exists w', added. split; [exact H1|]. split; [exact H2|]. exact H3.
Defined.

End ManualRuns.

Module WatchRuns.
Import Str Pipeline LogSpec ConfigOps Watch.
Import Examples PipelineExamples CoverageExamples.

(** The session directory cannot be made: the handler raises, the memo
    stays marked, and the next event for it is dropped. *)
Lemma in_flight_marker_witness :
  let stuck := snd (fst (on_created (env_of backend_ok mkdir_fails)
                           memo_created (init cfg_two_retries) inbox)) in
  processing stuck = [memo]
  /\ on_created (env_of backend_ok no_io_error) memo_created stuck inbox
     = (Ok tt, stuck, inbox).
Proof.
  cbv zeta.
  destruct (WatchFacts.in_flight_marker (env_of backend_ok mkdir_fails)
              memo_created (init cfg_two_retries)
              (snd (fst (on_created (env_of backend_ok mkdir_fails)
                           memo_created (init cfg_two_retries) inbox)))
              inbox inbox (Raise (OSError "Permission denied")))
    as (_ & H).
  - vm_compute. reflexivity.
  - destruct (H _ eq_refl) as (_ & H2 & H3). split; [exact H2|].
    now apply H3.
Defined.

(** The memo appears in the inbox: one record, nothing left in flight. *)
Lemma created_file_is_recorded_witness :
  exists self' w' rec,
    on_created (env_of backend_ok no_io_error) memo_created
      (init cfg_two_retries) inbox
    = (Ok tt, self', w')
    /\ processing self' = []
    /\ metrics_log w' = [rec]
    /\ Dict.get rec "audio_file" = Some (VStr "My Memo (1).m4a").
Proof.
  apply (WatchFacts.created_file_is_recorded (env_of backend_ok no_io_error)
           memo_created (init cfg_two_retries) inbox); reflexivity.
Defined.

End WatchRuns.
